(** * streaming_hdp: the DOM model, its event loop, the instance manager and the sanitizers

    A shallow embedding of
    - package [dom] (the DOM model) and package [domjson] (the update
      records),
    - the event loop of [stream.Handler.ServeHTTP], which feeds the DevTools
      events to the model and writes the updates,
    - [InstanceManager] of package [chrome]: its maps, its queue and the
      goroutine that fills it,
    - [removeScriptTags] of [previews/hdpreviews/hdpreviews.go] and
      [removeScriptTagsAndAddSnippet] of
      [previews/streaminghdpreviews/streaminghdpreviews.go], together with
      [handlerutils.IsEventHandler],
    followed by the properties of the specification that were checked
    against them (Part II) and by further properties of the code
    (Part III). *)

From Stdlib Require Import ZArith String Ascii Bool Lia.
From Stdlib.Floats Require Import SpecFloat.
From stdpp Require Import base option list strings gmap pretty.

Local Open Scope string_scope.
Local Open Scope list_scope.
Local Open Scope Z_scope.

(* ===================================================================== *)
(** * Part I. Definitions *)
(* ===================================================================== *)

(** ** Go values *)

(** A [float64] is an IEEE 754 binary64 datum; [spec_float] has exactly its
    shape (signed zeros, infinities, NaN, finite [(-1)^s * m * 2^e]). *)
Abbreviation float64 := spec_float.

(** [idFloat == 0] in Go: true on both zeros, false on everything else
    (NaN included). *)
Definition float64_is_zero (f : float64) : bool :=
  match f with
  | S754_zero _ => true
  | _ => false
  end.

(** The mathematical value of [f] with its fractional part discarded, when
    [f] is a number. *)
Definition float64_trunc (f : float64) : option Z :=
  match f with
  | S754_zero _ => Some 0
  | S754_finite s m e => Some (cond_Zopp s (Z.shiftl (Z.pos m) e))
  | S754_infinity _ | S754_nan => None
  end.

(** Go's [int] is 64 bits wide on the platforms the proxy runs on. *)
Definition int_min : Z := - 2 ^ 63.
Definition int_max : Z := 2 ^ 63 - 1.

Definition in_int_range (z : Z) : bool := (int_min <=? z) && (z <=? int_max).

(** The conversion [int(idFloat)].  The fraction is discarded.  When the
    result does not fit [int] (or there is none: NaN, infinities) the Go
    specification leaves the outcome to the implementation; the gc compiler
    on amd64 produces the "integer indefinite" value [int_min], which is what
    is written here.  Whatever the platform, the outcome is an [int]. *)
Definition int_of_float64 (f : float64) : Z :=
  match float64_trunc f with
  | Some z => if in_int_range z then z else int_min
  | None => int_min
  end.

(** [strconv.Itoa]: decimal digits, with a leading minus sign below zero. *)
Definition Itoa (z : Z) : string := pretty z.

(** A Go string is a sequence of bytes; [for range] and the functions of
    package [strings] read it as UTF-8. *)

(** [utf8.RuneError] *)
Definition RuneError : Z := 65533.

Definition byte_of (c : ascii) : Z := Z.of_N (N_of_ascii c).

(** A second, third or fourth byte between [lo] and [hi]. *)
Definition in_range (lo hi : Z) (c : ascii) : bool :=
  (lo <=? byte_of c) && (byte_of c <=? hi).

(** [acceptRanges]: the bounds on the second byte, given the first. *)
Definition accept_lo (b0 : Z) : Z :=
  if b0 =? 224 then 160 else if b0 =? 240 then 144 else 128.
Definition accept_hi (b0 : Z) : Z :=
  if b0 =? 237 then 159 else if b0 =? 244 then 143 else 191.

(** The runes of a string, as [for _, c := range s] yields them
    ([utf8.DecodeRuneInString] at each position): a byte below 0x80 is its
    own rune; a well-formed sequence of two to four bytes (no overlong form,
    no surrogate, nothing above U+10FFFF) is one rune; any other byte is
    [RuneError] and has width 1. *)
Fixpoint runes (s : string) : list Z :=
  match s with
  | EmptyString => []
  | String s0 rest =>
      let b0 := byte_of s0 in
      if b0 <? 128 then b0 :: runes rest
      else if (b0 <? 194) || (244 <? b0) then RuneError :: runes rest
      else
        match rest with
        | EmptyString => RuneError :: runes rest
        | String s1 rest1 =>
            if negb (in_range (accept_lo b0) (accept_hi b0) s1)
            then RuneError :: runes rest
            else if b0 <? 224 then
              Z.lor (Z.shiftl (Z.land b0 31) 6) (Z.land (byte_of s1) 63)
              :: runes rest1
            else
              match rest1 with
              | EmptyString => RuneError :: runes rest
              | String s2 rest2 =>
                  if negb (in_range 128 191 s2) then RuneError :: runes rest
                  else if b0 <? 240 then
                    Z.lor (Z.shiftl (Z.land b0 15) 12)
                      (Z.lor (Z.shiftl (Z.land (byte_of s1) 63) 6)
                         (Z.land (byte_of s2) 63))
                    :: runes rest2
                  else
                    match rest2 with
                    | EmptyString => RuneError :: runes rest
                    | String s3 rest3 =>
                        if negb (in_range 128 191 s3)
                        then RuneError :: runes rest
                        else
                          Z.lor (Z.shiftl (Z.land b0 7) 18)
                            (Z.lor (Z.shiftl (Z.land (byte_of s1) 63) 12)
                               (Z.lor (Z.shiftl (Z.land (byte_of s2) 63) 6)
                                  (Z.land (byte_of s3) 63)))
                          :: runes rest3
                    end
              end
        end
  end.

(** [unicode.ToLower] on an ASCII character. *)
Definition lower_ascii (c : ascii) : ascii :=
  let n := nat_of_ascii c in
  if ((65 <=? n) && (n <=? 90))%nat then ascii_of_nat (n + 32) else c.

(** [unicode.ToLower r], as far as ASCII text can tell it apart: [Some c]
    when the lower case of the rune [r] is the ASCII character [c], [None]
    when it is a rune outside ASCII.  The lower case of an ASCII rune is
    ASCII; outside ASCII the case tables send exactly two code points into
    ASCII, U+0130 (capital I with a dot above, to [i]) and U+212A (the
    Kelvin sign, to [k]); every other rune, [RuneError] included, goes to a
    rune outside ASCII or stays where it is. *)
Definition lower_rune (r : Z) : option ascii :=
  if r <? 128 then Some (lower_ascii (ascii_of_N (Z.to_N r)))
  else if r =? 304 then Some "i"%char
  else if r =? 8490 then Some "k"%char
  else None.

(** [strings.ToLower], which is [strings.Map(unicode.ToLower, s)]: the
    string is lowered rune by rune.  The result is kept as the list of its
    runes, each seen as [lower_rune] shows it; this is all that a
    comparison of the result with ASCII text depends on. *)
Definition ToLower (s : string) : list (option ascii) :=
  map lower_rune (runes s).

(** [lowered == text] for an ASCII [text]: the lowered string has the
    characters of [text] and no other rune. *)
Fixpoint equals_ascii (lowered : list (option ascii)) (text : string) : bool :=
  match lowered, text with
  | [], EmptyString => true
  | Some c :: lowered', String c' text' =>
      Ascii.eqb c c' && equals_ascii lowered' text'
  | _, _ => false
  end.

(** [strings.HasPrefix(lowered, text)] for an ASCII [text]. *)
Fixpoint has_ascii_prefix (lowered : list (option ascii)) (text : string) : bool :=
  match text with
  | EmptyString => true
  | String c' text' =>
      match lowered with
      | Some c :: lowered' => Ascii.eqb c c' && has_ascii_prefix lowered' text'
      | _ => false
      end
  end.

(** [strings.HasPrefix]. *)
Definition HasPrefix (s p : string) : bool := String.prefix p s.

(** A value of type [interface{}] as produced by the generic JSON decoder:
    [nil], [bool], [float64], [string], [[]interface{}] and
    [map[string]interface{}]. *)
#[warnings="-register-all"] Inductive jvalue : Type :=
  | JNull
  | JBool (b : bool)
  | JNum (f : float64)
  | JStr (s : string)
  | JArr (l : list jvalue)
  | JObj (m : gmap string jvalue).

(** [type Node map[string]interface{}] *)
Abbreviation Node := (gmap string jvalue).

(** Nesting depth of a decoded value, the measure for induction on trees. *)
Fixpoint jdepth (v : jvalue) : nat :=
  match v with
  | JArr l => S (foldr (fun x acc => Nat.max (jdepth x) acc) 0%nat l)
  | JObj m => S (map_fold (fun _ x acc => Nat.max (jdepth x) acc) 0%nat m)
  | _ => 0%nat
  end.

(** ** Outcomes *)

(** The errors built with [fmt.Errorf] / [errors.New]; the message text is
    replaced by a constructor that keeps what the message depends on. *)
Inductive error : Type :=
  | ErrMissingField (field : string)      (* "node %v missing field %s" *)
  | ErrNotANumber (field : string)        (* "field %s in node %v is not a number" *)
  | ErrParentMissing                      (* "parent node does not exists" *)
  | ErrPreviousMissing                    (* "the provided previous node does not exists" *)
  | ErrNoBackendNode (nodeID : string)    (* "node %v does not have a backend node" *)
  | ErrNoInstance                         (* "instance with this ID does not exist" *)
  | ErrNoURL                              (* "URL with this ID does not exist" *)
  | ErrTokenizer (msg : string).          (* [z.Err()], other than [io.EOF] *)

(** Run-time panics: a failed type assertion [x.(T)] and an index past the
    end of a slice. *)
Inductive panic : Type :=
  | InterfaceConversion
  | IndexOutOfRange.

(** The outcome of a function that does not touch the model. *)
Inductive result (A : Type) : Type :=
  | Ok (a : A)
  | Err (e : error)
  | Panic (p : panic).
Arguments Ok {A} a.
Arguments Err {A} e.
Arguments Panic {A} p.

(** The outcome of a method with receiver state [S].  An error return leaves
    behind whatever was written before it; a panic unwinds the caller. *)
Inductive outcome (S A : Type) : Type :=
  | Ret (s : S) (a : A)
  | Fail (s : S) (e : error)
  | Crash (p : panic).
Arguments Ret {S A} s a.
Arguments Fail {S A} s e.
Arguments Crash {S A} p.

Definition M (S A : Type) : Type := S -> outcome S A.

Definition mret {S A} (a : A) : M S A := fun s => Ret s a.

Definition mbind {S A B} (m : M S A) (k : A -> M S B) : M S B :=
  fun s =>
    match m s with
    | Ret s' a => k a s'
    | Fail s' e => Fail s' e
    | Crash p => Crash p
    end.

Definition lift {S A} (r : result A) : M S A :=
  fun s =>
    match r with
    | Ok a => Ret s a
    | Err e => Fail s e
    | Panic p => Crash p
    end.

Definition mget {S} : M S S := fun s => Ret s s.
Definition mmodify {S} (f : S -> S) : M S unit := fun s => Ret (f s) tt.

Declare Scope go_scope.
Delimit Scope go_scope with go.
Notation "'let*' x := m 'in' k" := (mbind m (fun x => k))
  (at level 10, x name, m at level 100, k at level 200,
   format "'[v' 'let*'  x  :=  m  'in' '/' k ']'") : go_scope.
Notation "m ;; k" := (mbind m (fun _ => k))
  (at level 100, k at level 200, right associativity) : go_scope.

(** [respects R m]: whenever [m] returns, with a value or with an error, the
    state it leaves is [R]-related to the state it started from. *)
Definition respects {S A} (R : relation S) (m : M S A) : Prop :=
  forall s,
    match m s with
    | Ret s' _ | Fail s' _ => R s s'
    | Crash _ => True
    end.

(** Type assertions of the panicking form [x.(T)]. *)
Definition assert_string (v : option jvalue) : result string :=
  match v with
  | Some (JStr s) => Ok s
  | _ => Panic InterfaceConversion
  end.

Definition assert_object (v : option jvalue) : result Node :=
  match v with
  | Some (JObj m) => Ok m
  | _ => Panic InterfaceConversion
  end.

Definition assert_slice (v : option jvalue) : result (list jvalue) :=
  match v with
  | Some (JArr l) => Ok l
  | _ => Panic InterfaceConversion
  end.

(** ** Package [domjson] *)

Module domjson.

Inductive Action : Type := Invalid | Insert | Remove | Modify.

Record Node : Type := mkNode {
  NodeID : string;
  ParentNodeID : string;
  PreviousNodeID : string;
  ElementType : string;
  Attributes : gmap string string;
  Text : string
}.

Record DOMUpdate : Type := mkDOMUpdate {
  action : Action;
  node : Node
}.

End domjson.

(** ** Package [dom] *)

Module dom.

(** Field names. *)
Definition NodeID := "nodeId".
Definition BackendNodeID := "backendNodeId".
Definition NodeName := "nodeName".
Definition LocalName := "localName".
Definition NodeValue := "nodeValue".
Definition Children := "children".
Definition ParentNodeID := "parentNodeId".
Definition PreviousNodeID := "previousNodeId".
Definition NodeField := "node".
Definition Attributes := "attributes".
Definition Nodes := "nodes".
Definition ParentID := "parentId".
Definition Name := "name".
Definition Value := "value".

(** [type DOM struct]: [backendNodeIDs] is a [map[string]bool] that only
    ever holds [true] and is only ever asked for membership. *)
Record DOM : Type := mkDOM {
  nodeIDMapping : gmap string string;
  backendNodeIDs : gset string;
  nodeTypeMapping : gmap string string
}.

Definition NewDOMModel : DOM := mkDOM ∅ ∅ ∅.

Definition set_nodeIDMapping (f : gmap string string -> gmap string string)
    (d : DOM) : DOM :=
  mkDOM (f (nodeIDMapping d)) (backendNodeIDs d) (nodeTypeMapping d).
Definition set_backendNodeIDs (f : gset string -> gset string)
    (d : DOM) : DOM :=
  mkDOM (nodeIDMapping d) (f (backendNodeIDs d)) (nodeTypeMapping d).
Definition set_nodeTypeMapping (f : gmap string string -> gmap string string)
    (d : DOM) : DOM :=
  mkDOM (nodeIDMapping d) (backendNodeIDs d) (f (nodeTypeMapping d)).

(** [strings.ToLower(x) != "script"], negated. *)
Definition is_script (elementType : string) : bool :=
  equals_ascii (ToLower elementType) "script".

(** Reading a [map[string]string] at a key that may be absent gives [""]. *)
Definition kind_of (d : DOM) (nodeID : string) : string :=
  default "" (nodeTypeMapping d !! nodeID).

(** [getNodeIDStr] *)
Definition getNodeIDStr (node : Node) (field : string) : result string :=
  match node !! field with
  | None => Err (ErrMissingField field)
  | Some (JNum idFloat) =>
      if float64_is_zero idFloat then Ok ""
      else Ok (Itoa (int_of_float64 idFloat))
  | Some _ => Err (ErrNotANumber field)
  end.

(** The loop of [getAttributes], on the part [attributesPairs[i:]] of the
    slice that is still to be read: [attributesPairs[i]] is asserted to be
    a string, then [attributesPairs[i+1]] is indexed and asserted. *)
Fixpoint getAttributes_loop (rest : list jvalue)
    (attributesMap : gmap string string) : result (gmap string string) :=
  match rest with
  | [] => Ok attributesMap
  | k :: rest1 =>
      match k with
      | JStr key =>
          match rest1 with
          | [] => Panic IndexOutOfRange
          | JStr val :: rest2 =>
              getAttributes_loop rest2 (<[key := val]> attributesMap)
          | _ :: _ => Panic InterfaceConversion
          end
      | _ => Panic InterfaceConversion
      end
  end.

(** [getAttributes]: the comma-ok assertion skips the loop when the field
    is absent or is not a slice. *)
Definition getAttributes (node : Node) : result (gmap string string) :=
  match node !! Attributes with
  | Some (JArr attributesPairs) => getAttributes_loop attributesPairs ∅
  | _ => Ok ∅
  end.

(** [getBackendNodeID] *)
Definition getBackendNodeID (nodeID : string) : M DOM string :=
  fun d =>
    match nodeIDMapping d !! nodeID with
    | Some backendNodeID => Ret d backendNodeID
    | None => Fail d (ErrNoBackendNode nodeID)
    end.

(** [createNodeInsertUpdate]: the operands are evaluated in program order
    (node name, attributes, node value) and the kind is recorded last. *)
Definition createNodeInsertUpdate (nodeID parentNodeID prevNodeID : string)
    (node : Node) : M DOM domjson.DOMUpdate :=
  (let* elementType := lift (assert_string (node !! NodeName)) in
   let* attributes :=
     (if is_script elementType then mret ∅ else lift (getAttributes node)) in
   let* text := lift (assert_string (node !! NodeValue)) in
   let jsonNode :=
     domjson.mkNode nodeID parentNodeID prevNodeID elementType attributes text in
   let insert := domjson.mkDOMUpdate domjson.Insert jsonNode in
   mmodify (set_nodeTypeMapping (<[nodeID := elementType]>)) ;;
   mret insert)%go.

(** [createNodeRemovalUpdate] *)
Definition createNodeRemovalUpdate (nodeID parentNodeID : string)
    : domjson.DOMUpdate :=
  domjson.mkDOMUpdate domjson.Remove
    (domjson.mkNode nodeID parentNodeID "" "" ∅ "").

(** [createNodeAttributeUpdate] *)
Definition createNodeAttributeUpdate (nodeID attrName attrValue : string)
    : domjson.DOMUpdate :=
  domjson.mkDOMUpdate domjson.Modify
    (domjson.mkNode nodeID "" "" "" {[ attrName := attrValue ]} "").

(** The tree walk works on the model together with the slice behind its
    [result] pointer. *)
Abbreviation walk_state := (DOM * list domjson.DOMUpdate)%type.

Definition on_dom {A} (m : M DOM A) : M walk_state A :=
  fun w =>
    match m (fst w) with
    | Ret d a => Ret (d, snd w) a
    | Fail d e => Fail (d, snd w) e
    | Crash p => Crash p
    end.

Definition append_result (u : domjson.DOMUpdate) : M walk_state unit :=
  fun w => Ret (fst w, snd w ++ [u]) tt.

(** The block [if _, ok := d.backendNodeIDs[backendNodeID]; !ok { ... }] of
    [generateInitialDOMHelper]: the first visit of a stable ID marks it, and
    emits an insert unless the parent's kind is script. *)
Definition visit (curNode : Node) (backendNodeID parentNodeID prevNodeID : string)
    : M walk_state unit :=
  (let* w := mget in
   if decide (backendNodeID ∈ backendNodeIDs (fst w)) then mret tt
   else
     on_dom (mmodify (set_backendNodeIDs (union {[ backendNodeID ]}))) ;;
     let* w := mget in
     if is_script (kind_of (fst w) parentNodeID) then mret tt
     else
       let* insert :=
         on_dom (createNodeInsertUpdate backendNodeID parentNodeID prevNodeID curNode) in
       append_result insert)%go.

Abbreviation walker := (string -> string -> M walk_state string).

(** The [for _, c := range children] loop: every child is walked with the
    stable ID returned for its left sibling; the first error ends the loop. *)
Fixpoint walk_children (walks : list walker) (parentNodeID prevNodeID : string)
    : M walk_state string :=
  match walks with
  | [] => mret prevNodeID
  | w :: rest =>
      (let* prevNodeID := w parentNodeID prevNodeID in
       walk_children rest parentNodeID prevNodeID)%go
  end.

(** What [curNode[Children]] holds, with the walk of every child. *)
Inductive children_view : Type :=
  | ChildrenNil                          (* [nil]: the block is skipped *)
  | ChildrenSlice (walks : list walker)  (* a [[]interface{}] *)
  | ChildrenOther.                       (* [.([]interface{})] panics *)

Definition view_children (walk : jvalue -> walker) (v : jvalue) : children_view :=
  match v with
  | JNull => ChildrenNil
  | JArr children => ChildrenSlice (map walk children)
  | _ => ChildrenOther
  end.

(** The body of [generateInitialDOMHelper], given the walks of the children. *)
Definition helper_body (curNode : Node) (children : option children_view)
    : walker :=
  fun parentNodeID prevNodeID =>
  (let* backendNodeID := lift (getNodeIDStr curNode BackendNodeID) in
   let* nodeID := lift (getNodeIDStr curNode NodeID) in
   visit curNode backendNodeID parentNodeID prevNodeID ;;
   match children with
   | None | Some ChildrenNil => mret tt
   | Some (ChildrenSlice walks) =>
       let* _ := walk_children walks backendNodeID "" in mret tt
   | Some ChildrenOther => lift (Panic InterfaceConversion)
   end ;;
   on_dom (mmodify (set_nodeIDMapping (<[nodeID := backendNodeID]>))) ;;
   mret backendNodeID)%go.

(** The walk of one element [c] of a children slice: [c] is asserted to be a
    map, then [generateInitialDOMHelper] runs on it.  The recursion is on the
    JSON tree: the walks of all fields are formed, and [helper_body] reads
    the one at [Children] (see [generateInitialDOMHelper_unfold]). *)
Fixpoint walk_value (c : jvalue) : walker :=
  match c with
  | JObj curNode =>
      helper_body curNode ((view_children walk_value <$> curNode) !! Children)
  | _ => fun _ _ => lift (Panic InterfaceConversion)
  end.

(** [generateInitialDOMHelper] *)
Definition generateInitialDOMHelper (curNode : Node) : walker :=
  walk_value (JObj curNode).

(** [GenerateInitialDOM]: on an error the slice is dropped, the writes to the
    model stay. *)
Definition GenerateInitialDOM (rootNode : Node) : M DOM (list domjson.DOMUpdate) :=
  fun d =>
    match generateInitialDOMHelper rootNode "" "" (d, []) with
    | Ret (d', result) _ => Ret d' result
    | Fail (d', _) err => Fail d' err
    | Crash p => Crash p
    end.

(** The loop of [ProcessSetChildNodes].  The error of the helper is not
    looked at, and what the helper appended before failing is kept; an error
    of [getNodeIDStr] leaves [prevNodeID] empty. *)
Fixpoint setChildNodes_loop (nodes : list jvalue)
    (parentBackendID prevNodeID : string) (result : list domjson.DOMUpdate)
    : M DOM (list domjson.DOMUpdate) :=
  match nodes with
  | [] => mret result
  | nodeInterface :: rest =>
      (let* curNode := lift (assert_object (Some nodeInterface)) in
       fun d =>
         match generateInitialDOMHelper curNode parentBackendID prevNodeID (d, []) with
         | Ret (d', nodeSubTreeUpdates) _
         | Fail (d', nodeSubTreeUpdates) _ =>
             let prevNodeID :=
               match getNodeIDStr curNode BackendNodeID with
               | Ok s => s
               | _ => ""
               end in
             setChildNodes_loop rest parentBackendID prevNodeID
               (result ++ nodeSubTreeUpdates) d'
         | Crash p => Crash p
         end)%go
  end.

(** [ProcessSetChildNodes] *)
Definition ProcessSetChildNodes (node : Node) : M DOM (list domjson.DOMUpdate) :=
  (let* parentNodeID := lift (getNodeIDStr node ParentID) in
   let* parentBackendID := getBackendNodeID parentNodeID in
   let* nodes := lift (assert_slice (node !! Nodes)) in
   setChildNodes_loop nodes parentBackendID "" [])%go.

(** [if id != "" { id, ok = d.nodeIDMapping[id]; if !ok { return err } }] *)
Definition translate_if_present (id : string) (err : error) : M DOM string :=
  fun d =>
    if decide (id = "") then Ret d id
    else
      match nodeIDMapping d !! id with
      | Some backend => Ret d backend
      | None => Fail d err
      end.

(** [ProcessNodeInsertion] *)
Definition ProcessNodeInsertion (node : Node) : M DOM domjson.DOMUpdate :=
  (let* nodeDetails := lift (assert_object (node !! NodeField)) in
   let* parentNodeID := lift (getNodeIDStr node ParentNodeID) in
   let* parentNodeID := translate_if_present parentNodeID ErrParentMissing in
   let* prevNodeID := lift (getNodeIDStr node PreviousNodeID) in
   let* prevNodeID := translate_if_present prevNodeID ErrPreviousMissing in
   let* nodeID := lift (getNodeIDStr nodeDetails NodeID) in
   let* backendNodeID := lift (getNodeIDStr nodeDetails BackendNodeID) in
   let* insert :=
     createNodeInsertUpdate backendNodeID parentNodeID prevNodeID nodeDetails in
   mmodify (set_nodeIDMapping (<[nodeID := backendNodeID]>)) ;;
   mret insert)%go.

(** [ProcessNodeRemoval]: the three [delete]s all use the protocol ID. *)
Definition ProcessNodeRemoval (node : Node) : M DOM domjson.DOMUpdate :=
  (let* parentNodeID := lift (getNodeIDStr node ParentNodeID) in
   let* parentBackendID := getBackendNodeID parentNodeID in
   let* nodeID := lift (getNodeIDStr node NodeID) in
   let* backendNodeID := getBackendNodeID nodeID in
   let remove := createNodeRemovalUpdate backendNodeID parentBackendID in
   mmodify (set_nodeIDMapping (delete nodeID)) ;;
   mmodify (set_backendNodeIDs (fun s => s ∖ {[ nodeID ]})) ;;
   mmodify (set_nodeTypeMapping (delete nodeID)) ;;
   mret remove)%go.

(** [ProcessNodeAttributeModification] *)
Definition ProcessNodeAttributeModification (node : Node)
    : M DOM domjson.DOMUpdate :=
  (let* nodeID := lift (getNodeIDStr node NodeID) in
   let* backendNodeID := getBackendNodeID nodeID in
   let* name := lift (assert_string (node !! Name)) in
   let* value := lift (assert_string (node !! Value)) in
   mret (createNodeAttributeUpdate backendNodeID name value))%go.

(** *** Vocabulary for the payload of [DOM.childNodeInserted] *)

(** The field holds something that is not a [float64]. *)
Definition not_a_number (v : jvalue) : Prop :=
  match v with
  | JNum _ => False
  | _ => True
  end.

(** A required ID field is missing or is not a number. *)
Definition bad_id_field (node : Node) (field : string) : Prop :=
  node !! field = None \/
  exists v, node !! field = Some v /\ not_a_number v.

(** The ID field is a non-zero number that the protocol-to-stable mapping
    does not know. *)
Definition unknown_id (d : DOM) (node : Node) (field : string) : Prop :=
  exists f, node !! field = Some (JNum f) /\ float64_is_zero f = false /\
            nodeIDMapping d !! Itoa (int_of_float64 f) = None.

Definition insertion_rejected (d : DOM) (node nodeDetails : Node) : Prop :=
  bad_id_field node ParentNodeID \/ bad_id_field node PreviousNodeID \/
  bad_id_field nodeDetails NodeID \/ bad_id_field nodeDetails BackendNodeID \/
  unknown_id d node ParentNodeID \/ unknown_id d node PreviousNodeID.

(** The nested node has the fields [createNodeInsertUpdate] asserts on: a
    string name, a string value and, unless it is a script, attributes that
    [getAttributes] can pair. *)
Definition insertable (nodeDetails : Node) : Prop :=
  exists elementType text,
    nodeDetails !! NodeName = Some (JStr elementType) /\
    nodeDetails !! NodeValue = Some (JStr text) /\
    (is_script elementType = false ->
     exists attributes, getAttributes nodeDetails = Ok attributes).

(** The protocol events the stream handler feeds to the model, and the
    operation run for each. *)
Inductive event : Type :=
  | DocumentUpdated (rootNode : Node)     (* [GenerateInitialDOM] *)
  | SetChildNodes (params : Node)         (* [ProcessSetChildNodes] *)
  | ChildNodeInserted (params : Node)     (* [ProcessNodeInsertion] *)
  | ChildNodeRemoved (params : Node)      (* [ProcessNodeRemoval] *)
  | AttributeModified (params : Node).    (* [ProcessNodeAttributeModification] *)

Definition single (m : M DOM domjson.DOMUpdate) : M DOM (list domjson.DOMUpdate) :=
  (let* u := m in mret [u])%go.

Definition process (ev : event) : M DOM (list domjson.DOMUpdate) :=
  match ev with
  | DocumentUpdated rootNode => GenerateInitialDOM rootNode
  | SetChildNodes params => ProcessSetChildNodes params
  | ChildNodeInserted params => single (ProcessNodeInsertion params)
  | ChildNodeRemoved params => single (ProcessNodeRemoval params)
  | AttributeModified params => single (ProcessNodeAttributeModification params)
  end.

(** The update stream of a sequence of events on one model: the updates of
    the calls that return, in order.  A call that returns an error emits
    nothing and the model carries on from the state it left; a panic ends
    the stream. *)
Fixpoint emitted (evs : list event) (d : DOM) : list domjson.DOMUpdate :=
  match evs with
  | [] => []
  | ev :: rest =>
      match process ev d with
      | Ret d' updates => updates ++ emitted rest d'
      | Fail d' _ => emitted rest d'
      | Crash _ => []
      end
  end.

(** The model after a sequence of events ([None] after a panic). *)
Fixpoint model_after (evs : list event) (d : DOM) : option DOM :=
  match evs with
  | [] => Some d
  | ev :: rest =>
      match process ev d with
      | Ret d' _ | Fail d' _ => model_after rest d'
      | Crash _ => None
      end
  end.

End dom.

Import dom.

(** ** Package [chrome]: the instance manager *)

Module chrome.

(** What the manager can observe of a browser [Instance]: whether its idle
    timer was armed ([InitializeTimeout]) and whether it was shut down
    ([DisconnectAndTerminate]). *)
Record Instance : Type := mkInstance {
  timerArmed : bool;
  terminated : bool
}.

(** [*Instance]: an address in the heap of instances. *)
Abbreviation instance_ptr := positive.

(** [type InstanceManager struct], with the heap its pointers refer to.  The
    queue and the mutex play no part in the operations below, which run with
    the mutex held. *)
Record InstanceManager : Type := mkInstanceManager {
  nextInstanceID : Z;
  instances : gmap Z instance_ptr;
  urls : gmap Z string;
  useFullChrome : bool;
  heap : gmap instance_ptr Instance
}.

(** [GetURL] *)
Definition GetURL (instanceID : Z) : M InstanceManager string :=
  fun im =>
    match urls im !! instanceID with
    | Some url => Ret im url
    | None => Fail im ErrNoURL
    end.

(** [GetInstance] *)
Definition GetInstance (instanceID : Z) : M InstanceManager instance_ptr :=
  fun im =>
    match instances im !! instanceID with
    | Some instance => Ret im instance
    | None => Fail im ErrNoInstance
    end.

(** [RemoveInstance] *)
Definition RemoveInstance (instanceID : Z) : M InstanceManager unit :=
  fun im =>
    match instances im !! instanceID with
    | None => Fail im ErrNoInstance
    | Some _ =>
        Ret (mkInstanceManager (nextInstanceID im)
               (delete instanceID (instances im))
               (delete instanceID (urls im))
               (useFullChrome im) (heap im)) tt
    end.

End chrome.

(** ** Package [handlerutils] *)

Module handlerutils.

(** [IsEventHandler] *)
Definition IsEventHandler (s : string) : bool := HasPrefix s "on".

End handlerutils.

(** ** Package [hdpreviews]: the batch sanitizer *)

(** The part of [golang.org/x/net/html] that [removeScriptTags] touches.  The
    tokenizer itself, [Token.String] and [html.UnescapeString] belong to the
    libraries; they are parameters of the sanitizer below. *)
Module html.

Inductive TokenType : Type :=
  | ErrorToken | TextToken | StartTagToken | EndTagToken
  | SelfClosingTagToken | CommentToken | DoctypeToken.

Inductive Atom : Type :=
  | NoAtom                 (* 0: text, comments, unknown tags *)
  | Script
  | Style
  | OtherAtom (code : N).

Record Attribute : Type := mkAttribute {
  Namespace : string;
  Key : string;
  Val : string
}.

Record Token : Type := mkToken {
  Type_ : TokenType;
  DataAtom : Atom;
  Data : string;
  Attr : list Attribute
}.

Definition is_text (tt : TokenType) : bool :=
  match tt with TextToken => true | _ => false end.
Definition is_start_tag (tt : TokenType) : bool :=
  match tt with StartTagToken => true | _ => false end.
Definition is_script_atom (a : Atom) : bool :=
  match a with Script => true | _ => false end.
Definition is_style_atom (a : Atom) : bool :=
  match a with Style => true | _ => false end.

(** How a run of [z.Next()] ends: [z.Err()] is [io.EOF] or something else. *)
Inductive tokenizer_end : Type :=
  | EOF
  | OtherError (msg : string).

End html.

Module hdpreviews.

Section removeScriptTags.

(** The tokens [z.Next()]/[z.Token()] deliver for a document, up to the
    [ErrorToken], and how the run ends. *)
Variable tokenize : string -> list html.Token * html.tokenizer_end.
(** [Token.String] and [html.UnescapeString]. *)
Variable token_String : html.Token -> string.
Variable UnescapeString : string -> string.

(** [tk.Attr = resultAttrs] *)
Definition strip_event_handlers (tk : html.Token) : html.Token :=
  html.mkToken (html.Type_ tk) (html.DataAtom tk) (html.Data tk)
    (filter (fun attr => negb (handlerutils.IsEventHandler (html.Key attr)))
       (html.Attr tk)).

(** The body of the [for] loop, on the tokens still to come. *)
Fixpoint removeScriptTags_loop (tokens : list html.Token) (response : string)
    (firstToken lastTokenWasScript lastTokenWasStyle : bool) : string :=
  match tokens with
  | [] => response
  | tk0 :: rest =>
      let tt := html.Type_ tk0 in
      let tk := strip_event_handlers tk0 in
      if firstToken && html.is_text tt then
        let str := UnescapeString (token_String tk) in
        removeScriptTags_loop rest (response +:+ str)
          firstToken lastTokenWasScript lastTokenWasStyle
      else
        let tkString := token_String tk in
        let tkString :=
          if lastTokenWasStyle && html.is_text tt
          then UnescapeString tkString else tkString in
        if lastTokenWasScript && html.is_text tt then
          removeScriptTags_loop rest response
            false lastTokenWasScript lastTokenWasStyle
        else
          let lastTokenWasScript :=
            html.is_start_tag tt && html.is_script_atom (html.DataAtom tk) in
          let lastTokenWasStyle :=
            html.is_start_tag tt && html.is_style_atom (html.DataAtom tk) in
          if html.is_script_atom (html.DataAtom tk) then
            removeScriptTags_loop rest response
              false lastTokenWasScript lastTokenWasStyle
          else
            removeScriptTags_loop rest (response +:+ tkString)
              false lastTokenWasScript lastTokenWasStyle
  end.

(** [removeScriptTags] *)
Definition removeScriptTags (dom : string) : result string :=
  let '(tokens, ending) := tokenize dom in
  match ending with
  | html.EOF => Ok (removeScriptTags_loop tokens "" true false false)
  | html.OtherError msg => Err (ErrTokenizer msg)
  end.

End removeScriptTags.

End hdpreviews.

(** ** Vocabulary for the properties of [getAttributes] *)

(** The flat list [k0, v0, k1, v1, ...] DevTools sends for the pairs. *)
Fixpoint attribute_pairs (kvs : list (string * string)) : list jvalue :=
  match kvs with
  | [] => []
  | (k, v) :: rest => JStr k :: JStr v :: attribute_pairs rest
  end.

(** The assignments [attributesMap[k] = v], first pair first. *)
Definition assign_all (kvs : list (string * string))
    (m : gmap string string) : gmap string string :=
  foldl (fun acc kv => <[kv.1 := kv.2]> acc) m kvs.

Definition is_string (v : jvalue) : Prop :=
  match v with
  | JStr _ => True
  | _ => False
  end.

(** ** Vocabulary for the properties of the walk *)

(** [appends P w w']: the slice of [w'] is the slice of [w] followed by
    updates that all satisfy [P]. *)
Definition appends (P : domjson.DOMUpdate -> Prop) : relation walk_state :=
  fun w w' => exists new, snd w' = snd w ++ new /\ Forall P new.

(** An insert for a script element carries no attribute. *)
Definition script_has_no_attributes (u : domjson.DOMUpdate) : Prop :=
  is_script (domjson.ElementType (domjson.node u)) = true ->
  domjson.Attributes (domjson.node u) = ∅.

(** The insert update with the given fields. *)
Definition insert_update (nodeID parentNodeID prevNodeID elementType : string)
    (attributes : gmap string string) (text : string) : domjson.DOMUpdate :=
  domjson.mkDOMUpdate domjson.Insert
    (domjson.mkNode nodeID parentNodeID prevNodeID elementType attributes text).

(** The stable IDs of the inserts of a stream, in order. *)
Definition inserted_ids (updates : list domjson.DOMUpdate) : list string :=
  omap (fun u =>
          match domjson.action u with
          | domjson.Insert => Some (domjson.NodeID (domjson.node u))
          | _ => None
          end) updates.

(** [fresh_inserts w w']: the stable IDs known to [w] are known to [w'], and
    the slice of [w'] is the slice of [w] followed by updates whose inserts
    have pairwise distinct stable IDs, none of them known to [w] and all of
    them known to [w']. *)
Definition fresh_inserts : relation walk_state :=
  fun w w' =>
    backendNodeIDs (fst w) ⊆ backendNodeIDs (fst w') /\
    exists new,
      snd w' = snd w ++ new /\
      NoDup (inserted_ids new) /\
      forall id, id ∈ inserted_ids new ->
        (id ∉ backendNodeIDs (fst w)) /\ (id ∈ backendNodeIDs (fst w')).

(** The events that are answered by a tree walk. *)
Definition walk_event (ev : event) : Prop :=
  match ev with
  | DocumentUpdated _ | SetChildNodes _ => True
  | _ => False
  end.

(** [handlerutils.IsEventHandler], on a key whose letters may be of either
    case: the key begins with "on". *)
Definition event_handler_key (key : string) : bool :=
  has_ascii_prefix (ToLower key) "on".

(** ** Concrete inputs used below *)

Module inputs.

(** [float64(n)] for an integer [n] (exact: the mantissa is not normalised,
    which none of the functions above looks at). *)
Definition num (n : Z) : jvalue :=
  JNum match n with
       | Z0 => S754_zero false
       | Zpos p => S754_finite false p 0
       | Zneg p => S754_finite true p 0
       end.

(** 10^19 as a binary64: [5^19 * 2^8] has 53 bits, the exponent is 11. *)
Definition float64_1e19 : float64 :=
  S754_finite false 4882812500000000 11.

Definition node_with_huge_id : Node := {[ NodeID := JNum float64_1e19 ]}.

(** A protocol node with the fields the model reads. *)
Definition protocol_node (nodeId backendNodeId : Z) (nodeName nodeValue : string)
    (attributes children : list jvalue) : Node :=
  <[NodeID := num nodeId]> (<[BackendNodeID := num backendNodeId]>
  (<[NodeName := JStr nodeName]> (<[NodeValue := JStr nodeValue]>
  (<[Attributes := JArr attributes]> (<[Children := JArr children]> ∅))))).

(** The payload of [DOM.childNodeInserted]. *)
Definition inserted (parentNodeId previousNodeId : Z) (node : Node) : Node :=
  <[ParentNodeID := num parentNodeId]> (<[PreviousNodeID := num previousNodeId]>
  (<[NodeField := JObj node]> ∅)).

(** The payload of [DOM.childNodeRemoved]. *)
Definition removed (parentNodeId nodeId : Z) : Node :=
  <[ParentNodeID := num parentNodeId]> (<[NodeID := num nodeId]> ∅).

(** The first insertion of [TestGenerateModificationUpdate]. *)
Definition first_node : Node :=
  <[NodeID := num 4]> (<[BackendNodeID := num 4]>
  (<[NodeValue := JStr "first"]> (<[NodeName := JStr "first"]> ∅))).

(** A [div] whose attribute list has lost its last value. *)
Definition odd_div : Node :=
  protocol_node 2 2 "div" "" [JStr "id"] [].

(** A [div] with a click handler. *)
Definition clickable_div : Node :=
  protocol_node 2 2 "div" "" [JStr "onclick"; JStr "steal()"] [].

(** A script element that carries a load handler. *)
Definition script_with_handler : Node :=
  protocol_node 1 1 "script" "" [JStr "onload"; JStr "boot()"] [].

(** A node as scenario S4 describes it: a stable ID, a name and children;
    the protocol ID and the node value are whatever the browser sent. *)
Definition named_node (nodeId : float64) (backendNodeId : Z)
    (nodeName nodeValue : string) (children : list jvalue) : Node :=
  <[NodeID := JNum nodeId]> (<[BackendNodeID := num backendNodeId]>
  (<[NodeName := JStr nodeName]> (<[NodeValue := JStr nodeValue]>
  (<[Children := JArr children]> ∅)))).

(** The tree of S4: [a] (stable ID 1) over the leaves [b] (2) and [c] (3). *)
Definition tree_S4 (id_a id_b id_c : float64) (text_a text_b text_c : string)
    : Node :=
  named_node id_a 1 "a" text_a
    [JObj (named_node id_b 2 "b" text_b []);
     JObj (named_node id_c 3 "c" text_c [])].

(** The tree of [TestGenerateInitialDOM], attributes included. *)
Definition tree_of_test : Node :=
  protocol_node 1 1 "a" "a" [JStr "foo00"; JStr "bar00"]
    [JObj (protocol_node 2 2 "b" "b" [JStr "foo10"; JStr "bar10"] []);
     JObj (protocol_node 3 3 "c" "c" [JStr "foo20"; JStr "bar20"] [])].

(** A script element (protocol ID 1, stable ID 1) and the text node that
    holds its source (protocol ID 2, stable ID 2). *)
Definition script_text : Node :=
  protocol_node 2 2 "#text" "alert(1)" [] [].
Definition empty_script : Node :=
  protocol_node 1 1 "script" "" [] [].

(** A script element over a [span] over a text node. *)
Definition script_span_text : Node :=
  protocol_node 1 1 "SCRIPT" "" []
    [JObj (protocol_node 2 2 "span" "" []
       [JObj (protocol_node 3 3 "#text" "alert(1)" [] [])])].

(** A [body] (protocol ID 1, stable ID 11) over a [div] (protocol ID 2,
    stable ID 12): the two kinds of ID differ, as they do in the browser. *)
Definition body_div : Node :=
  protocol_node 1 11 "body" "" []
    [JObj (protocol_node 2 12 "div" "" [] [])].

(** A manager that handed out instance 0 for a URL; the instance's timer
    runs and it has not been shut down. *)
Definition manager_with_one : chrome.InstanceManager :=
  chrome.mkInstanceManager 1 {[ 0 := 1%positive ]} {[ 0 := "https://example.org/" ]}
    false {[ 1%positive := chrome.mkInstance true false ]}.

(** A text token, as [z.Token()] builds it: no atom, no attributes. *)
Definition text_token (data : string) : html.Token :=
  html.mkToken html.TextToken html.NoAtom data [].

(** A stand-in for the tokenizer that reads [&lt;/script&gt;] the way the
    library does, as one text token whose data is [</script>] (character
    references are resolved), and anything else as the empty document. *)
Definition tokenize_escaped_script (dom : string)
    : list html.Token * html.tokenizer_end :=
  if String.eqb dom "&lt;/script&gt;" then ([text_token "</script>"], html.EOF)
  else ([], html.EOF).

(** Stand-ins for [Token.String] and [html.UnescapeString] on that token:
    the text is escaped, and unescaped again. *)
Definition String_escaped_script (tk : html.Token) : string :=
  if String.eqb (html.Data tk) "</script>" then "&lt;/script&gt;" else "".
Definition Unescape_escaped_script (s : string) : string :=
  if String.eqb s "&lt;/script&gt;" then "</script>" else s.

End inputs.

(** ** Spellings of a script element's name *)

(** [SCRİPT]: the fourth letter is U+0130, capital I with a dot above, the
    bytes 0xC4 0xB0 in UTF-8. *)
Definition dotted_SCRIPT : string :=
  "SCR" +:+ String "196" (String "176" "PT").

(** [scrıpt], with U+0131, the small dotless i (0xC4 0xB1), and [ſcript],
    with U+017F, the long s (0xC5 0xBF): both are lower-case letters
    already. *)
Definition dotless_script : string :=
  "scr" +:+ String "196" (String "177" "pt").
Definition long_s_script : string :=
  String "197" (String "191" "cript").

(** A script element with a load handler whose name is spelled [SCRİPT],
    and one whose attribute list has lost its last value. *)
Definition dotted_script_with_handler : Node :=
  inputs.protocol_node 1 1 dotted_SCRIPT "" [JStr "onload"; JStr "boot()"] [].
Definition dotted_script_odd : Node :=
  inputs.protocol_node 1 1 dotted_SCRIPT "" [JStr "onload"] [].

(** ** Vocabulary for the other operations of the model *)

(** The ID field is a number, but [nodeIDMapping] has no entry for its
    string (the empty string when the number is 0). *)
Definition unmapped_id (d : DOM) (node : Node) (field : string) : Prop :=
  exists id, getNodeIDStr node field = Ok id /\ nodeIDMapping d !! id = None.

(** The conditions under which [ProcessNodeRemoval] gives up. *)
Definition removal_rejected (d : DOM) (node : Node) : Prop :=
  bad_id_field node ParentNodeID \/ unmapped_id d node ParentNodeID \/
  bad_id_field node NodeID \/ unmapped_id d node NodeID.

(** The conditions under which [ProcessNodeAttributeModification] and
    [ProcessSetChildNodes] give up, on the field that names the node. *)
Definition unresolved_id (d : DOM) (node : Node) (field : string) : Prop :=
  bad_id_field node field \/ unmapped_id d node field.

(** The field holds a string. *)
Definition string_field (node : Node) (field : string) : Prop :=
  exists s, node !! field = Some (JStr s).

(** A node that the walk can read and that has no children to walk: both
    IDs are numbers, and [children] is absent or empty. *)
Definition leaf_node (v : jvalue) : Prop :=
  exists c backendNodeID nodeID,
    v = JObj c /\
    getNodeIDStr c BackendNodeID = Ok backendNodeID /\
    getNodeIDStr c NodeID = Ok nodeID /\
    (c !! Children = None \/ c !! Children = Some (JArr [])).

(** Every stable ID with a recorded kind is a known stable ID. *)
Definition kinds_known (d : DOM) : Prop :=
  forall id, is_Some (nodeTypeMapping d !! id) -> id ∈ backendNodeIDs d.

(** Every stable ID that a protocol ID is mapped to is a known stable ID. *)
Definition mapped_known (d : DOM) : Prop :=
  forall nodeID backendNodeID,
    nodeIDMapping d !! nodeID = Some backendNodeID ->
    backendNodeID ∈ backendNodeIDs d.

(** The events other than [DOM.childNodeInserted]. *)
Definition not_insertion (ev : event) : Prop :=
  match ev with
  | ChildNodeInserted _ => False
  | _ => True
  end.

(** [recorded_inserts w w']: the stable IDs known to [w] are known to [w']
    and keep the kind they had; the slice of [w'] is the slice of [w]
    followed by inserts for stable IDs that [w] did not know, that [w']
    knows, and whose element type is the kind [w'] records for them. *)
Definition recorded_inserts : relation walk_state :=
  fun w w' =>
    backendNodeIDs (fst w) ⊆ backendNodeIDs (fst w') /\
    (forall id, id ∈ backendNodeIDs (fst w) ->
       nodeTypeMapping (fst w') !! id = nodeTypeMapping (fst w) !! id) /\
    exists new,
      snd w' = snd w ++ new /\
      forall u, u ∈ new ->
        domjson.action u = domjson.Insert /\
        (domjson.NodeID (domjson.node u) ∉ backendNodeIDs (fst w)) /\
        (domjson.NodeID (domjson.node u) ∈ backendNodeIDs (fst w')) /\
        nodeTypeMapping (fst w') !! domjson.NodeID (domjson.node u)
        = Some (domjson.ElementType (domjson.node u)).

(** [keeps_kinds_known w w']: if the kinds of [w] are all of known stable
    IDs, so are those of [w']. *)
Definition keeps_kinds_known : relation walk_state :=
  fun w w' => kinds_known (fst w) -> kinds_known (fst w').

(** [parents_not_script p w w']: the stable IDs known to [w] are known to
    [w'] and keep the kind they had; the slice of [w'] is the slice of [w]
    followed by updates whose parent is either [p], not known to [w] (the
    parent the walk was started with), or a stable ID known to [w'] whose
    recorded kind is not script. *)
Definition parents_not_script (p : string) : relation walk_state :=
  fun w w' =>
    backendNodeIDs (fst w) ⊆ backendNodeIDs (fst w') /\
    (forall id, id ∈ backendNodeIDs (fst w) ->
       nodeTypeMapping (fst w') !! id = nodeTypeMapping (fst w) !! id) /\
    exists new,
      snd w' = snd w ++ new /\
      forall u, u ∈ new ->
        (domjson.ParentNodeID (domjson.node u) = p /\
         p ∉ backendNodeIDs (fst w)) \/
        (domjson.ParentNodeID (domjson.node u) ∈ backendNodeIDs (fst w') /\
         is_script (kind_of (fst w') (domjson.ParentNodeID (domjson.node u)))
         = false).

(** What [ProcessNodeInsertion] puts in an insert for the protocol ID [id]
    of a parent or a left sibling: nothing for the empty ID, else the stable
    ID that [nodeIDMapping] holds for it. *)
Definition stable_of (d : DOM) (id : string) : option string :=
  if decide (id = "") then Some "" else nodeIDMapping d !! id.

(** ** Vocabulary for the nodes of a tree *)

(** [node_of x c]: the node [x] is [c] itself or lies below it, through the
    [children] lists. *)
Inductive node_of (x : Node) : jvalue -> Prop :=
  | node_of_self : node_of x (JObj x)
  | node_of_child (m : Node) (children : list jvalue) (c : jvalue) :
      m !! Children = Some (JArr children) ->
      c ∈ children ->
      node_of x c ->
      node_of x (JObj m).

(** The model can resolve the node: its protocol ID has an entry in
    [nodeIDMapping] and its stable ID is a known stable ID. *)
Definition resolved (d : DOM) (x : Node) : Prop :=
  exists nodeID backendNodeID,
    getNodeIDStr x NodeID = Ok nodeID /\
    is_Some (nodeIDMapping d !! nodeID) /\
    getNodeIDStr x BackendNodeID = Ok backendNodeID /\
    backendNodeID ∈ backendNodeIDs d.

(** [mapping_grows w w']: no entry of [nodeIDMapping] and no known stable ID
    is lost from [w] to [w']. *)
Definition mapping_grows : relation walk_state :=
  fun w w' =>
    (forall nodeID, is_Some (nodeIDMapping (fst w) !! nodeID) ->
       is_Some (nodeIDMapping (fst w') !! nodeID)) /\
    backendNodeIDs (fst w) ⊆ backendNodeIDs (fst w').

(** [new_leaf c b]: the element [c] of a children list is a node with the
    stable ID [b], a protocol ID, no children of its own, and the fields
    [createNodeInsertUpdate] reads. *)
Definition new_leaf (c : jvalue) (b : string) : Prop :=
  exists curNode nodeID,
    c = JObj curNode /\
    getNodeIDStr curNode BackendNodeID = Ok b /\
    getNodeIDStr curNode NodeID = Ok nodeID /\
    (curNode !! Children = None \/ curNode !! Children = Some (JArr [])) /\
    insertable curNode.

(** ** Package [streaminghdpreviews]: the sanitizer that adds a snippet *)

Module streaminghdpreviews.

Section removeScriptTagsAndAddSnippet.

(** The tokenizer, [Token.String] and [html.UnescapeString], as for
    [hdpreviews.removeScriptTags]. *)
Variable tokenize : string -> list html.Token * html.tokenizer_end.
Variable token_String : html.Token -> string.
Variable UnescapeString : string -> string.
(** The code of [atom.Body] in the atom table. *)
Variable Body : N.

(** [tk.DataAtom == atom.Body] *)
Definition is_body_atom (a : html.Atom) : bool :=
  match a with
  | html.OtherAtom code => N.eqb code Body
  | _ => false
  end.

(** The body of the [for] loop, on the tokens still to come.  The event
    handlers are stripped by the same statements as in
    [hdpreviews.removeScriptTags]; the [continue] after the body tag leaves
    the two [lastTokenWas...] flags as they are. *)
Fixpoint removeScriptTagsAndAddSnippet_loop (tokens : list html.Token)
    (toAdd response : string)
    (firstToken lastTokenWasScript lastTokenWasStyle : bool) : string :=
  match tokens with
  | [] => response
  | tk0 :: rest =>
      let tt := html.Type_ tk0 in
      let tk := hdpreviews.strip_event_handlers tk0 in
      if firstToken && html.is_text tt then
        let str := UnescapeString (token_String tk) in
        removeScriptTagsAndAddSnippet_loop rest toAdd (response +:+ str)
          firstToken lastTokenWasScript lastTokenWasStyle
      else
        let tkString := token_String tk in
        let tkString :=
          if lastTokenWasStyle && html.is_text tt
          then UnescapeString tkString else tkString in
        if html.is_start_tag tt && is_body_atom (html.DataAtom tk) then
          let str := UnescapeString (token_String tk) in
          removeScriptTagsAndAddSnippet_loop rest toAdd
            (response +:+ (str +:+ toAdd))
            false lastTokenWasScript lastTokenWasStyle
        else if lastTokenWasScript && html.is_text tt then
          removeScriptTagsAndAddSnippet_loop rest toAdd response
            false lastTokenWasScript lastTokenWasStyle
        else
          let lastTokenWasScript :=
            html.is_start_tag tt && html.is_script_atom (html.DataAtom tk) in
          let lastTokenWasStyle :=
            html.is_start_tag tt && html.is_style_atom (html.DataAtom tk) in
          if html.is_script_atom (html.DataAtom tk) then
            removeScriptTagsAndAddSnippet_loop rest toAdd response
              false lastTokenWasScript lastTokenWasStyle
          else
            removeScriptTagsAndAddSnippet_loop rest toAdd (response +:+ tkString)
              false lastTokenWasScript lastTokenWasStyle
  end.

(** [removeScriptTagsAndAddSnippet] *)
Definition removeScriptTagsAndAddSnippet (dom toAdd : string) : result string :=
  let '(tokens, ending) := tokenize dom in
  match ending with
  | html.EOF =>
      Ok (removeScriptTagsAndAddSnippet_loop tokens toAdd "" true false false)
  | html.OtherError msg => Err (ErrTokenizer msg)
  end.

(** A start tag whose atom is [atom.Body]. *)
Definition is_body_start_tag (tk : html.Token) : bool :=
  html.is_start_tag (html.Type_ tk) && is_body_atom (html.DataAtom tk).

End removeScriptTagsAndAddSnippet.

End streaminghdpreviews.

(** ** Package [stream]: the event loop that feeds the model *)

Module stream.





(** How the loop ends on a finite run of turns: it returns, it panics, or it
    waits in [NextEvent] for a turn that has not come. *)
Inductive ending : Type :=
  | Returned
  | Panicked (p : panic)
  | Waiting.


Section ServeHTTP.

(** [json.Marshal] on a [domjson.DOMUpdates]. *)
Variable Marshal : list domjson.DOMUpdate -> string.

(** The state of the loop: the model and the strings written so far. *)
Abbreviation loop_state := (DOM * list string)%type.




End ServeHTTP.


End stream.

(** ** Package [chrome], continued: the manager, its queue and its goroutine *)

(** [NewInstanceManager] starts one goroutine that runs [addInstance] for
    ever; the handlers call [GetNewInstance] and [RemoveInstance] from
    goroutines of their own.  The statements between two uses of the mutex
    or of the channel are the steps of the model; a run is any interleaving
    of them. *)
Module pool.

(** [numBufferedInstance], the capacity of [instanceQueue]. *)
Definition numBufferedInstance : nat := 15.

(** [im.nextInstanceID++] on an [int]. *)
Definition int_succ (z : Z) : Z :=
  if decide (z = int_max) then int_min else z + 1.

(** Where the goroutine of [addInstance] stands, with its local [id]. *)
Inductive adder_state : Type :=
  | AtStart                  (* about to call [addInstance] *)
  | HasID (id : Z)           (* [id] taken; no browser yet *)
  | HasInstance (id : Z).    (* [im.instances[id]] set; not yet connected *)

(** The manager: the struct with its heap, the channel, the goroutine of
    [addInstance], and the IDs that calls of [GetNewInstance] have received
    from the channel and not yet registered. *)
Record Manager : Type := mkManager {
  im : chrome.InstanceManager;
  instanceQueue : list Z;
  adder : adder_state;
  receivers : list Z
}.

(** [NewInstanceManager] *)
Definition NewInstanceManager (useFullChrome : bool) : Manager :=
  mkManager (chrome.mkInstanceManager 0 ∅ ∅ useFullChrome ∅) [] AtStart [].

Inductive action : Type :=
  | TakeID       (* [addInstance]: [id := im.nextInstanceID; im.nextInstanceID++] *)
  | GiveUp       (* [addInstance] returns early: no port, no browser, [Wait]
                    or [Connect] failed *)
  | Register (chromeInstance : chrome.instance_ptr)
                 (* [addInstance]: [New] succeeded; [im.instances[id] = chromeInstance] *)
  | Publish      (* [addInstance]: [im.instanceQueue <- id] *)
  | Receive      (* [GetNewInstance]: [nextInstanceID := <-im.instanceQueue] *)
  | Arm (id : Z) (url : string)
                 (* [GetNewInstance], under the mutex: [im.urls[id] = url;
                    im.instances[id].InitializeTimeout()] *)
  | Remove (instanceID : Z)                   (* [RemoveInstance] *)
  | Terminate (c : chrome.instance_ptr).      (* [DisconnectAndTerminate] *)

(** What a step shows: an ID leaves the channel, [GetNewInstance] returns
    an ID, it dereferences the nil pointer that [im.instances] gave for its
    ID, or [InitializeTimeout] ends the process with [log.Fatalf]. *)
Inductive observation : Type :=
  | Silent
  | Received (id : Z)
  | Returned (id : Z)
  | NilDereference (id : Z)
  | Fatal (id : Z).

Fixpoint remove_first (id : Z) (l : list Z) : list Z :=
  match l with
  | [] => []
  | x :: rest => if decide (x = id) then rest else x :: remove_first id rest
  end.

(** One step; [None] when the action cannot be taken in this state (the
    goroutine is elsewhere, the channel is full or empty). *)
Definition step (a : action) (m : Manager) : option (Manager * observation) :=
  let i := im m in
  match a with
  | TakeID =>
      match adder m with
      | AtStart =>
          Some (mkManager
                  (chrome.mkInstanceManager
                     (int_succ (chrome.nextInstanceID i)) (chrome.instances i)
                     (chrome.urls i) (chrome.useFullChrome i) (chrome.heap i))
                  (instanceQueue m) (HasID (chrome.nextInstanceID i))
                  (receivers m), Silent)
      | _ => None
      end
  | GiveUp =>
      match adder m with
      | AtStart => None
      | HasID _ | HasInstance _ =>
          Some (mkManager i (instanceQueue m) AtStart (receivers m), Silent)
      end
  | Register chromeInstance =>
      match adder m, chrome.heap i !! chromeInstance with
      | HasID id, None =>
          Some (mkManager
                  (chrome.mkInstanceManager
                     (chrome.nextInstanceID i)
                     (<[id := chromeInstance]> (chrome.instances i))
                     (chrome.urls i) (chrome.useFullChrome i)
                     (<[chromeInstance := chrome.mkInstance false false]>
                        (chrome.heap i)))
                  (instanceQueue m) (HasInstance id) (receivers m), Silent)
      | _, _ => None
      end
  | Publish =>
      match adder m with
      | HasInstance id =>
          if decide (length (instanceQueue m) < numBufferedInstance)%nat
          then Some (mkManager i (instanceQueue m ++ [id]) AtStart (receivers m),
                     Silent)
          else None
      | _ => None
      end
  | Receive =>
      match instanceQueue m with
      | nextInstanceID :: rest =>
          Some (mkManager i rest (adder m) (nextInstanceID :: receivers m),
                Received nextInstanceID)
      | [] => None
      end
  | Arm id url =>
      if decide (id ∈ receivers m) then
        let urls := <[id := url]> (chrome.urls i) in
        let left := remove_first id (receivers m) in
        let registered heap :=
          mkManager
            (chrome.mkInstanceManager (chrome.nextInstanceID i)
               (chrome.instances i) urls (chrome.useFullChrome i) heap)
            (instanceQueue m) (adder m) left in
        match chrome.instances i !! id with
        | None => Some (registered (chrome.heap i), NilDereference id)
        | Some c =>
            match chrome.heap i !! c with
            | None => None
            | Some instance =>
                if chrome.timerArmed instance
                then Some (registered (chrome.heap i), Fatal id)
                else Some (registered
                             (<[c := chrome.mkInstance true
                                       (chrome.terminated instance)]>
                                (chrome.heap i)), Returned id)
            end
        end
      else None
  | Remove instanceID =>
      match chrome.RemoveInstance instanceID i with
      | Ret i' _ | Fail i' _ =>
          Some (mkManager i' (instanceQueue m) (adder m) (receivers m), Silent)
      | Crash _ => None
      end
  | Terminate c =>
      match chrome.heap i !! c with
      | Some instance =>
          Some (mkManager
                  (chrome.mkInstanceManager (chrome.nextInstanceID i)
                     (chrome.instances i) (chrome.urls i)
                     (chrome.useFullChrome i)
                     (<[c := chrome.mkInstance (chrome.timerArmed instance) true]>
                        (chrome.heap i)))
                  (instanceQueue m) (adder m) (receivers m), Silent)
      | None => None
      end
  end.

(** A run: every action is taken in its turn, and nothing follows the end
    of the process. *)
Fixpoint run (actions : list action) (m : Manager)
    : option (Manager * list observation) :=
  match actions with
  | [] => Some (m, [])
  | a :: rest =>
      match step a m with
      | None => None
      | Some (m', Fatal id) =>
          match rest with
          | [] => Some (m', [Fatal id])
          | _ :: _ => None
          end
      | Some (m', o) =>
          match run rest m' with
          | Some (m'', os) => Some (m'', o :: os)
          | None => None
          end
      end
  end.

(** The IDs that left the channel, in their order. *)
Definition received (os : list observation) : list Z :=
  omap (fun o => match o with Received id => Some id | _ => None end) os.

(** The ID the goroutine of [addInstance] holds. *)
Definition adder_ids (a : adder_state) : list Z :=
  match a with
  | AtStart => []
  | HasID id | HasInstance id => [id]
  end.

(** The ID the goroutine has registered an instance for. *)
Definition registered_ids (a : adder_state) : list Z :=
  match a with
  | HasInstance id => [id]
  | _ => []
  end.

(** The ID whose [GetNewInstance] a step completes. *)
Definition completed (a : action) : list Z :=
  match a with
  | Arm id _ => [id]
  | _ => []
  end.

(** The books of the IDs after [k] of them were taken: the counter is [k];
    the ID of the goroutine, those in the channel, those received and those
    whose [GetNewInstance] is over (the list [done]) are below [k] and all
    different. *)
Definition ledger (k : nat) (done : list Z) (m : Manager) : Prop :=
  chrome.nextInstanceID (im m) = Z.of_nat k /\
  NoDup (adder_ids (adder m) ++ instanceQueue m ++ receivers m ++ done) /\
  forall id,
    id ∈ adder_ids (adder m) ++ instanceQueue m ++ receivers m ++ done ->
    0 <= id < Z.of_nat k.

(** Every ID on its way to a caller has an instance whose timer is not
    armed; instances are in the heap, and no two IDs share one. *)
Definition served (m : Manager) : Prop :=
  (forall id c, chrome.instances (im m) !! id = Some c ->
     is_Some (chrome.heap (im m) !! c)) /\
  (forall id1 id2 c,
     chrome.instances (im m) !! id1 = Some c ->
     chrome.instances (im m) !! id2 = Some c -> id1 = id2) /\
  forall id,
    id ∈ registered_ids (adder m) ++ instanceQueue m ++ receivers m ->
    exists c instance,
      chrome.instances (im m) !! id = Some c /\
      chrome.heap (im m) !! c = Some instance /\
      chrome.timerArmed instance = false.

(** [RemoveInstance] is called only for IDs that [GetNewInstance] has
    returned (or that are in [done]). *)
Definition removes_returned (done : list Z) (actions : list action)
    (os : list observation) : Prop :=
  forall (n : nat) (id : Z),
    actions !! n = Some (Remove id) ->
    id ∈ done \/ exists j, (j < n)%nat /\ os !! j = Some (Returned id).

End pool.

(** ** Vocabulary for the properties of the event loop *)


(** ** Vocabulary for the properties of the sanitizers *)

(** A token as the sanitizer appends it to the response: its string, passed
    through [html.UnescapeString] or not. *)
Definition rendered (token_String : html.Token -> string)
    (UnescapeString : string -> string) (piece : html.Token * bool) : string :=
  if snd piece then UnescapeString (token_String (fst piece))
  else token_String (fst piece).

(** The strings of a list, one after the other. *)
Definition concat_all (l : list string) : string := foldr String.append "" l.

(** No attribute of the token has a key that [IsEventHandler] accepts. *)
Definition no_event_handler (tk : html.Token) : Prop :=
  Forall (fun attr => handlerutils.IsEventHandler (html.Key attr) = false)
    (html.Attr tk).

(** What holds of a token the sanitizer appends: it is a token of the
    document with its event handlers stripped, it is a text token or a token
    whose atom is not [atom.Script], and only text tokens are unescaped. *)
Definition sanitized_piece (piece : html.Token * bool) : Prop :=
  no_event_handler (fst piece) /\
  (html.is_text (html.Type_ (fst piece)) = true \/
   html.is_script_atom (html.DataAtom (fst piece)) = false) /\
  (snd piece = true -> html.is_text (html.Type_ (fst piece)) = true).

(* ===================================================================== *)
(** * Part II. Properties *)
(* ===================================================================== *)

(** ** Numbers and their decimal strings *)

Lemma pretty_N_go_nonempty (x : N) (s : string) :
  s ≠ "" -> pretty_N_go x s ≠ "".
Proof.
  revert s. induction (N.lt_wf_0 x) as [x _ IH]; intros s Hs.
  destruct (decide (x = 0%N)) as [->|Hx].
  - by rewrite pretty_N_go_0.
  - rewrite pretty_N_go_step by lia.
    apply IH; [apply N.div_lt; lia | discriminate].
Qed.

Lemma pretty_positive_nonempty (p : positive) : pretty p ≠ "".
Proof.
  unfold pretty, pretty_positive, pretty, pretty_N.
  rewrite decide_False by discriminate.
  rewrite pretty_N_go_step by lia.
  apply pretty_N_go_nonempty. discriminate.
Qed.

Lemma Itoa_nonempty (z : Z) : Itoa z ≠ "".
Proof.
  unfold Itoa, pretty, pretty_Z. destruct z as [|p|p].
  - discriminate.
  - apply pretty_positive_nonempty.
  - discriminate.
Qed.

Lemma Itoa_inj (x y : Z) : Itoa x = Itoa y -> x = y.
Proof. apply pretty_Z_inj. Qed.

Lemma in_int_range_spec (z : Z) :
  in_int_range z = true <-> int_min <= z <= int_max.
Proof. unfold in_int_range. rewrite andb_true_iff, !Z.leb_le. tauto. Qed.

Lemma int_of_float64_in_range (f : float64) :
  int_min <= int_of_float64 f <= int_max.
Proof.
  unfold int_of_float64.
  destruct (float64_trunc f) as [z|]; [destruct (in_int_range z) eqn:E|].
  - by apply in_int_range_spec.
  - unfold int_min, int_max; lia.
  - unfold int_min, int_max; lia.
Qed.

Lemma int_of_float64_exact (f : float64) (z : Z) :
  float64_trunc f = Some z -> int_min <= z <= int_max ->
  int_of_float64 f = z.
Proof.
  intros Hf Hz. unfold int_of_float64. rewrite Hf.
  apply in_int_range_spec in Hz. by rewrite Hz.
Qed.

(** ** Lower case *)

(** The decoding at work: U+00E9, U+20AC and U+1F600 in two, three and four
    bytes; the Kelvin sign, whose lower case is [k]; and the sequences that
    UTF-8 forbids (an overlong form, a surrogate, a code point above
    U+10FFFF, a sequence cut short), where every byte is a [RuneError]. *)
Lemma runes_examples :
  runes (String "195" (String "169" "")) = [233] /\
  runes (String "226" (String "130" (String "172" ""))) = [8364] /\
  runes (String "240" (String "159" (String "152" (String "128" ""))))
  = [128512] /\
  ToLower (String "226" (String "132" (String "170" ""))) = [Some "k"%char] /\
  runes (String "192" (String "128" "")) = [RuneError; RuneError] /\
  runes (String "237" (String "160" (String "128" "")))
  = [RuneError; RuneError; RuneError] /\
  runes (String "244" (String "144" (String "128" (String "128" ""))))
  = [RuneError; RuneError; RuneError; RuneError] /\
  runes (String "226" (String "130" "A")) = [RuneError; RuneError; 65].
Proof. by vm_compute. Qed.

(** On a string of ASCII bytes [ToLower] lowers the letters A to Z and
    leaves every other byte. *)
Lemma ToLower_ascii (s : string) :
  Forall (fun c => byte_of c < 128) (list_ascii_of_string s) ->
  ToLower s = map (fun c => Some (lower_ascii c)) (list_ascii_of_string s).
Proof.
  unfold ToLower. induction s as [|c s IH]; simpl; [done|].
  intros [Hc Hs]%Forall_cons.
  destruct (byte_of c <? 128) eqn:Hlt; [|apply Z.ltb_ge in Hlt; lia].
  simpl. rewrite IH by done. f_equal.
  unfold lower_rune. rewrite Hlt. unfold byte_of.
  by rewrite N2Z.id, ascii_N_embedding.
Qed.

(** The script test follows [strings.ToLower]: the name counts as a script
    in either letter case and also with the dotted capital I of U+0130,
    whose lower case is [i]; it does not with the dotless small i or the
    long s, which are lower-case letters of their own, nor with a byte that
    is not UTF-8. *)
Lemma is_script_spellings :
  is_script "script" = true /\
  is_script "sCrIpT" = true /\
  is_script dotted_SCRIPT = true /\
  is_script dotless_script = false /\
  is_script long_s_script = false /\
  is_script (String "196" "script") = false /\
  is_script "scripts" = false /\
  is_script "" = false.
Proof. by vm_compute. Qed.

(** ** [getNodeIDStr] *)

Lemma getNodeIDStr_zero (node : Node) (field : string) (f : float64) :
  node !! field = Some (JNum f) -> float64_is_zero f = true ->
  getNodeIDStr node field = Ok "".
Proof. intros Hl Hz. unfold getNodeIDStr. by rewrite Hl, Hz. Qed.

Lemma getNodeIDStr_nonzero (node : Node) (field : string) (f : float64) :
  node !! field = Some (JNum f) -> float64_is_zero f = false ->
  getNodeIDStr node field = Ok (Itoa (int_of_float64 f)).
Proof. intros Hl Hz. unfold getNodeIDStr. by rewrite Hl, Hz. Qed.

Lemma getNodeIDStr_error_iff (node : Node) (field : string) :
  (exists e, getNodeIDStr node field = Err e) <-> bad_id_field node field.
Proof.
  unfold getNodeIDStr, bad_id_field. split.
  - intros [e He]. destruct (node !! field) as [v|] eqn:Hl; [|by left].
    right. exists v. split; [done|].
    destruct v; simpl; try done. by destruct (float64_is_zero f).
  - intros [->|(v & -> & Hv)]; [by eexists|].
    destruct v; simpl in Hv; try done; by eexists.
Qed.

Lemma getNodeIDStr_no_panic (node : Node) (field : string) (p : panic) :
  getNodeIDStr node field ≠ Panic p.
Proof.
  unfold getNodeIDStr.
  destruct (node !! field) as [[| | f | | |]|]; try done.
  by destruct (float64_is_zero f).
Qed.

(** C8, as stated, fails: the field holds the non-zero binary64 number
    10^19, whose truncation toward zero is 10^19, and [getNodeIDStr] does not
    return the decimal string of 10^19 (no [int] is that large). *)
Lemma getNodeIDStr_huge_counterexample :
  valid_binary 53 1024 inputs.float64_1e19 = true /\
  inputs.node_with_huge_id !! NodeID = Some (JNum inputs.float64_1e19) /\
  float64_is_zero inputs.float64_1e19 = false /\
  float64_trunc inputs.float64_1e19 = Some 10000000000000000000 /\
  getNodeIDStr inputs.node_with_huge_id NodeID ≠ Ok (Itoa 10000000000000000000).
Proof.
  do 4 (split; [reflexivity|]).
  assert (getNodeIDStr inputs.node_with_huge_id NodeID
          = Ok (Itoa (int_of_float64 inputs.float64_1e19))) as -> by reflexivity.
  intros H.
  assert (int_of_float64 inputs.float64_1e19 = 10000000000000000000) as Hz
    by (apply Itoa_inj; congruence).
  clear H; rename Hz into H.
  pose proof (int_of_float64_in_range inputs.float64_1e19) as Hr.
  rewrite H in Hr. unfold int_max in Hr. lia.
Qed.

(** C8, amended: [getNodeIDStr] returns the empty string when the field
    holds the floating-point value 0; it returns the decimal string of the
    value truncated toward zero when the field holds any other
    floating-point number whose truncation fits the 64-bit [int] type; and it
    returns an error exactly when the field is missing or its value is not a
    number. *)
Theorem getNodeIDStr_spec (node : Node) (field : string) :
  (forall f, node !! field = Some (JNum f) -> float64_is_zero f = true ->
     getNodeIDStr node field = Ok "") /\
  (forall f z, node !! field = Some (JNum f) -> float64_is_zero f = false ->
     float64_trunc f = Some z -> int_min <= z <= int_max ->
     getNodeIDStr node field = Ok (Itoa z)) /\
  ((exists e, getNodeIDStr node field = Err e) <->
   (node !! field = None \/
    exists v, node !! field = Some v /\ not_a_number v)).
Proof.
  split; [|split].
  - apply getNodeIDStr_zero.
  - intros f z Hl Hz Ht Hr.
    rewrite (getNodeIDStr_nonzero _ _ _ Hl Hz).
    by rewrite (int_of_float64_exact _ _ Ht Hr).
  - apply getNodeIDStr_error_iff.
Qed.

Lemma getNodeIDStr_spec_witness :
  getNodeIDStr {[ NodeID := JNum (S754_finite false 7 0) ]} NodeID = Ok "7".
Proof.
  apply (proj1 (proj2 (getNodeIDStr_spec
           {[ NodeID := JNum (S754_finite false 7 0) ]} NodeID))
         (S754_finite false 7 0) 7).
  - reflexivity.
  - reflexivity.
  - reflexivity.
  - unfold int_min, int_max. lia.
Defined.

(** ** [getAttributes] *)

Lemma length_attribute_pairs (kvs : list (string * string)) :
  length (attribute_pairs kvs) = (2 * length kvs)%nat.
Proof. induction kvs as [|[k v] kvs IH]; simpl; lia. Qed.

Lemma getAttributes_loop_pairs (kvs : list (string * string))
    (m : gmap string string) :
  getAttributes_loop (attribute_pairs kvs) m = Ok (assign_all kvs m).
Proof.
  revert m. induction kvs as [|[k v] kvs IH]; intros m; simpl; [done|].
  apply IH.
Qed.

Lemma assign_all_lookup_notin (kvs : list (string * string))
    (m : gmap string string) (k : string) :
  k ∉ kvs.*1 -> assign_all kvs m !! k = m !! k.
Proof.
  revert m. induction kvs as [|[k' v'] kvs IH]; intros m Hk; simpl; [done|].
  rewrite fmap_cons, not_elem_of_cons in Hk. destruct Hk as [Hne Hk].
  unfold assign_all in *. simpl. rewrite IH by done.
  by rewrite lookup_insert_ne.
Qed.

(** The last assignment to a key wins. *)
Lemma assign_all_lookup_last (kvs1 kvs2 : list (string * string))
    (m : gmap string string) (k v : string) :
  k ∉ kvs2.*1 -> assign_all (kvs1 ++ (k, v) :: kvs2) m !! k = Some v.
Proof.
  intros Hk. unfold assign_all. rewrite foldl_app. simpl.
  fold (assign_all kvs2 (<[k:=v]> (foldl (fun acc kv => <[kv.1:=kv.2]> acc) m kvs1))).
  rewrite assign_all_lookup_notin by done. apply lookup_insert_eq.
Qed.

Lemma assign_all_lookup_NoDup (kvs : list (string * string)) (k v : string) :
  NoDup kvs.*1 -> (k, v) ∈ kvs -> assign_all kvs ∅ !! k = Some v.
Proof.
  intros Hnd Hin.
  apply list_elem_of_split in Hin as (kvs1 & kvs2 & ->).
  apply assign_all_lookup_last.
  rewrite fmap_app, fmap_cons in Hnd. simpl in Hnd.
  apply NoDup_app in Hnd as (_ & _ & Hnd).
  by apply NoDup_cons in Hnd as [? _].
Qed.

Lemma assign_all_dom (kvs : list (string * string)) (k : string) :
  is_Some (assign_all kvs ∅ !! k) <-> k ∈ kvs.*1.
Proof.
  assert (forall m, is_Some (assign_all kvs m !! k)
                    <-> k ∈ kvs.*1 \/ is_Some (m !! k)) as H.
  { induction kvs as [|[k' v'] kvs IH]; intros m; unfold assign_all in *; simpl.
    - rewrite elem_of_nil. tauto.
    - rewrite IH, elem_of_cons. simpl.
      destruct (decide (k = k')) as [->|Hne].
      + rewrite lookup_insert_eq. split; [intros _|intros _; right; by eexists].
        by left; left.
      + rewrite lookup_insert_ne by done. tauto. }
  rewrite H, lookup_empty. split; [intros [?|[? [=]]]; done | by left].
Qed.

Lemma getAttributes_loop_not_err (l : list jvalue) (m : gmap string string)
    (e : error) :
  getAttributes_loop l m ≠ Err e.
Proof.
  remember (length l) as n eqn:Hn. revert l m Hn.
  induction n as [n IH] using lt_wf_ind. intros l m ->.
  destruct l as [|k [|v l]]; simpl; [done|by destruct k|].
  destruct k; try done. destruct v; try done.
  apply (IH (length l)); [simpl; lia|done].
Qed.

Lemma getAttributes_not_err (node : Node) (e : error) :
  getAttributes node ≠ Err e.
Proof.
  unfold getAttributes.
  destruct (node !! Attributes) as [[| | | |l|]|]; try done.
  apply getAttributes_loop_not_err.
Qed.

(** An odd number of entries makes the loop panic: either an entry is not a
    string, or the read of [attributesPairs[i+1]] is past the end. *)
Lemma getAttributes_loop_odd (n : nat) (l : list jvalue)
    (m : gmap string string) :
  length l = S (2 * n) ->
  (exists p, getAttributes_loop l m = Panic p) /\
  (Forall is_string l -> getAttributes_loop l m = Panic IndexOutOfRange).
Proof.
  revert l m. induction n as [|n IH]; intros l m Hlen.
  - destruct l as [|k [|??]]; simplify_eq/=.
    destruct k; simpl; split; eauto; intros Hs; by inversion Hs.
  - destruct l as [|k [|v l]]; simplify_eq/=.
    assert (length l = S (2 * n)) as Hl by lia.
    destruct (IH l m Hl) as [_ _].
    destruct k as [| | | key | |]; simpl;
      try (split; [eauto|intros Hs; by inversion Hs]).
    destruct v as [| | | val | |]; simpl;
      try (split; [eauto|intros Hs; inversion Hs as [|?? _ Hs']; by inversion Hs']).
    destruct (IH l (<[key:=val]> m) Hl) as [Hp Hi].
    split; [done|]. intros Hs. apply Hi.
    inversion Hs as [|?? _ Hs']; by inversion Hs'.
Qed.

(** C10: on a list [k0, v0, ..., k(n-1), v(n-1)] of even length
    [getAttributes] returns the map built by assigning each [vi] to [ki]
    (it sends each [ki] to [vi]: always for the last occurrence of a key,
    hence for every pair when the keys are distinct, and it has no other
    key); on a list of odd length it panics, and when all entries are strings
    the panic is the read of index [i+1] past the end of the list. *)
Theorem getAttributes_even_total_odd_panics (node : Node) :
  (forall kvs, node !! Attributes = Some (JArr (attribute_pairs kvs)) ->
     length (attribute_pairs kvs) = (2 * length kvs)%nat /\
     getAttributes node = Ok (assign_all kvs ∅) /\
     (forall kvs1 k v kvs2, kvs = kvs1 ++ (k, v) :: kvs2 -> k ∉ kvs2.*1 ->
        assign_all kvs ∅ !! k = Some v) /\
     (NoDup kvs.*1 -> forall k v, (k, v) ∈ kvs ->
        assign_all kvs ∅ !! k = Some v) /\
     (forall k, is_Some (assign_all kvs ∅ !! k) <-> k ∈ kvs.*1)) /\
  (forall l n, node !! Attributes = Some (JArr l) -> length l = S (2 * n) ->
     (exists p, getAttributes node = Panic p) /\
     (Forall is_string l -> getAttributes node = Panic IndexOutOfRange)).
Proof.
  split.
  - intros kvs Hl. split; [apply length_attribute_pairs|]. split.
    + unfold getAttributes. rewrite Hl. apply getAttributes_loop_pairs.
    + split; [|split].
      * intros kvs1 k v kvs2 -> Hk. by apply assign_all_lookup_last.
      * intros Hnd k v Hin. by apply assign_all_lookup_NoDup.
      * apply assign_all_dom.
  - intros l n Hl Hlen. unfold getAttributes. rewrite Hl.
    by apply (getAttributes_loop_odd n).
Qed.

Lemma getAttributes_even_total_odd_panics_witness :
  getAttributes {[ Attributes := JArr [JStr "id"; JStr "x"; JStr "class"; JStr "y"] ]}
    = Ok (<["class" := "y"]> (<["id" := "x"]> ∅)) /\
  getAttributes {[ Attributes := JArr [JStr "id"; JStr "x"; JStr "class"] ]}
    = Panic IndexOutOfRange.
Proof.
  split.
  - assert ((({[ Attributes := JArr [JStr "id"; JStr "x"; JStr "class"; JStr "y"] ]})
               : Node) !! Attributes
            = Some (JArr (attribute_pairs [("id", "x"); ("class", "y")]))) as Hl
      by reflexivity.
    exact (proj1 (proj2 (proj1 (getAttributes_even_total_odd_panics _) _ Hl))).
  - assert ((({[ Attributes := JArr [JStr "id"; JStr "x"; JStr "class"] ]})
               : Node) !! Attributes
            = Some (JArr [JStr "id"; JStr "x"; JStr "class"])) as Hl
      by reflexivity.
    apply (proj2 (proj2 (getAttributes_even_total_odd_panics _) _ 1%nat Hl eq_refl)).
    repeat constructor.
Defined.

(** ** Induction on decoded trees *)

Lemma jdepth_elem (l : list jvalue) (c : jvalue) :
  c ∈ l -> (jdepth c < jdepth (JArr l))%nat.
Proof.
  simpl. induction 1 as [c l|c c' l _ IH]; simpl; lia.
Qed.

Lemma jdepth_lookup (m : Node) (k : string) (v : jvalue) :
  m !! k = Some v -> (jdepth v < jdepth (JObj m))%nat.
Proof.
  simpl. intros Hl. apply Nat.lt_succ_r. revert k v Hl.
  apply (map_fold_weak_ind
           (fun r (m : Node) => forall k v, m !! k = Some v -> (jdepth v <= r)%nat)).
  - intros k v. by rewrite lookup_empty.
  - intros i x m' r _ IH k v. destruct (decide (k = i)) as [->|Hne].
    + rewrite lookup_insert_eq. intros [= ->]. lia.
    + rewrite lookup_insert_ne by done. intros Hl. specialize (IH _ _ Hl). lia.
Qed.

(** To prove [P] of every value it is enough to prove it of a value knowing
    it of the elements of the slices stored in its fields. *)
Lemma jvalue_tree_ind (P : jvalue -> Prop) :
  (forall v,
     (forall m k l c, v = JObj m -> m !! k = Some (JArr l) -> c ∈ l -> P c) ->
     P v) ->
  forall v, P v.
Proof.
  intros step v. remember (jdepth v) as n eqn:Hn. revert v Hn.
  induction n as [n IH] using lt_wf_ind. intros v ->.
  apply step. intros m k l c -> Hl Hc. apply (IH (jdepth c)); [|done].
  eapply Nat.lt_trans; [by apply jdepth_elem | by eapply jdepth_lookup].
Qed.

(** ** Rules for [respects] *)

Section respects_rules.
Context {S : Type} (R : relation S) `{!Reflexive R} `{!Transitive R}.

Lemma respects_mret {A} (a : A) : respects R (mret a).
Proof. intros s. simpl. reflexivity. Qed.

Lemma respects_lift {A} (r : result A) : respects R (lift r).
Proof. intros s. unfold lift. destruct r; simpl; try reflexivity; done. Qed.

Lemma respects_mget : respects R mget.
Proof. intros s. simpl. reflexivity. Qed.

Lemma respects_mbind {A B} (m : M S A) (k : A -> M S B) :
  respects R m -> (forall a, respects R (k a)) -> respects R (mbind m k).
Proof.
  intros Hm Hk s. unfold mbind. specialize (Hm s).
  destruct (m s) as [s' a|s' e|p]; [|done..].
  specialize (Hk a s'). destruct (k a s') as [s'' b|s'' e|p]; [| |done].
  - by etrans.
  - by etrans.
Qed.

End respects_rules.

(** ** The tree walk *)

Lemma generateInitialDOMHelper_unfold (curNode : Node)
    (parentNodeID prevNodeID : string) :
  generateInitialDOMHelper curNode parentNodeID prevNodeID =
  (let* backendNodeID := lift (getNodeIDStr curNode BackendNodeID) in
   let* nodeID := lift (getNodeIDStr curNode NodeID) in
   visit curNode backendNodeID parentNodeID prevNodeID ;;
   match curNode !! Children with
   | None | Some JNull => mret tt
   | Some (JArr children) =>
       let* _ := walk_children (map walk_value children) backendNodeID "" in
       mret tt
   | Some _ => lift (Panic InterfaceConversion)
   end ;;
   on_dom (mmodify (set_nodeIDMapping (<[nodeID := backendNodeID]>))) ;;
   mret backendNodeID)%go.
Proof.
  unfold generateInitialDOMHelper. simpl. unfold helper_body.
  rewrite lookup_fmap.
  by destruct (curNode !! Children) as [[]|].
Qed.

Lemma walk_value_object (curNode : Node) :
  walk_value (JObj curNode) = generateInitialDOMHelper curNode.
Proof. reflexivity. Qed.

Lemma walk_value_not_object (c : jvalue) (parentNodeID prevNodeID : string)
    (w : walk_state) :
  (forall m, c ≠ JObj m) ->
  walk_value c parentNodeID prevNodeID w = Crash InterfaceConversion.
Proof. intros Hc. destruct c; try done. by destruct (Hc m). Qed.

Section walk_respects.
Context (R : relation walk_state) `{!Reflexive R} `{!Transitive R}.
Hypothesis visit_respects :
  forall curNode backendNodeID parentNodeID prevNodeID,
    respects R (visit curNode backendNodeID parentNodeID prevNodeID).
Hypothesis record_respects :
  forall nodeID backendNodeID,
    respects R (on_dom (mmodify (set_nodeIDMapping (<[nodeID := backendNodeID]>)))).

Lemma walk_children_respects (walks : list walker) :
  Forall (fun w : walker => forall p q, respects R (w p q)) walks ->
  forall p q, respects R (walk_children walks p q).
Proof.
  induction 1 as [|w walks Hw _ IH]; intros p q; simpl.
  - by apply respects_mret.
  - apply respects_mbind; [done..|]. intros a. apply IH.
Qed.

Lemma walk_value_respects (c : jvalue) (parentNodeID prevNodeID : string) :
  respects R (walk_value c parentNodeID prevNodeID).
Proof.
  revert parentNodeID prevNodeID.
  induction c as [c IH] using jvalue_tree_ind. intros p q.
  destruct c as [| | | | |curNode]; try (intros ?; exact I).
  rewrite walk_value_object, generateInitialDOMHelper_unfold.
  apply respects_mbind; [done..|apply respects_lift; done|]. intros b.
  apply respects_mbind; [done..|apply respects_lift; done|]. intros n.
  apply respects_mbind; [done..|apply visit_respects|]. intros _.
  apply respects_mbind; [done..| |].
  - destruct (curNode !! Children) as [[| | | |children|]|] eqn:Hc;
      try (by apply respects_mret); try (by apply respects_lift).
    apply respects_mbind; [done..| |intros; by apply respects_mret].
    apply walk_children_respects. apply Forall_fmap, Forall_forall.
    intros c Hin p' q'. by eapply IH.
  - intros _. apply respects_mbind; [done..|apply record_respects|].
    intros _. by apply respects_mret.
Qed.

Lemma generateInitialDOMHelper_respects (curNode : Node)
    (parentNodeID prevNodeID : string) :
  respects R (generateInitialDOMHelper curNode parentNodeID prevNodeID).
Proof. apply (walk_value_respects (JObj curNode)). Qed.

End walk_respects.

(** ** [ProcessNodeInsertion] *)

Lemma getNodeIDStr_cases (node : Node) (field : string) :
  (bad_id_field node field /\ exists e, getNodeIDStr node field = Err e) \/
  (exists f, node !! field = Some (JNum f) /\ float64_is_zero f = true /\
             getNodeIDStr node field = Ok "") \/
  (exists f, node !! field = Some (JNum f) /\ float64_is_zero f = false /\
             getNodeIDStr node field = Ok (Itoa (int_of_float64 f))).
Proof.
  unfold getNodeIDStr, bad_id_field.
  destruct (node !! field) as [v|] eqn:Hl; [|left; eauto].
  destruct v as [| | f | | |];
    try (left; split; [right; eexists; by split|by eexists]).
  right. destruct (float64_is_zero f) eqn:Hz; [left|right]; eauto.
Qed.

Lemma bad_id_field_not_number (node : Node) (field : string) (f : float64) :
  node !! field = Some (JNum f) -> ~ bad_id_field node field.
Proof.
  intros Hl [Hn|(v & Hv & Hnn)]; [congruence|].
  rewrite Hl in Hv. by simplify_eq.
Qed.

Lemma unknown_id_zero (d : DOM) (node : Node) (field : string) (f : float64) :
  node !! field = Some (JNum f) -> float64_is_zero f = true ->
  ~ unknown_id d node field.
Proof. intros Hl Hz (f' & Hl' & Hz' & _). congruence. Qed.

Lemma unknown_id_nonzero (d : DOM) (node : Node) (field : string) (f : float64) :
  node !! field = Some (JNum f) -> float64_is_zero f = false ->
  unknown_id d node field <->
  nodeIDMapping d !! Itoa (int_of_float64 f) = None.
Proof.
  intros Hl Hz. split.
  - intros (f' & Hl' & _ & Hm). congruence.
  - intros Hm. by exists f.
Qed.

Lemma unknown_id_bad (d : DOM) (node : Node) (field : string) :
  bad_id_field node field -> ~ unknown_id d node field.
Proof.
  intros Hb (f & Hl & _). by eapply bad_id_field_not_number.
Qed.

Lemma createNodeInsertUpdate_cases (nodeID parentNodeID prevNodeID : string)
    (node : Node) (d : DOM) :
  match createNodeInsertUpdate nodeID parentNodeID prevNodeID node d with
  | Ret d' u =>
      exists elementType attributes text,
        node !! NodeName = Some (JStr elementType) /\
        node !! NodeValue = Some (JStr text) /\
        (if is_script elementType then attributes = ∅
         else getAttributes node = Ok attributes) /\
        u = domjson.mkDOMUpdate domjson.Insert
              (domjson.mkNode nodeID parentNodeID prevNodeID
                 elementType attributes text) /\
        d' = set_nodeTypeMapping (<[nodeID := elementType]>) d
  | Fail _ _ => False
  | Crash _ => ~ insertable node
  end.
Proof.
  unfold createNodeInsertUpdate, mbind, lift, mret, mmodify, assert_string, insertable.
  destruct (node !! NodeName) as [[| | | elementType | |]|] eqn:Hname; simpl;
    try (intros (? & ? & ? & _); congruence).
  destruct (is_script elementType) eqn:Hs; simpl.
  - destruct (node !! NodeValue) as [[| | | text | |]|] eqn:Hval; simpl;
      try (intros (? & ? & _ & ? & _); congruence).
    exists elementType, ∅, text. by rewrite Hs.
  - destruct (getAttributes node) as [attributes|e|p] eqn:Hattr; simpl.
    + destruct (node !! NodeValue) as [[| | | text | |]|] eqn:Hval; simpl;
        try (intros (? & ? & _ & ? & _); congruence).
      exists elementType, attributes, text. by rewrite Hs.
    + by apply getAttributes_not_err in Hattr.
    + intros (? & ? & ? & _ & Ha). simplify_eq.
      destruct (Ha Hs) as [? ?]. congruence.
Qed.

Lemma createNodeInsertUpdate_insertable (nodeID parentNodeID prevNodeID : string)
    (node : Node) (d : DOM) :
  insertable node ->
  exists d' u, createNodeInsertUpdate nodeID parentNodeID prevNodeID node d = Ret d' u.
Proof.
  intros Hi.
  pose proof (createNodeInsertUpdate_cases nodeID parentNodeID prevNodeID node d) as H.
  destruct (createNodeInsertUpdate _ _ _ _ _) as [d' u|?|?]; [eauto|done..].
Qed.

Lemma translate_if_present_cases (d : DOM) (node : Node) (field : string)
    (err : error) :
  match getNodeIDStr node field with
  | Err e => bad_id_field node field
  | Panic _ => False
  | Ok id =>
      ~ bad_id_field node field /\
      match translate_if_present id err d with
      | Ret d' _ => d' = d /\ ~ unknown_id d node field
      | Fail d' e => d' = d /\ e = err /\ unknown_id d node field
      | Crash _ => False
      end
  end.
Proof.
  destruct (getNodeIDStr_cases node field)
    as [[Hb [e He]]|[(f & Hl & Hz & He)|(f & Hl & Hz & He)]]; rewrite He.
  - done.
  - split; [by eapply bad_id_field_not_number|].
    unfold translate_if_present. rewrite decide_True by done.
    split; [done|by eapply unknown_id_zero].
  - split; [by eapply bad_id_field_not_number|].
    unfold translate_if_present.
    rewrite decide_False by apply Itoa_nonempty.
    destruct (nodeIDMapping d !! Itoa (int_of_float64 f)) as [b|] eqn:Hm.
    + split; [done|]. rewrite (unknown_id_nonzero _ _ _ _ Hl Hz). congruence.
    + split; [done|]. split; [done|]. by rewrite (unknown_id_nonzero _ _ _ _ Hl Hz).
Qed.

Lemma ProcessNodeInsertion_outcome (d : DOM) (node nodeDetails : Node) :
  node !! NodeField = Some (JObj nodeDetails) ->
  match ProcessNodeInsertion node d with
  | Fail d' e => d' = d /\ insertion_rejected d node nodeDetails
  | Ret d' u =>
      ~ insertion_rejected d node nodeDetails /\ insertable nodeDetails /\
      exists nodeID backendNodeID,
        domjson.action u = domjson.Insert /\
        getNodeIDStr nodeDetails NodeID = Ok nodeID /\
        getNodeIDStr nodeDetails BackendNodeID = Ok backendNodeID /\
        domjson.NodeID (domjson.node u) = backendNodeID /\
        nodeIDMapping d' = <[nodeID := backendNodeID]> (nodeIDMapping d)
  | Crash p =>
      ~ insertion_rejected d node nodeDetails /\ ~ insertable nodeDetails
  end.
Proof.
  intros Hnode. unfold ProcessNodeInsertion, insertion_rejected.
  pose proof (translate_if_present_cases d node ParentNodeID ErrParentMissing) as Hp.
  pose proof (translate_if_present_cases d node PreviousNodeID ErrPreviousMissing) as Hq.
  pose proof (translate_if_present_cases d nodeDetails NodeID ErrParentMissing) as Hn.
  pose proof (translate_if_present_cases d nodeDetails BackendNodeID ErrParentMissing) as Hb.
  unfold mbind, lift. rewrite Hnode. simpl.
  destruct (getNodeIDStr node ParentNodeID) as [pid|e|p]; [|tauto|done].
  destruct Hp as [Hpb Hp].
  destruct (translate_if_present pid ErrParentMissing d) as [d1 pid'|d1 e|p];
    [|tauto|done].
  destruct Hp as [-> Hpu].
  destruct (getNodeIDStr node PreviousNodeID) as [qid|e|p]; [|tauto|done].
  destruct Hq as [Hqb Hq].
  destruct (translate_if_present qid ErrPreviousMissing d) as [d1 qid'|d1 e|p];
    [|tauto|done].
  destruct Hq as [-> Hqu].
  destruct (getNodeIDStr nodeDetails NodeID) as [nodeID|e|p]; [|tauto|done].
  destruct Hn as [Hnb _].
  destruct (getNodeIDStr nodeDetails BackendNodeID) as [backendNodeID|e|p];
    [|tauto|done].
  destruct Hb as [Hbb _].
  pose proof (createNodeInsertUpdate_cases backendNodeID pid' qid' nodeDetails d) as Hc.
  destruct (createNodeInsertUpdate backendNodeID pid' qid' nodeDetails d)
    as [d2 u|d2 e|p]; simpl; [|done|tauto].
  destruct Hc as (elementType & attributes & text & Hname & Hval & Hattr & -> & ->).
  split; [tauto|]. split.
  - exists elementType, text. split; [done|]. split; [done|].
    intros Hs. rewrite Hs in Hattr. eauto.
  - by exists nodeID, backendNodeID.
Qed.

(** C6, amended: for every payload whose [node] field is an object,
    [ProcessNodeInsertion] returns an error if and only if a required ID
    field is missing or non-numeric, or [parentNodeId] is non-zero and absent
    from the protocol-to-stable mapping, or [previousNodeId] is non-zero and
    absent from it, and on error the model is left unchanged; otherwise,
    when the nested node has a string name, a string value and (unless it is
    a script) attributes that can be paired, it returns exactly one insert
    update and records the inserted node's protocol-to-stable mapping, and
    when it has not the call panics. *)
Theorem ProcessNodeInsertion_spec (d : DOM) (node nodeDetails : Node) :
  node !! NodeField = Some (JObj nodeDetails) ->
  ((exists d' e, ProcessNodeInsertion node d = Fail d' e) <->
   insertion_rejected d node nodeDetails) /\
  (forall d' e, ProcessNodeInsertion node d = Fail d' e -> d' = d) /\
  (~ insertion_rejected d node nodeDetails -> insertable nodeDetails ->
   exists d' u nodeID backendNodeID,
     ProcessNodeInsertion node d = Ret d' u /\
     domjson.action u = domjson.Insert /\
     getNodeIDStr nodeDetails NodeID = Ok nodeID /\
     getNodeIDStr nodeDetails BackendNodeID = Ok backendNodeID /\
     domjson.NodeID (domjson.node u) = backendNodeID /\
     nodeIDMapping d' = <[nodeID := backendNodeID]> (nodeIDMapping d)) /\
  (~ insertion_rejected d node nodeDetails -> ~ insertable nodeDetails ->
   exists p, ProcessNodeInsertion node d = Crash p).
Proof.
  intros Hnode.
  pose proof (ProcessNodeInsertion_outcome d node nodeDetails Hnode) as H.
  destruct (ProcessNodeInsertion node d) as [d' u|d' e|p].
  - destruct H as (Hr & Hi & nodeID & backendNodeID & H).
    split; [|split; [|split]].
    + split; [intros (? & ? & [=])|done].
    + intros ?? [=].
    + intros _ _. by exists d', u, nodeID, backendNodeID.
    + done.
  - destruct H as [-> Hr]. split; [|split; [|split]].
    + split; [done|eauto].
    + by intros ?? [= -> _].
    + done.
    + done.
  - destruct H as [Hr Hi]. split; [|split; [|split]].
    + split; [intros (? & ? & [=])|done].
    + intros ?? [=].
    + done.
    + eauto.
Qed.

(** Without an object in its [node] field the payload makes
    [ProcessNodeInsertion] panic, whatever else it holds. *)
Lemma ProcessNodeInsertion_without_node (node : Node) (d : DOM) :
  (forall nodeDetails, node !! NodeField ≠ Some (JObj nodeDetails)) ->
  ProcessNodeInsertion node d = Crash InterfaceConversion.
Proof.
  intros Hn. unfold ProcessNodeInsertion, mbind, lift, assert_object.
  destruct (node !! NodeField) as [[| | | | |m]|]; try done. by destruct (Hn m).
Qed.

Lemma ProcessNodeInsertion_returns_not_rejected (d d' : DOM)
    (node nodeDetails : Node) (u : domjson.DOMUpdate) :
  node !! NodeField = Some (JObj nodeDetails) ->
  ProcessNodeInsertion node d = Ret d' u ->
  ~ insertion_rejected d node nodeDetails /\ insertable nodeDetails.
Proof.
  intros Hnode Hret.
  pose proof (ProcessNodeInsertion_outcome d node nodeDetails Hnode) as H.
  rewrite Hret in H. tauto.
Qed.

Lemma ProcessNodeInsertion_crash_not_rejected (d : DOM)
    (node nodeDetails : Node) (p : panic) :
  node !! NodeField = Some (JObj nodeDetails) ->
  ProcessNodeInsertion node d = Crash p ->
  ~ insertion_rejected d node nodeDetails /\ ~ insertable nodeDetails.
Proof.
  intros Hnode Hret.
  pose proof (ProcessNodeInsertion_outcome d node nodeDetails Hnode) as H.
  by rewrite Hret in H.
Qed.

(** C6, as stated, fails on two payloads.  The empty payload lacks the
    required [parentNodeId], yet no error is returned: the assertion on the
    [node] field panics first.  The second payload meets none of the error
    conditions, yet no insert is returned: pairing its one-element attribute
    list panics. *)
Lemma ProcessNodeInsertion_panics_counterexample :
  (bad_id_field ∅ ParentNodeID /\
   ProcessNodeInsertion ∅ NewDOMModel = Crash InterfaceConversion) /\
  (~ insertion_rejected NewDOMModel (inputs.inserted 0 0 inputs.odd_div) inputs.odd_div /\
   ProcessNodeInsertion (inputs.inserted 0 0 inputs.odd_div) NewDOMModel
     = Crash IndexOutOfRange).
Proof.
  split; [split|].
  - by left.
  - reflexivity.
  - assert (ProcessNodeInsertion (inputs.inserted 0 0 inputs.odd_div) NewDOMModel
            = Crash IndexOutOfRange) as H by (vm_compute; reflexivity).
    split; [|done].
    by eapply ProcessNodeInsertion_crash_not_rejected.
Qed.

Lemma ProcessNodeInsertion_spec_witness :
  exists d' u nodeID backendNodeID,
    ProcessNodeInsertion (inputs.inserted 0 0 inputs.first_node) NewDOMModel = Ret d' u /\
    domjson.action u = domjson.Insert /\
    getNodeIDStr inputs.first_node NodeID = Ok nodeID /\
    getNodeIDStr inputs.first_node BackendNodeID = Ok backendNodeID /\
    domjson.NodeID (domjson.node u) = backendNodeID /\
    nodeIDMapping d' = <[nodeID := backendNodeID]> (nodeIDMapping NewDOMModel).
Proof.
  assert (inputs.inserted 0 0 inputs.first_node !! NodeField
          = Some (JObj inputs.first_node)) as Hnode by reflexivity.
  assert (exists d' u,
            ProcessNodeInsertion (inputs.inserted 0 0 inputs.first_node) NewDOMModel
            = Ret d' u) as (d' & u & Hret) by (vm_compute; eauto).
  destruct (ProcessNodeInsertion_returns_not_rejected _ _ _ _ _ Hnode Hret)
    as [Hnr Hi].
  exact (proj1 (proj2 (proj2 (ProcessNodeInsertion_spec _ _ _ Hnode))) Hnr Hi).
Defined.

(** ** What every emitted update satisfies *)

Global Instance appends_reflexive (P : domjson.DOMUpdate -> Prop) :
  Reflexive (appends P).
Proof. intros w. exists []. by rewrite app_nil_r. Qed.

Global Instance appends_transitive (P : domjson.DOMUpdate -> Prop) :
  Transitive (appends P).
Proof.
  intros w1 w2 w3 (n1 & H1 & HP1) (n2 & H2 & HP2). exists (n1 ++ n2).
  split; [by rewrite H2, H1, app_assoc|by apply Forall_app].
Qed.

Lemma appends_same_slice (P : domjson.DOMUpdate -> Prop) (d d' : DOM)
    (res : list domjson.DOMUpdate) :
  appends P (d, res) (d', res).
Proof. exists []. simpl. by rewrite app_nil_r. Qed.

Section emitted_all.
Context (P : domjson.DOMUpdate -> Prop).
Hypothesis P_insert :
  forall nodeID parentNodeID prevNodeID node d d' u,
    createNodeInsertUpdate nodeID parentNodeID prevNodeID node d = Ret d' u -> P u.
Hypothesis P_remove :
  forall nodeID parentNodeID, P (createNodeRemovalUpdate nodeID parentNodeID).
Hypothesis P_modify :
  forall nodeID name value, P (createNodeAttributeUpdate nodeID name value).

Lemma visit_appends (curNode : Node) (backendNodeID parentNodeID prevNodeID : string) :
  respects (appends P) (visit curNode backendNodeID parentNodeID prevNodeID).
Proof.
  intros [d res]. unfold visit, mbind, mget, mret, on_dom, mmodify, append_result.
  simpl. destruct (decide (backendNodeID ∈ backendNodeIDs d));
    [apply appends_same_slice|].
  simpl. destruct (is_script _); [apply appends_same_slice|].
  destruct (createNodeInsertUpdate _ _ _ _ _) as [d' u|d' e|p] eqn:Hc; simpl.
  - exists [u]. split; [done|]. apply Forall_singleton. by eapply P_insert.
  - apply appends_same_slice.
  - exact I.
Qed.

Lemma record_appends (nodeID backendNodeID : string) :
  respects (appends P)
    (on_dom (mmodify (set_nodeIDMapping (<[nodeID := backendNodeID]>)))).
Proof. intros [d res]. simpl. apply appends_same_slice. Qed.

Lemma generateInitialDOMHelper_appends (curNode : Node)
    (parentNodeID prevNodeID : string) :
  respects (appends P) (generateInitialDOMHelper curNode parentNodeID prevNodeID).
Proof.
  apply generateInitialDOMHelper_respects; try apply _.
  - apply visit_appends.
  - apply record_appends.
Qed.

Lemma GenerateInitialDOM_all (rootNode : Node) (d : DOM) :
  match GenerateInitialDOM rootNode d with
  | Ret _ updates => Forall P updates
  | _ => True
  end.
Proof.
  unfold GenerateInitialDOM.
  pose proof (generateInitialDOMHelper_appends rootNode "" "" (d, [])) as H.
  destruct (generateInitialDOMHelper rootNode "" "" (d, []))
    as [[d' res] b|[d' res] e|p]; [|done..].
  destruct H as (new & Hres & HP). simpl in Hres. by subst.
Qed.

Lemma setChildNodes_loop_all (nodes : list jvalue)
    (parentBackendID prevNodeID : string) (result : list domjson.DOMUpdate)
    (d : DOM) :
  Forall P result ->
  match setChildNodes_loop nodes parentBackendID prevNodeID result d with
  | Ret _ updates => Forall P updates
  | _ => True
  end.
Proof.
  revert prevNodeID result d.
  induction nodes as [|c nodes IH]; intros q result d Hres; simpl; [done|].
  unfold mbind, lift. destruct c as [| | | | |curNode]; simpl; try done.
  pose proof (generateInitialDOMHelper_appends curNode parentBackendID q (d, [])) as H.
  destruct (generateInitialDOMHelper curNode parentBackendID q (d, []))
    as [[d' sub] b|[d' sub] e|p]; [| |done];
    destruct H as (new & Hsub & HP); simpl in Hsub; subst sub;
    apply IH; by apply Forall_app.
Qed.

Lemma process_all (ev : event) (d : DOM) :
  match process ev d with
  | Ret _ updates => Forall P updates
  | _ => True
  end.
Proof.
  destruct ev as [rootNode|params|params|params|params]; simpl.
  - apply GenerateInitialDOM_all.
  - unfold ProcessSetChildNodes, mbind, lift, getBackendNodeID.
    destruct (getNodeIDStr params ParentID) as [pid| |]; [|done..].
    destruct (nodeIDMapping d !! pid) as [pb|]; [|done].
    destruct (assert_slice (params !! Nodes)) as [nodes| |]; [|done..].
    by apply setChildNodes_loop_all.
  - unfold single, mbind, mret.
    unfold ProcessNodeInsertion, mbind, lift.
    destruct (assert_object (params !! NodeField)) as [nodeDetails| |]; [|done..].
    destruct (getNodeIDStr params ParentNodeID) as [pid| |]; [|done..].
    destruct (translate_if_present pid ErrParentMissing d) as [d1 pid'| |]; [|done..].
    destruct (getNodeIDStr params PreviousNodeID) as [qid| |]; [|done..].
    destruct (translate_if_present qid ErrPreviousMissing d1) as [d2 qid'| |]; [|done..].
    destruct (getNodeIDStr nodeDetails NodeID) as [nodeID| |]; [|done..].
    destruct (getNodeIDStr nodeDetails BackendNodeID) as [backendNodeID| |]; [|done..].
    destruct (createNodeInsertUpdate backendNodeID pid' qid' nodeDetails d2)
      as [d3 u| |] eqn:Hc; [|done..].
    simpl. apply Forall_singleton. by eapply P_insert.
  - unfold single, ProcessNodeRemoval, mbind, lift, mret, getBackendNodeID, mmodify.
    destruct (getNodeIDStr params ParentNodeID) as [pid| |]; [|done..].
    destruct (nodeIDMapping d !! pid) as [pb|]; [|done].
    destruct (getNodeIDStr params NodeID) as [nid| |]; [|done..].
    destruct (nodeIDMapping d !! nid) as [nb|]; [|done].
    apply Forall_singleton, P_remove.
  - unfold single, ProcessNodeAttributeModification, mbind, lift, mret,
      getBackendNodeID.
    destruct (getNodeIDStr params NodeID) as [nid| |]; [|done..].
    destruct (nodeIDMapping d !! nid) as [nb|]; [|done].
    destruct (assert_string (params !! Name)) as [name| |]; [|done..].
    destruct (assert_string (params !! Value)) as [value| |]; [|done..].
    apply Forall_singleton, P_modify.
Qed.

Lemma emitted_all (evs : list event) (d : DOM) : Forall P (emitted evs d).
Proof.
  revert d. induction evs as [|ev evs IH]; intros d; simpl; [done|].
  pose proof (process_all ev d) as H.
  destruct (process ev d) as [d' updates|d' e|p]; [|done..].
  by apply Forall_app.
Qed.

End emitted_all.

(** ** Scenario S4 *)

(** C7: on a fresh model, [GenerateInitialDOM] of the tree whose root [a]
    has stable ID 1 and whose two leaf children [b] and [c] have stable IDs 2
    and 3 returns exactly three inserts, in depth-first order [a], [b], [c],
    and the previous sibling of [c] is the stable ID of [b]. *)
Theorem GenerateInitialDOM_S4 (id_a id_b id_c : float64)
    (text_a text_b text_c : string) :
  exists d' a b c,
    GenerateInitialDOM (inputs.tree_S4 id_a id_b id_c text_a text_b text_c)
      NewDOMModel = Ret d' [a; b; c] /\
    a = insert_update "1" "" "" "a" ∅ text_a /\
    b = insert_update "2" "1" "" "b" ∅ text_b /\
    c = insert_update "3" "1" "2" "c" ∅ text_c /\
    domjson.PreviousNodeID (domjson.node c) = domjson.NodeID (domjson.node b).
Proof.
  assert (match GenerateInitialDOM
                  (inputs.tree_S4 id_a id_b id_c text_a text_b text_c)
                  NewDOMModel with
          | Ret _ updates =>
              updates = [insert_update "1" "" "" "a" ∅ text_a;
                         insert_update "2" "1" "" "b" ∅ text_b;
                         insert_update "3" "1" "2" "c" ∅ text_c]
          | _ => False
          end) as H.
  { destruct id_a, id_b, id_c; vm_compute; reflexivity. }
  destruct (GenerateInitialDOM _ _) as [d' updates| |]; [|done..].
  subst updates. by eexists d', _, _, _.
Qed.

(** The tree of [TestGenerateInitialDOM] gives the updates the test expects. *)
Lemma GenerateInitialDOM_test :
  exists d',
    GenerateInitialDOM inputs.tree_of_test NewDOMModel
    = Ret d' [insert_update "1" "" "" "a" {[ "foo00" := "bar00" ]} "a";
              insert_update "2" "1" "" "b" {[ "foo10" := "bar10" ]} "b";
              insert_update "3" "1" "2" "c" {[ "foo20" := "bar20" ]} "c"].
Proof. eexists. vm_compute. reflexivity. Qed.

(** ** Attributes of emitted inserts *)

Lemma createNodeInsertUpdate_script_no_attributes
    (nodeID parentNodeID prevNodeID : string) (node : Node) (d d' : DOM)
    (u : domjson.DOMUpdate) :
  createNodeInsertUpdate nodeID parentNodeID prevNodeID node d = Ret d' u ->
  script_has_no_attributes u.
Proof.
  intros Hc.
  pose proof (createNodeInsertUpdate_cases nodeID parentNodeID prevNodeID node d) as H.
  rewrite Hc in H.
  destruct H as (elementType & attributes & text & _ & _ & Hattr & -> & _).
  unfold script_has_no_attributes. simpl. intros Hs. by rewrite Hs in Hattr.
Qed.

Lemma createNodeInsertUpdate_keeps_attributes
    (nodeID parentNodeID prevNodeID : string) (node : Node) (d d' : DOM)
    (u : domjson.DOMUpdate) :
  createNodeInsertUpdate nodeID parentNodeID prevNodeID node d = Ret d' u ->
  is_script (domjson.ElementType (domjson.node u)) = false ->
  getAttributes node = Ok (domjson.Attributes (domjson.node u)).
Proof.
  intros Hc.
  pose proof (createNodeInsertUpdate_cases nodeID parentNodeID prevNodeID node d) as H.
  rewrite Hc in H.
  destruct H as (elementType & attributes & text & _ & _ & Hattr & -> & _).
  simpl. intros Hs. by rewrite Hs in Hattr.
Qed.

(** C1, as stated, fails: the insert emitted for a [div] with a click
    handler carries the key [onclick], be the node announced by
    [DOM.childNodeInserted] or found by the tree walk. *)
Lemma insert_carries_event_handler_counterexample :
  let u := insert_update "2" "" "" "div" {[ "onclick" := "steal()" ]} "" in
  u ∈ emitted [ChildNodeInserted (inputs.inserted 0 0 inputs.clickable_div)]
        NewDOMModel /\
  u ∈ emitted [DocumentUpdated inputs.clickable_div] NewDOMModel /\
  domjson.action u = domjson.Insert /\
  domjson.Attributes (domjson.node u) !! "onclick" = Some "steal()" /\
  event_handler_key "onclick" = true.
Proof.
  intros u.
  assert (emitted [ChildNodeInserted (inputs.inserted 0 0 inputs.clickable_div)]
            NewDOMModel = [u]) as -> by (vm_compute; reflexivity).
  assert (emitted [DocumentUpdated inputs.clickable_div] NewDOMModel = [u])
    as -> by (vm_compute; reflexivity).
  split; [by apply list_elem_of_singleton|].
  split; [by apply list_elem_of_singleton|].
  split; [reflexivity|]. split; reflexivity.
Qed.

(** C1, amended: for every sequence of protocol events processed by the DOM
    model, an emitted update whose element type is script (in any letter
    case), in particular an insert, carries an empty attributes map; the
    insert built for any other element carries the pairs of the node's
    attribute list as they are, keys that begin with "on" included. *)
Theorem emitted_script_inserts_have_no_attributes :
  (forall evs d u,
     u ∈ emitted evs d ->
     is_script (domjson.ElementType (domjson.node u)) = true ->
     domjson.Attributes (domjson.node u) = ∅) /\
  (forall nodeID parentNodeID prevNodeID node d d' u,
     createNodeInsertUpdate nodeID parentNodeID prevNodeID node d = Ret d' u ->
     is_script (domjson.ElementType (domjson.node u)) = false ->
     getAttributes node = Ok (domjson.Attributes (domjson.node u))).
Proof.
  split.
  - intros evs d u Hin.
    assert (Forall script_has_no_attributes (emitted evs d)) as Hall.
    { apply emitted_all.
      - apply createNodeInsertUpdate_script_no_attributes.
      - intros ?? Hs. discriminate Hs.
      - intros ??? Hs. discriminate Hs. }
    rewrite Forall_forall in Hall. by apply Hall.
  - apply createNodeInsertUpdate_keeps_attributes.
Qed.

Lemma emitted_script_inserts_have_no_attributes_witness :
  let u := insert_update "1" "" "" "script" ∅ "" in
  emitted [DocumentUpdated inputs.script_with_handler] NewDOMModel = [u] /\
  domjson.Attributes (domjson.node u) = ∅.
Proof.
  intros u.
  assert (emitted [DocumentUpdated inputs.script_with_handler] NewDOMModel = [u])
    as Hev by (vm_compute; reflexivity).
  split; [done|].
  apply (proj1 emitted_script_inserts_have_no_attributes
           [DocumentUpdated inputs.script_with_handler] NewDOMModel u).
  - rewrite Hev. by apply list_elem_of_singleton.
  - reflexivity.
Defined.

(** A script whose name is spelled with the dotted capital I is a script
    for the model as it is for [strings.ToLower]: its insert carries no
    attribute, and an attribute list of odd length, which is never paired,
    does not make the call panic. *)
Lemma dotted_script_has_no_attributes :
  emitted [ChildNodeInserted (inputs.inserted 0 0 dotted_script_with_handler)]
    NewDOMModel
  = [insert_update "1" "" "" dotted_SCRIPT ∅ ""] /\
  emitted [DocumentUpdated dotted_script_with_handler] NewDOMModel
  = [insert_update "1" "" "" dotted_SCRIPT ∅ ""] /\
  emitted [ChildNodeInserted (inputs.inserted 0 0 dotted_script_odd)]
    NewDOMModel
  = [insert_update "1" "" "" dotted_SCRIPT ∅ ""].
Proof. by vm_compute. Qed.

(** ** Script subtrees *)

(** Under a parent whose recorded kind is script, [visit] emits nothing. *)
Lemma visit_under_script (curNode : Node)
    (backendNodeID parentNodeID prevNodeID : string) (d : DOM)
    (res : list domjson.DOMUpdate) :
  is_script (kind_of d parentNodeID) = true ->
  exists d',
    visit curNode backendNodeID parentNodeID prevNodeID (d, res) = Ret (d', res) tt /\
    nodeTypeMapping d' = nodeTypeMapping d /\
    nodeIDMapping d' = nodeIDMapping d.
Proof.
  intros Hs. unfold visit, mbind, mget, mret, on_dom, mmodify. simpl.
  destruct (decide (backendNodeID ∈ backendNodeIDs d)); [by eexists|].
  simpl. unfold kind_of in *. simpl. rewrite Hs. by eexists.
Qed.

(** A childless node under a parent whose recorded kind is script leaves the
    slice as it was: the walk marks the node and records its mapping, and
    emits nothing. *)
Lemma generateInitialDOMHelper_leaf_under_script (curNode : Node)
    (parentNodeID prevNodeID backendNodeID nodeID : string) (d : DOM)
    (res : list domjson.DOMUpdate) :
  getNodeIDStr curNode BackendNodeID = Ok backendNodeID ->
  getNodeIDStr curNode NodeID = Ok nodeID ->
  curNode !! Children = None \/ curNode !! Children = Some (JArr []) ->
  is_script (kind_of d parentNodeID) = true ->
  exists d',
    generateInitialDOMHelper curNode parentNodeID prevNodeID (d, res)
    = Ret (d', res) backendNodeID /\
    nodeTypeMapping d' = nodeTypeMapping d /\
    nodeIDMapping d' = <[nodeID := backendNodeID]> (nodeIDMapping d).
Proof.
  intros Hb Hn Hc Hs. rewrite generateInitialDOMHelper_unfold.
  unfold mbind at 1. rewrite Hb. simpl.
  unfold mbind at 1. rewrite Hn. simpl.
  destruct (visit_under_script curNode backendNodeID parentNodeID prevNodeID
              d res Hs) as (d1 & Hv & Hk & Hm).
  unfold mbind at 1. rewrite Hv.
  destruct Hc as [Hc|Hc]; rewrite Hc; simpl;
    (eexists; split; [reflexivity|]; simpl; by rewrite Hk, Hm).
Qed.

(** C2 fails on the code.  A text node announced by [DOM.childNodeInserted]
    under a script element is emitted: [ProcessNodeInsertion] does not look
    at the kind of the parent, which the tree walk does.  And the walk
    itself emits the text under a [span] under a script: the [span] is
    suppressed, so no kind is recorded for it, and its child passes. *)
Lemma script_descendants_are_emitted :
  emitted [DocumentUpdated inputs.empty_script;
           ChildNodeInserted (inputs.inserted 1 0 inputs.script_text)]
    NewDOMModel
  = [insert_update "1" "" "" "script" ∅ "";
     insert_update "2" "1" "" "#text" ∅ "alert(1)"] /\
  (exists d1,
     model_after [DocumentUpdated inputs.empty_script] NewDOMModel = Some d1 /\
     is_script (kind_of d1 "1") = true) /\
  emitted [DocumentUpdated inputs.script_span_text] NewDOMModel
  = [insert_update "1" "" "" "SCRIPT" ∅ "";
     insert_update "3" "2" "" "#text" ∅ "alert(1)"].
Proof.
  split; [vm_compute; reflexivity|]. split.
  - eexists. split; [vm_compute; reflexivity|]. vm_compute. reflexivity.
  - vm_compute. reflexivity.
Qed.

(** ** One insert per stable ID *)

Lemma inserted_ids_app (l1 l2 : list domjson.DOMUpdate) :
  inserted_ids (l1 ++ l2) = inserted_ids l1 ++ inserted_ids l2.
Proof. apply omap_app. Qed.

Global Instance fresh_inserts_reflexive : Reflexive fresh_inserts.
Proof.
  intros w. split; [done|]. exists []. rewrite app_nil_r.
  split; [done|]. split; [constructor|]. intros id Hin. by apply elem_of_nil in Hin.
Qed.

Global Instance fresh_inserts_transitive : Transitive fresh_inserts.
Proof.
  intros w1 w2 w3 (Hs1 & n1 & H1 & Hnd1 & Hf1) (Hs2 & n2 & H2 & Hnd2 & Hf2).
  split; [by trans (backendNodeIDs w2.1)|]. exists (n1 ++ n2).
  split; [by rewrite H2, H1, app_assoc|]. rewrite inserted_ids_app. split.
  - apply NoDup_app. split; [done|]. split; [|done].
    intros id Hin1 Hin2. destruct (Hf1 id Hin1) as [_ Hk].
    destruct (Hf2 id Hin2) as [Hnk _]. done.
  - intros id [Hin|Hin]%elem_of_app.
    + destruct (Hf1 id Hin) as [Hn Hk]. split; [done|]. by apply Hs2.
    + destruct (Hf2 id Hin) as [Hn Hk]. split; [|done].
      intros Hk1. apply Hn. by apply Hs1.
Qed.

Lemma fresh_inserts_same_slice (d d' : DOM) (res : list domjson.DOMUpdate) :
  backendNodeIDs d ⊆ backendNodeIDs d' ->
  fresh_inserts (d, res) (d', res).
Proof.
  intros Hs. split; [done|]. exists []. simpl. rewrite app_nil_r.
  split; [done|]. split; [constructor|]. intros id Hin. by apply elem_of_nil in Hin.
Qed.

Lemma visit_fresh_inserts (curNode : Node)
    (backendNodeID parentNodeID prevNodeID : string) :
  respects fresh_inserts (visit curNode backendNodeID parentNodeID prevNodeID).
Proof.
  intros [d res]. unfold visit, mbind, mget, mret, on_dom, mmodify, append_result.
  simpl. destruct (decide (backendNodeID ∈ backendNodeIDs d)) as [|Hnew];
    [reflexivity|].
  simpl. destruct (is_script _);
    [apply fresh_inserts_same_slice; simpl; set_solver|].
  pose proof (createNodeInsertUpdate_cases backendNodeID parentNodeID prevNodeID
                curNode (set_backendNodeIDs (union {[backendNodeID]}) d)) as Hc.
  destruct (createNodeInsertUpdate _ _ _ _ _) as [d' u|d' e|p]; simpl; [|done..].
  destruct Hc as (elementType & attributes & text & _ & _ & _ & -> & ->).
  split; simpl; [set_solver|]. eexists [_]. split; [done|].
  split; [apply NoDup_singleton|].
  intros id Hin. apply list_elem_of_singleton in Hin as ->. set_solver.
Qed.

Lemma record_fresh_inserts (nodeID backendNodeID : string) :
  respects fresh_inserts
    (on_dom (mmodify (set_nodeIDMapping (<[nodeID := backendNodeID]>)))).
Proof. intros [d res]. simpl. by apply fresh_inserts_same_slice. Qed.

Lemma generateInitialDOMHelper_fresh_inserts (curNode : Node)
    (parentNodeID prevNodeID : string) :
  respects fresh_inserts (generateInitialDOMHelper curNode parentNodeID prevNodeID).
Proof.
  apply generateInitialDOMHelper_respects; try apply _.
  - apply visit_fresh_inserts.
  - apply record_fresh_inserts.
Qed.

Lemma fresh_inserts_frame (d d' : DOM) (sub result : list domjson.DOMUpdate) :
  fresh_inserts (d, []) (d', sub) -> fresh_inserts (d, result) (d', result ++ sub).
Proof.
  intros (Hs & new & Hsub & Hnd & Hf). simpl in *. subst sub.
  split; [done|]. by exists new.
Qed.

Lemma GenerateInitialDOM_fresh_inserts (rootNode : Node) (d : DOM) :
  match GenerateInitialDOM rootNode d with
  | Ret d' updates => fresh_inserts (d, []) (d', updates)
  | Fail d' _ => backendNodeIDs d ⊆ backendNodeIDs d'
  | Crash _ => True
  end.
Proof.
  unfold GenerateInitialDOM.
  pose proof (generateInitialDOMHelper_fresh_inserts rootNode "" "" (d, [])) as H.
  destruct (generateInitialDOMHelper rootNode "" "" (d, []))
    as [[d' res] b|[d' res] e|p]; [done| |done].
  by destruct H as [Hs _].
Qed.

Lemma setChildNodes_loop_fresh_inserts (nodes : list jvalue)
    (parentBackendID prevNodeID : string) (result : list domjson.DOMUpdate)
    (d0 d : DOM) :
  fresh_inserts (d0, []) (d, result) ->
  match setChildNodes_loop nodes parentBackendID prevNodeID result d with
  | Ret d' updates => fresh_inserts (d0, []) (d', updates)
  | Fail d' _ => backendNodeIDs d0 ⊆ backendNodeIDs d'
  | Crash _ => True
  end.
Proof.
  revert prevNodeID result d.
  induction nodes as [|c nodes IH]; intros q result d Hres; simpl; [done|].
  unfold mbind, lift. destruct c as [| | | | |curNode]; simpl; try done.
  pose proof (generateInitialDOMHelper_fresh_inserts curNode parentBackendID q
                (d, [])) as H.
  destruct (generateInitialDOMHelper curNode parentBackendID q (d, []))
    as [[d' sub] b|[d' sub] e|p]; [| |done];
    apply IH; (etrans; [exact Hres|]); by apply fresh_inserts_frame.
Qed.

Lemma process_walk_fresh_inserts (ev : event) (d : DOM) :
  walk_event ev ->
  match process ev d with
  | Ret d' updates => fresh_inserts (d, []) (d', updates)
  | Fail d' _ => backendNodeIDs d ⊆ backendNodeIDs d'
  | Crash _ => True
  end.
Proof.
  destruct ev as [rootNode|params|params|params|params]; simpl; try done; intros _.
  - apply GenerateInitialDOM_fresh_inserts.
  - unfold ProcessSetChildNodes, mbind, lift, getBackendNodeID.
    destruct (getNodeIDStr params ParentID) as [pid| |]; [|done..].
    destruct (nodeIDMapping d !! pid) as [pb|]; [|done].
    destruct (assert_slice (params !! Nodes)) as [nodes| |]; [|done..].
    apply setChildNodes_loop_fresh_inserts. reflexivity.
Qed.

(** X1: streams that come from tree walks alone ([DOM.documentUpdated] and
    [DOM.setChildNodes]) never insert a stable ID twice, and never insert an
    ID the model already knew. *)
Theorem walks_insert_each_stable_id_once (evs : list event) (d : DOM) :
  Forall walk_event evs ->
  NoDup (inserted_ids (emitted evs d)) /\
  (forall id, id ∈ inserted_ids (emitted evs d) -> id ∉ backendNodeIDs d).
Proof.
  intros Hevs. revert d.
  induction Hevs as [|ev evs Hev _ IH]; intros d; simpl.
  - split; [constructor|]. intros id Hin. by apply elem_of_nil in Hin.
  - pose proof (process_walk_fresh_inserts ev d Hev) as H.
    destruct (process ev d) as [d' updates|d' e|p].
    + destruct H as (Hs & new & Hnew & Hnd & Hf). simpl in *. subst new.
      destruct (IH d') as [IHnd IHf]. rewrite inserted_ids_app. split.
      * apply NoDup_app. split; [done|]. split; [|done].
        intros id Hin1 Hin2. destruct (Hf id Hin1) as [_ Hk].
        by apply (IHf id Hin2).
      * intros id [Hin|Hin]%elem_of_app; [by apply Hf|].
        intros Hk. apply (IHf id Hin). by apply Hs.
    + destruct (IH d') as [IHnd IHf]. split; [done|].
      intros id Hin Hk. apply (IHf id Hin). by apply H.
    + split; [constructor|]. intros id Hin. by apply elem_of_nil in Hin.
Qed.

Lemma walks_insert_each_stable_id_once_witness :
  NoDup (inserted_ids
           (emitted [DocumentUpdated inputs.tree_of_test;
                     DocumentUpdated inputs.tree_of_test] NewDOMModel)).
Proof.
  apply (walks_insert_each_stable_id_once
           [DocumentUpdated inputs.tree_of_test;
            DocumentUpdated inputs.tree_of_test] NewDOMModel).
  repeat constructor.
Defined.

(** C3 fails on the code.  [ProcessNodeInsertion] neither consults nor
    extends [backendNodeIDs]: the same event twice gives two inserts for
    stable ID 4, and so does an insertion followed by a walk that meets the
    node. *)
Lemma stable_id_inserted_twice :
  inserted_ids
    (emitted [ChildNodeInserted (inputs.inserted 0 0 inputs.first_node);
              ChildNodeInserted (inputs.inserted 0 0 inputs.first_node)]
       NewDOMModel) = ["4"; "4"] /\
  inserted_ids
    (emitted [ChildNodeInserted (inputs.inserted 0 0 inputs.first_node);
              DocumentUpdated inputs.first_node]
       NewDOMModel) = ["4"; "4"] /\
  ~ NoDup ["4"; "4"].
Proof.
  split; [vm_compute; reflexivity|]. split; [vm_compute; reflexivity|].
  rewrite NoDup_cons. intros [Hn _]. apply Hn. by apply list_elem_of_singleton.
Qed.

(** ** [ProcessNodeRemoval] *)

(** What a removal does: it fails, leaving the model as it was, unless both
    IDs are numbers known to [nodeIDMapping]; then it emits the remove update
    for the two stable IDs, and deletes the key [nodeID], the protocol ID,
    from the three maps. *)
Lemma ProcessNodeRemoval_outcome (node : Node) (d : DOM) :
  match ProcessNodeRemoval node d with
  | Ret d' u =>
      exists parentNodeID parentBackendID nodeID backendNodeID,
        getNodeIDStr node ParentNodeID = Ok parentNodeID /\
        nodeIDMapping d !! parentNodeID = Some parentBackendID /\
        getNodeIDStr node NodeID = Ok nodeID /\
        nodeIDMapping d !! nodeID = Some backendNodeID /\
        u = createNodeRemovalUpdate backendNodeID parentBackendID /\
        nodeIDMapping d' = delete nodeID (nodeIDMapping d) /\
        backendNodeIDs d' = backendNodeIDs d ∖ {[ nodeID ]} /\
        nodeTypeMapping d' = delete nodeID (nodeTypeMapping d)
  | Fail d' _ => d' = d
  | Crash _ => False
  end.
Proof.
  unfold ProcessNodeRemoval, mbind, lift, mret, getBackendNodeID, mmodify.
  pose proof (getNodeIDStr_no_panic node ParentNodeID) as Hp.
  pose proof (getNodeIDStr_no_panic node NodeID) as Hn.
  destruct (getNodeIDStr node ParentNodeID) as [pid|e|p]; [|done|by destruct (Hp p)].
  destruct (nodeIDMapping d !! pid) as [pb|] eqn:Hpb; [|done].
  destruct (getNodeIDStr node NodeID) as [nid|e|p]; [|done|by destruct (Hn p)].
  destruct (nodeIDMapping d !! nid) as [nb|] eqn:Hnb; [|done].
  simpl. by exists pid, pb, nid, nb.
Qed.

(** When the stable ID differs from the protocol ID and is not itself the
    protocol ID of the removed node, a successful removal keeps the stable
    ID in [backendNodeIDs] and in [nodeTypeMapping]. *)
Lemma ProcessNodeRemoval_keeps_stable_id (node : Node) (d d' : DOM)
    (u : domjson.DOMUpdate) (nodeID : string) :
  ProcessNodeRemoval node d = Ret d' u ->
  getNodeIDStr node NodeID = Ok nodeID ->
  domjson.NodeID (domjson.node u) ≠ nodeID ->
  (domjson.NodeID (domjson.node u) ∈ backendNodeIDs d ->
   domjson.NodeID (domjson.node u) ∈ backendNodeIDs d') /\
  nodeTypeMapping d' !! domjson.NodeID (domjson.node u)
  = nodeTypeMapping d !! domjson.NodeID (domjson.node u).
Proof.
  intros Hr Hn Hne. pose proof (ProcessNodeRemoval_outcome node d) as H.
  rewrite Hr in H.
  destruct H as (pid & pb & nid & nb & _ & _ & Hn' & _ & -> & _ & Hk & Ht).
  rewrite Hn in Hn'. simplify_eq. simpl in *. split.
  - intros Hin. rewrite Hk. apply elem_of_difference. split; [done|].
    by rewrite elem_of_singleton.
  - rewrite Ht. by apply lookup_delete_ne.
Qed.

(** C5 fails on the code.  After the walk of a [body] (protocol ID 1, stable
    ID 11) over a [div] (protocol ID 2, stable ID 12), the removal of the
    [div] succeeds and emits [remove {12, 11}], but the three [delete]s use
    the protocol ID 2 as key: only [nodeIDMapping] loses the node, while
    [backendNodeIDs] and [nodeTypeMapping] keep their entries for 12. *)
Lemma removal_keeps_stable_entries :
  exists d1 d2,
    model_after [DocumentUpdated inputs.body_div] NewDOMModel = Some d1 /\
    ProcessNodeRemoval (inputs.removed 1 2) d1
    = Ret d2 (createNodeRemovalUpdate "12" "11") /\
    nodeIDMapping d1 !! "2" = Some "12" /\
    nodeIDMapping d2 !! "2" = None /\
    "12" ∈ backendNodeIDs d2 /\
    nodeTypeMapping d2 !! "12" = Some "div" /\
    backendNodeIDs d2 = backendNodeIDs d1 /\
    nodeTypeMapping d2 = nodeTypeMapping d1.
Proof.
  eexists _, _. split; [vm_compute; reflexivity|].
  split; [vm_compute; reflexivity|].
  split; [vm_compute; reflexivity|].
  split; [vm_compute; reflexivity|].
  split; [apply (bool_decide_unpack _); vm_compute; exact I|].
  split; [vm_compute; reflexivity|].
  split; vm_compute; reflexivity.
Qed.

(** ** The instance manager *)

(** C9, as stated, fails: the second [RemoveInstance] of the same ID does
    fail, with the error "instance with this ID does not exist". *)
Lemma RemoveInstance_twice_counterexample :
  exists im1,
    chrome.RemoveInstance 0 inputs.manager_with_one = Ret im1 tt /\
    chrome.RemoveInstance 0 im1 = Fail im1 ErrNoInstance.
Proof. eexists. split; vm_compute; reflexivity. Qed.

(** C9, amended: for every instance ID held in the ID-to-Instance map,
    [RemoveInstance] removes both the ID-to-Instance and the ID-to-URL
    entries, and nothing else, without terminating (or otherwise touching)
    the Instance; invoking it again with the same ID, as with any ID that is
    not in the ID-to-Instance map, leaves the manager's state unchanged and
    returns the error "instance with this ID does not exist". *)
Theorem RemoveInstance_spec (im : chrome.InstanceManager) (instanceID : Z) :
  (forall instance, chrome.instances im !! instanceID = Some instance ->
     exists im',
       chrome.RemoveInstance instanceID im = Ret im' tt /\
       chrome.instances im' = delete instanceID (chrome.instances im) /\
       chrome.urls im' = delete instanceID (chrome.urls im) /\
       chrome.instances im' !! instanceID = None /\
       chrome.urls im' !! instanceID = None /\
       chrome.heap im' = chrome.heap im /\
       chrome.nextInstanceID im' = chrome.nextInstanceID im /\
       chrome.useFullChrome im' = chrome.useFullChrome im /\
       chrome.RemoveInstance instanceID im' = Fail im' ErrNoInstance) /\
  (chrome.instances im !! instanceID = None ->
     chrome.RemoveInstance instanceID im = Fail im ErrNoInstance).
Proof.
  split.
  - intros instance Hi. eexists. unfold chrome.RemoveInstance at 1.
    rewrite Hi. split; [reflexivity|]. simpl.
    repeat (split; [first [reflexivity | apply lookup_delete_eq]|]).
    unfold chrome.RemoveInstance. simpl. by rewrite lookup_delete_eq.
  - intros Hi. unfold chrome.RemoveInstance. by rewrite Hi.
Qed.

Lemma RemoveInstance_spec_witness :
  exists im',
    chrome.RemoveInstance 0 inputs.manager_with_one = Ret im' tt /\
    chrome.instances im' = delete 0 (chrome.instances inputs.manager_with_one) /\
    chrome.urls im' = delete 0 (chrome.urls inputs.manager_with_one) /\
    chrome.instances im' !! 0 = None /\
    chrome.urls im' !! 0 = None /\
    chrome.heap im' = chrome.heap inputs.manager_with_one /\
    chrome.nextInstanceID im' = chrome.nextInstanceID inputs.manager_with_one /\
    chrome.useFullChrome im' = chrome.useFullChrome inputs.manager_with_one /\
    chrome.RemoveInstance 0 im' = Fail im' ErrNoInstance.
Proof.
  apply (proj1 (RemoveInstance_spec inputs.manager_with_one 0) 1%positive).
  reflexivity.
Defined.

(** ** The batch sanitizer *)

Section sanitizer_facts.
Context (tokenize : string -> list html.Token * html.tokenizer_end)
        (token_String : html.Token -> string)
        (UnescapeString : string -> string).

Lemma removeScriptTags_loop_leading_text (data response : string)
    (rest : list html.Token) (lastTokenWasScript lastTokenWasStyle : bool) :
  hdpreviews.removeScriptTags_loop token_String UnescapeString
    (inputs.text_token data :: rest) response true
    lastTokenWasScript lastTokenWasStyle
  = hdpreviews.removeScriptTags_loop token_String UnescapeString
      rest (response +:+ UnescapeString (token_String (inputs.text_token data)))
      true lastTokenWasScript lastTokenWasStyle.
Proof. reflexivity. Qed.

(** C4 fails on the code.  A document that the tokenizer reads as one text
    token comes out as the data of that token: the leading text goes through
    [UnescapeString (tk.String())], which undoes the escaping that
    [Token.String] applies to text.  The document [&lt;/script&gt;] is read
    as the text [</script>], so the output contains [</script>]. *)
Theorem removeScriptTags_returns_leading_text (dom data : string) :
  tokenize dom = ([inputs.text_token data], html.EOF) ->
  UnescapeString (token_String (inputs.text_token data)) = data ->
  hdpreviews.removeScriptTags tokenize token_String UnescapeString dom = Ok data.
Proof.
  intros Htok Hround. unfold hdpreviews.removeScriptTags. rewrite Htok.
  rewrite removeScriptTags_loop_leading_text. simpl. by rewrite Hround.
Qed.

End sanitizer_facts.

Lemma removeScriptTags_returns_leading_text_witness :
  hdpreviews.removeScriptTags inputs.tokenize_escaped_script
    inputs.String_escaped_script inputs.Unescape_escaped_script
    "&lt;/script&gt;" = Ok "</script>".
Proof.
  apply removeScriptTags_returns_leading_text.
  - reflexivity.
  - reflexivity.
Defined.

(* ===================================================================== *)
(** * Part III. Further properties of the code *)
(* ===================================================================== *)

(** ** Resolving protocol IDs *)

Lemma getNodeIDStr_ok_or_bad (node : Node) (field : string) :
  (exists id, getNodeIDStr node field = Ok id /\ ~ bad_id_field node field) \/
  (exists e, getNodeIDStr node field = Err e /\ bad_id_field node field).
Proof.
  destruct (getNodeIDStr_cases node field)
    as [[Hb [e He]]|[(f & Hl & Hz & He)|(f & Hl & Hz & He)]].
  - right. eauto.
  - left. eexists. split; [done|]. by eapply bad_id_field_not_number.
  - left. eexists. split; [done|]. by eapply bad_id_field_not_number.
Qed.

(** Reading an ID field and looking it up in [nodeIDMapping]. *)
Lemma resolve_cases (d : DOM) (node : Node) (field : string) :
  match getNodeIDStr node field with
  | Ok id =>
      match nodeIDMapping d !! id with
      | Some _ => ~ unresolved_id d node field
      | None => unresolved_id d node field
      end
  | Err _ => unresolved_id d node field
  | Panic _ => False
  end.
Proof.
  unfold unresolved_id, unmapped_id.
  destruct (getNodeIDStr_ok_or_bad node field) as [(id & -> & Hnb)|(e & -> & Hb)].
  - destruct (nodeIDMapping d !! id) as [b|] eqn:Hm.
    + intros [?|(id' & [= <-] & ?)]; [done|congruence].
    + right. eauto.
  - by left.
Qed.

(** ** [ProcessNodeRemoval], completely *)

Lemma ProcessNodeRemoval_cases (node : Node) (d : DOM) :
  match ProcessNodeRemoval node d with
  | Ret d' u =>
      ~ removal_rejected d node /\
      exists parentNodeID parentBackendID nodeID backendNodeID,
        getNodeIDStr node ParentNodeID = Ok parentNodeID /\
        nodeIDMapping d !! parentNodeID = Some parentBackendID /\
        getNodeIDStr node NodeID = Ok nodeID /\
        nodeIDMapping d !! nodeID = Some backendNodeID /\
        u = createNodeRemovalUpdate backendNodeID parentBackendID /\
        d' = mkDOM (delete nodeID (nodeIDMapping d))
                   (backendNodeIDs d ∖ {[ nodeID ]})
                   (delete nodeID (nodeTypeMapping d))
  | Fail d' _ => d' = d /\ removal_rejected d node
  | Crash _ => False
  end.
Proof.
  unfold ProcessNodeRemoval, mbind, lift, mret, getBackendNodeID, mmodify,
    removal_rejected.
  pose proof (resolve_cases d node ParentNodeID) as Hp.
  pose proof (resolve_cases d node NodeID) as Hn.
  unfold unresolved_id in *.
  destruct (getNodeIDStr node ParentNodeID) as [pid|e|p]; [|tauto|done].
  destruct (nodeIDMapping d !! pid) as [pb|] eqn:Hpb; [|tauto].
  destruct (getNodeIDStr node NodeID) as [nid|e|p]; [|tauto|done].
  destruct (nodeIDMapping d !! nid) as [nb|] eqn:Hnb; [|tauto].
  simpl. split; [tauto|]. by exists pid, pb, nid, nb.
Qed.

(** X2: [ProcessNodeRemoval] never panics.  It returns an error exactly when
    [parentNodeId] or [nodeId] is missing, is not a number, or has no entry
    in [nodeIDMapping] (a [parentNodeId] of 0 is looked up as the empty
    string like any other), and then the model is unchanged.  Otherwise it
    returns the remove update for the two stable IDs and deletes the key
    [nodeId] from the three maps. *)
Theorem ProcessNodeRemoval_spec (node : Node) (d : DOM) :
  (forall p, ProcessNodeRemoval node d ≠ Crash p) /\
  ((exists d' e, ProcessNodeRemoval node d = Fail d' e) <->
   removal_rejected d node) /\
  (forall d' e, ProcessNodeRemoval node d = Fail d' e -> d' = d) /\
  (forall d' u, ProcessNodeRemoval node d = Ret d' u ->
     exists parentNodeID parentBackendID nodeID backendNodeID,
       getNodeIDStr node ParentNodeID = Ok parentNodeID /\
       nodeIDMapping d !! parentNodeID = Some parentBackendID /\
       getNodeIDStr node NodeID = Ok nodeID /\
       nodeIDMapping d !! nodeID = Some backendNodeID /\
       u = createNodeRemovalUpdate backendNodeID parentBackendID /\
       d' = mkDOM (delete nodeID (nodeIDMapping d))
                  (backendNodeIDs d ∖ {[ nodeID ]})
                  (delete nodeID (nodeTypeMapping d))).
Proof.
  pose proof (ProcessNodeRemoval_cases node d) as H.
  destruct (ProcessNodeRemoval node d) as [d' u|d' e|p]; [| |done].
  - destruct H as [Hnr H]. split; [done|]. split; [|split].
    + split; [intros (? & ? & [=])|done].
    + intros ?? [=].
    + by intros ?? [= <- <-].
  - destruct H as [-> Hr]. split; [done|]. split; [|split].
    + split; [done|eauto].
    + by intros ?? [= <- _].
    + intros ?? [=].
Qed.

Lemma ProcessNodeRemoval_spec_witness :
  exists d',
    ProcessNodeRemoval (inputs.removed 0 2) NewDOMModel = Fail d' (ErrNoBackendNode "") /\
    d' = NewDOMModel.
Proof.
  eexists. split; [vm_compute; reflexivity|].
  apply (proj1 (proj2 (proj2 (ProcessNodeRemoval_spec (inputs.removed 0 2) NewDOMModel)))
           _ (ErrNoBackendNode "")).
  vm_compute. reflexivity.
Defined.

(** ** [ProcessNodeAttributeModification] *)

Lemma ProcessNodeAttributeModification_cases (node : Node) (d : DOM) :
  match ProcessNodeAttributeModification node d with
  | Ret d' u =>
      d' = d /\ ~ unresolved_id d node NodeID /\
      exists nodeID backendNodeID name value,
        getNodeIDStr node NodeID = Ok nodeID /\
        nodeIDMapping d !! nodeID = Some backendNodeID /\
        node !! Name = Some (JStr name) /\
        node !! Value = Some (JStr value) /\
        u = domjson.mkDOMUpdate domjson.Modify
              (domjson.mkNode backendNodeID "" "" "" {[ name := value ]} "")
  | Fail d' _ => d' = d /\ unresolved_id d node NodeID
  | Crash _ =>
      ~ unresolved_id d node NodeID /\
      ~ (string_field node Name /\ string_field node Value)
  end.
Proof.
  unfold ProcessNodeAttributeModification, mbind, lift, mret, getBackendNodeID,
    string_field.
  pose proof (resolve_cases d node NodeID) as Hn.
  destruct (getNodeIDStr node NodeID) as [nid|e|p]; [|tauto|done].
  destruct (nodeIDMapping d !! nid) as [nb|] eqn:Hnb; [|tauto].
  unfold assert_string.
  destruct (node !! Name) as [[| | |name| |]|] eqn:Hname; simpl;
    try (split; [done|]; intros [[? [=]] _]).
  destruct (node !! Value) as [[| | |value| |]|] eqn:Hvalue; simpl;
    try (split; [done|]; intros [_ [? [=]]]).
  split; [done|]. split; [done|]. by exists nid, nb, name, value.
Qed.

(** X3: [ProcessNodeAttributeModification] never changes the model.  It
    returns an error exactly when [nodeId] is missing, is not a number or
    has no entry in [nodeIDMapping]; otherwise it panics exactly when [name]
    or [value] is not a string, and else returns one modify update for the
    node's stable ID whose attributes map is the singleton
    [{name: value}]. *)
Theorem ProcessNodeAttributeModification_spec (node : Node) (d : DOM) :
  (forall d' u, ProcessNodeAttributeModification node d = Ret d' u ->
     d' = d /\
     exists nodeID backendNodeID name value,
       getNodeIDStr node NodeID = Ok nodeID /\
       nodeIDMapping d !! nodeID = Some backendNodeID /\
       node !! Name = Some (JStr name) /\
       node !! Value = Some (JStr value) /\
       u = domjson.mkDOMUpdate domjson.Modify
             (domjson.mkNode backendNodeID "" "" "" {[ name := value ]} "")) /\
  (forall d' e, ProcessNodeAttributeModification node d = Fail d' e -> d' = d) /\
  ((exists d' e, ProcessNodeAttributeModification node d = Fail d' e) <->
   unresolved_id d node NodeID) /\
  ((exists p, ProcessNodeAttributeModification node d = Crash p) <->
   ~ unresolved_id d node NodeID /\
   ~ (string_field node Name /\ string_field node Value)).
Proof.
  pose proof (ProcessNodeAttributeModification_cases node d) as H.
  destruct (ProcessNodeAttributeModification node d) as [d' u|d' e|p].
  - destruct H as (-> & Hr & H). split; [|split; [|split]].
    + by intros ?? [= <- <-].
    + intros ?? [=].
    + split; [intros (? & ? & [=])|done].
    + split; [intros (? & [=])|]. intros [_ Hs]. destruct Hs.
      destruct H as (? & ? & name & value & _ & _ & Hn & Hv & _).
      split; by eexists.
  - destruct H as [-> Hr]. split; [|split; [|split]].
    + intros ?? [=].
    + by intros ?? [= <- _].
    + split; [done|eauto].
    + split; [intros (? & [=])|tauto].
  - split; [|split; [|split]].
    + intros ?? [=].
    + intros ?? [=].
    + split; [intros (? & ? & [=])|tauto].
    + split; [done|eauto].
Qed.

Lemma ProcessNodeAttributeModification_spec_witness :
  ProcessNodeAttributeModification (<[NodeID := inputs.num 7]> ∅) NewDOMModel
  = Fail NewDOMModel (ErrNoBackendNode "7").
Proof.
  assert (exists d', ProcessNodeAttributeModification (<[NodeID := inputs.num 7]> ∅)
                       NewDOMModel = Fail d' (ErrNoBackendNode "7"))
    as [d' H] by (eexists; vm_compute; reflexivity).
  rewrite H. f_equal.
  exact (proj1 (proj2 (ProcessNodeAttributeModification_spec _ _)) _ _ H).
Defined.

(** ** [ProcessSetChildNodes]: errors *)

Lemma setChildNodes_loop_never_fails (nodes : list jvalue)
    (parentBackendID prevNodeID : string) (result : list domjson.DOMUpdate)
    (d d' : DOM) (e : error) :
  setChildNodes_loop nodes parentBackendID prevNodeID result d ≠ Fail d' e.
Proof.
  revert prevNodeID result d.
  induction nodes as [|c nodes IH]; intros q result d; simpl; [done|].
  unfold mbind, lift. destruct c as [| | | | |curNode]; simpl; try done.
  destruct (generateInitialDOMHelper curNode parentBackendID q (d, []))
    as [[d1 sub] b|[d1 sub] e1|p]; [apply IH|apply IH|done].
Qed.

Lemma setChildNodes_loop_not_object (nodes : list jvalue)
    (parentBackendID prevNodeID : string) (result : list domjson.DOMUpdate)
    (d : DOM) :
  Exists (fun c => forall m, c ≠ JObj m) nodes ->
  exists p, setChildNodes_loop nodes parentBackendID prevNodeID result d = Crash p.
Proof.
  intros Hex. revert prevNodeID result d.
  induction Hex as [c nodes Hc|c nodes _ IH]; intros q result d; simpl.
  - unfold mbind, lift. destruct c as [| | | | |m]; simpl; eauto.
    by destruct (Hc m).
  - unfold mbind, lift. destruct c as [| | | | |curNode]; simpl; eauto.
    destruct (generateInitialDOMHelper curNode parentBackendID q (d, []))
      as [[d1 sub] b|[d1 sub] e1|p]; [apply IH|apply IH|eauto].
Qed.

Lemma ProcessSetChildNodes_cases (node : Node) (d : DOM) :
  match ProcessSetChildNodes node d with
  | Ret _ _ =>
      ~ unresolved_id d node ParentID /\
      exists nodes, node !! Nodes = Some (JArr nodes)
  | Fail d' _ => d' = d /\ unresolved_id d node ParentID
  | Crash _ => ~ unresolved_id d node ParentID
  end.
Proof.
  unfold ProcessSetChildNodes, mbind, lift, getBackendNodeID.
  pose proof (resolve_cases d node ParentID) as Hp.
  destruct (getNodeIDStr node ParentID) as [pid|e|p]; [|tauto|done].
  destruct (nodeIDMapping d !! pid) as [pb|] eqn:Hpb; [|tauto].
  unfold assert_slice.
  destruct (node !! Nodes) as [[| | | |nodes|]|] eqn:Hn; simpl; try done.
  pose proof (setChildNodes_loop_never_fails nodes pb "" [] d) as Hnf.
  destruct (setChildNodes_loop nodes pb "" [] d) as [d' us|d' e|p].
  - split; [done|]. by eexists.
  - by destruct (Hnf d' e).
  - done.
Qed.

(** X4: [ProcessSetChildNodes] returns an error exactly when [parentId] is
    missing, is not a number or has no entry in [nodeIDMapping], and then the
    model is unchanged.  Nothing that goes wrong in a child makes it return
    an error: once the parent is resolved the call returns updates or
    panics, and it panics when [nodes] is not a list or holds an element that
    is not an object.  On an empty [nodes] list it returns no update and
    leaves the model as it was. *)
Theorem ProcessSetChildNodes_errors (node : Node) (d : DOM) :
  ((exists d' e, ProcessSetChildNodes node d = Fail d' e) <->
   unresolved_id d node ParentID) /\
  (forall d' e, ProcessSetChildNodes node d = Fail d' e -> d' = d) /\
  (~ unresolved_id d node ParentID ->
   (forall nodes, node !! Nodes ≠ Some (JArr nodes)) ->
   ProcessSetChildNodes node d = Crash InterfaceConversion) /\
  (~ unresolved_id d node ParentID ->
   forall nodes, node !! Nodes = Some (JArr nodes) ->
   Exists (fun c => forall m, c ≠ JObj m) nodes ->
   exists p, ProcessSetChildNodes node d = Crash p) /\
  (~ unresolved_id d node ParentID ->
   node !! Nodes = Some (JArr []) ->
   ProcessSetChildNodes node d = Ret d []).
Proof.
  pose proof (ProcessSetChildNodes_cases node d) as H.
  pose proof (resolve_cases d node ParentID) as Hp.
  split; [|split; [|split; [|split]]].
  - destruct (ProcessSetChildNodes node d) as [d' us|d' e|p].
    + split; [intros (? & ? & [=])|tauto].
    + destruct H as [-> Hr]. split; [done|eauto].
    + split; [intros (? & ? & [=])|tauto].
  - intros d' e He. rewrite He in H. tauto.
  - intros Hr Hn. clear H. unfold ProcessSetChildNodes, mbind, lift, getBackendNodeID.
    destruct (getNodeIDStr node ParentID) as [pid|e|p]; [|tauto|done].
    destruct (nodeIDMapping d !! pid) as [pb|]; [|tauto].
    unfold assert_slice.
    destruct (node !! Nodes) as [[| | | |nodes|]|]; simpl; try done.
    by destruct (Hn nodes).
  - intros Hr nodes Hn Hex. clear H.
    unfold ProcessSetChildNodes, mbind, lift, getBackendNodeID.
    destruct (getNodeIDStr node ParentID) as [pid|e|p]; [|tauto|done].
    destruct (nodeIDMapping d !! pid) as [pb|]; [|tauto].
    rewrite Hn. simpl. by apply setChildNodes_loop_not_object.
  - intros Hr Hn. clear H.
    unfold ProcessSetChildNodes, mbind, lift, getBackendNodeID.
    destruct (getNodeIDStr node ParentID) as [pid|e|p]; [|tauto|done].
    destruct (nodeIDMapping d !! pid) as [pb|]; [|tauto].
    by rewrite Hn.
Qed.

Lemma ProcessSetChildNodes_errors_witness :
  ProcessSetChildNodes (<[ParentID := inputs.num 1]> ∅) NewDOMModel
  = Fail NewDOMModel (ErrNoBackendNode "1").
Proof.
  assert (exists d', ProcessSetChildNodes (<[ParentID := inputs.num 1]> ∅)
                       NewDOMModel = Fail d' (ErrNoBackendNode "1"))
    as [d' H] by (eexists; vm_compute; reflexivity).
  rewrite H. f_equal.
  exact (proj1 (proj2 (ProcessSetChildNodes_errors _ _)) _ _ H).
Defined.

(** ** Walking a tree again *)

Lemma walk_value_fresh_inserts (c : jvalue) (parentNodeID prevNodeID : string) :
  respects fresh_inserts (walk_value c parentNodeID prevNodeID).
Proof.
  apply walk_value_respects; try apply _.
  - apply visit_fresh_inserts.
  - apply record_fresh_inserts.
Qed.

Lemma walk_value_known_grows (c : jvalue) (p q b : string) (w w' : walk_state) :
  walk_value c p q w = Ret w' b ->
  backendNodeIDs (fst w) ⊆ backendNodeIDs (fst w').
Proof.
  intros H. pose proof (walk_value_fresh_inserts c p q w) as Hr.
  rewrite H in Hr. by destruct Hr.
Qed.

Lemma walk_children_known_grows (cs : list jvalue) (p q r : string)
    (w w' : walk_state) :
  walk_children (map walk_value cs) p q w = Ret w' r ->
  backendNodeIDs (fst w) ⊆ backendNodeIDs (fst w').
Proof.
  intros H.
  assert (respects fresh_inserts (walk_children (map walk_value cs) p q)) as Hr.
  { apply walk_children_respects; try apply _.
    apply Forall_fmap, Forall_forall. intros c _ p' q'.
    apply walk_value_fresh_inserts. }
  specialize (Hr w). rewrite H in Hr. by destruct Hr.
Qed.

Lemma visit_cases (curNode : Node) (b p q : string) (w : walk_state) :
  match visit curNode b p q w with
  | Ret w' _ =>
      b ∈ backendNodeIDs (fst w') /\
      backendNodeIDs (fst w') = {[ b ]} ∪ backendNodeIDs (fst w) /\
      nodeIDMapping (fst w') = nodeIDMapping (fst w)
  | Fail _ _ => False
  | Crash _ => True
  end.
Proof.
  destruct w as [d res].
  unfold visit, mbind, mget, mret, on_dom, mmodify, append_result. simpl.
  destruct (decide (b ∈ backendNodeIDs d)) as [Hin|Hnew].
  { split; [done|]. split; [|done].
    apply set_eq. intros x. rewrite elem_of_union, elem_of_singleton.
    split; [tauto|]. by intros [->|?]. }
  assert (b ∈ ({[b]} ∪ backendNodeIDs d : gset string)) as Hb
    by (apply elem_of_union_l; by apply elem_of_singleton).
  simpl. destruct (is_script _); [done|].
  pose proof (createNodeInsertUpdate_cases b p q curNode
                (set_backendNodeIDs (union {[b]}) d)) as Hc.
  destruct (createNodeInsertUpdate _ _ _ _ _) as [d' u|d' e|p']; simpl; [|done..].
  by destruct Hc as (elementType & attributes & text & _ & _ & _ & _ & ->).
Qed.

Lemma visit_known (curNode : Node) (b p q : string) (w : walk_state) :
  b ∈ backendNodeIDs (fst w) -> visit curNode b p q w = Ret w tt.
Proof.
  intros Hin. destruct w as [d res]. unfold visit, mbind, mget, mret. simpl.
  by rewrite decide_True.
Qed.

Lemma walk_children_again (cs : list jvalue) :
  Forall (fun c =>
    forall p q w w1 b, walk_value c p q w = Ret w1 b ->
    forall p' q' w2,
      backendNodeIDs (fst w1) ⊆ backendNodeIDs (fst w2) ->
      exists w3,
        walk_value c p' q' w2 = Ret w3 b /\
        snd w3 = snd w2 /\
        backendNodeIDs (fst w3) = backendNodeIDs (fst w2) /\
        nodeTypeMapping (fst w3) = nodeTypeMapping (fst w2)) cs ->
  forall p q w w1 r, walk_children (map walk_value cs) p q w = Ret w1 r ->
  forall p' q' w2,
    backendNodeIDs (fst w1) ⊆ backendNodeIDs (fst w2) ->
    exists w3 r',
      walk_children (map walk_value cs) p' q' w2 = Ret w3 r' /\
      snd w3 = snd w2 /\
      backendNodeIDs (fst w3) = backendNodeIDs (fst w2) /\
      nodeTypeMapping (fst w3) = nodeTypeMapping (fst w2).
Proof.
  induction 1 as [|c cs Hc _ IH]; intros p q w w1 r Hrun p' q' w2 Hsub.
  - simpl. by exists w2, q'.
  - simpl in Hrun. unfold mbind in Hrun.
    destruct (walk_value c p q w) as [wa ra|wa e|pa] eqn:Hca; [|done..].
    pose proof (walk_children_known_grows _ _ _ _ _ _ Hrun) as Hg.
    destruct (Hc _ _ _ _ _ Hca p' q' w2) as (w3a & Hrun3 & Hs & Hk & Ht);
      [by trans (backendNodeIDs w1.1)|].
    destruct (IH _ _ _ _ _ Hrun p' ra w3a) as (w3 & r' & Hrun' & Hs' & Hk' & Ht').
    { rewrite Hk. done. }
    exists w3, r'. simpl. unfold mbind. rewrite Hrun3.
    split; [done|]. split; [congruence|]. split; congruence.
Qed.

Lemma walk_value_again (c : jvalue) :
  forall p q w w1 b, walk_value c p q w = Ret w1 b ->
  forall p' q' w2,
    backendNodeIDs (fst w1) ⊆ backendNodeIDs (fst w2) ->
    exists w3,
      walk_value c p' q' w2 = Ret w3 b /\
      snd w3 = snd w2 /\
      backendNodeIDs (fst w3) = backendNodeIDs (fst w2) /\
      nodeTypeMapping (fst w3) = nodeTypeMapping (fst w2).
Proof.
  induction c as [c IH] using jvalue_tree_ind.
  intros p q w w1 b Hrun p' q' w2 Hsub.
  destruct c as [| | | | |curNode]; try done.
  rewrite walk_value_object, generateInitialDOMHelper_unfold in Hrun |- *.
  unfold mbind at 1 in Hrun. unfold mbind at 1.
  destruct (lift (getNodeIDStr curNode BackendNodeID) w) as [w0 b0|?|?] eqn:Hb;
    [|done..].
  assert (w0 = w /\ getNodeIDStr curNode BackendNodeID = Ok b0) as [-> Hb0].
  { unfold lift in Hb. destruct (getNodeIDStr curNode BackendNodeID); by inversion Hb. }
  unfold lift at 1. rewrite Hb0.
  unfold mbind at 1 in Hrun. unfold mbind at 1.
  destruct (lift (getNodeIDStr curNode NodeID) w) as [w0 n0|?|?] eqn:Hn;
    [|done..].
  assert (w0 = w /\ getNodeIDStr curNode NodeID = Ok n0) as [-> Hn0].
  { unfold lift in Hn. destruct (getNodeIDStr curNode NodeID); by inversion Hn. }
  unfold lift at 1. rewrite Hn0.
  unfold mbind at 1 in Hrun. unfold mbind at 1.
  pose proof (visit_cases curNode b0 p q w) as Hv.
  destruct (visit curNode b0 p q w) as [wv []|?|?] eqn:Hvis; [|done..].
  destruct Hv as (Hbin & Hkv & _).
  unfold mbind at 1 in Hrun.
  destruct ((match curNode !! Children with
             | Some JNull | None => mret ()
             | Some (JArr children) =>
                 (let* _ := walk_children (map walk_value children) b0 "" in
                  mret ())%go
             | Some _ => lift (Panic InterfaceConversion)
             end) wv) as [wc []|?|?] eqn:Hch; [|done..].
  unfold mbind at 1 in Hrun. simpl in Hrun. injection Hrun as <- <-.
  simpl in Hsub.
  assert (backendNodeIDs (fst wv) ⊆ backendNodeIDs (fst wc)) as Hvc.
  { destruct (curNode !! Children) as [[| | | |children|]|] eqn:Hc;
      try (unfold mret in Hch; by injection Hch as <-); try done.
    unfold mbind in Hch.
    destruct (walk_children (map walk_value children) b0 "" wv)
      as [wc' r|?|?] eqn:Hwc; [|done..].
    unfold mret in Hch. injection Hch as Heq. subst wc'.
    by eapply walk_children_known_grows. }
  rewrite visit_known by (apply Hsub, Hvc, Hbin).
  unfold mbind at 1.
  assert (exists w3,
            (match curNode !! Children with
             | Some JNull | None => mret ()
             | Some (JArr children) =>
                 (let* _ := walk_children (map walk_value children) b0 "" in
                  mret ())%go
             | Some _ => lift (Panic InterfaceConversion)
             end) w2 = Ret w3 tt /\
            snd w3 = snd w2 /\
            backendNodeIDs (fst w3) = backendNodeIDs (fst w2) /\
            nodeTypeMapping (fst w3) = nodeTypeMapping (fst w2))
    as (w3 & -> & Hs & Hk & Ht).
  { destruct (curNode !! Children) as [[| | | |children|]|] eqn:Hc;
      try (by exists w2); try done.
    unfold mbind in Hch.
    destruct (walk_children (map walk_value children) b0 "" wv)
      as [wc' r|?|?] eqn:Hwc; [|done..].
    unfold mret in Hch. injection Hch as Heq. subst wc'.
    destruct (walk_children_again children) with (p := b0) (q := "") (w := wv)
      (w1 := wc) (r := r) (p' := b0) (q' := "") (w2 := w2)
      as (w3 & r' & Hrun' & Hs & Hk & Ht); [|done|done|].
    { apply Forall_forall. intros c Hin. by eapply IH. }
    exists w3. unfold mbind. rewrite Hrun'. done. }
  unfold mbind at 1. simpl. eexists. split; [reflexivity|]. simpl.
  by rewrite Hs, Hk, Ht.
Qed.

(** X5: when [GenerateInitialDOM] has returned for a tree, calling it again
    for the same tree, on the model it left or on any later model that still
    knows the same stable IDs, returns no update, and changes neither the
    set of known stable IDs nor the recorded kinds. *)
Theorem GenerateInitialDOM_again (rootNode : Node) (d d1 d2 : DOM)
    (updates : list domjson.DOMUpdate) :
  GenerateInitialDOM rootNode d = Ret d1 updates ->
  backendNodeIDs d1 ⊆ backendNodeIDs d2 ->
  exists d3,
    GenerateInitialDOM rootNode d2 = Ret d3 [] /\
    backendNodeIDs d3 = backendNodeIDs d2 /\
    nodeTypeMapping d3 = nodeTypeMapping d2.
Proof.
  unfold GenerateInitialDOM. intros Hrun Hsub.
  destruct (generateInitialDOMHelper rootNode "" "" (d, []))
    as [[d1' res] b|[??] ?|?] eqn:Hh; [|done..].
  injection Hrun as -> ->.
  destruct (walk_value_again (JObj rootNode) _ _ _ _ _ Hh "" "" (d2, []) Hsub)
    as ([d3 res3] & Hrun' & Hs & Hk & Ht).
  unfold generateInitialDOMHelper. rewrite Hrun'. simpl in *. subst res3.
  by exists d3.
Qed.

Lemma GenerateInitialDOM_again_witness :
  exists d1 updates d3,
    GenerateInitialDOM inputs.tree_of_test NewDOMModel = Ret d1 updates /\
    GenerateInitialDOM inputs.tree_of_test d1 = Ret d3 [] /\
    backendNodeIDs d3 = backendNodeIDs d1 /\
    nodeTypeMapping d3 = nodeTypeMapping d1.
Proof.
  assert (exists d1 updates,
            GenerateInitialDOM inputs.tree_of_test NewDOMModel = Ret d1 updates)
    as (d1 & updates & H) by (eexists _, _; vm_compute; reflexivity).
  destruct (GenerateInitialDOM_again _ _ _ d1 _ H) as (d3 & H3); [done|].
  by exists d1, updates, d3.
Defined.

(** ** The root comes first *)

Lemma helper_rest_respects (R : relation walk_state)
    `{!Reflexive R} `{!Transitive R} (curNode : Node) (b n : string) :
  (forall curNode backendNodeID parentNodeID prevNodeID,
     respects R (visit curNode backendNodeID parentNodeID prevNodeID)) ->
  (forall nodeID backendNodeID,
     respects R (on_dom (mmodify (set_nodeIDMapping (<[nodeID := backendNodeID]>))))) ->
  respects R
    (match curNode !! Children with
     | None | Some JNull => mret tt
     | Some (JArr children) =>
         let* _ := walk_children (map walk_value children) b "" in mret tt
     | Some _ => lift (Panic InterfaceConversion)
     end ;;
     on_dom (mmodify (set_nodeIDMapping (<[n := b]>))) ;;
     mret b)%go.
Proof.
  intros Hv Hr. apply respects_mbind; [done..| |].
  - destruct (curNode !! Children) as [[| | | |children|]|];
      try (by apply respects_mret); try (by apply respects_lift).
    apply respects_mbind; [done..| |intros; by apply respects_mret].
    apply walk_children_respects; [done..|].
    apply Forall_fmap, Forall_forall. intros c _ p q.
    by apply walk_value_respects.
  - intros _. apply respects_mbind; [done..|apply Hr|].
    intros _. by apply respects_mret.
Qed.

(** X6: when the root's stable ID is not yet known and no script kind is
    recorded for the empty ID, the first update [GenerateInitialDOM] returns
    is the insert of the root itself, with empty parent and previous-sibling
    IDs, the root's name and value, and its paired attributes (none for a
    script). *)
Theorem GenerateInitialDOM_root_first (rootNode : Node) (d d' : DOM)
    (updates : list domjson.DOMUpdate) (backendNodeID : string) :
  GenerateInitialDOM rootNode d = Ret d' updates ->
  getNodeIDStr rootNode BackendNodeID = Ok backendNodeID ->
  backendNodeID ∉ backendNodeIDs d ->
  is_script (kind_of d "") = false ->
  exists elementType attributes text rest,
    rootNode !! NodeName = Some (JStr elementType) /\
    rootNode !! NodeValue = Some (JStr text) /\
    (if is_script elementType then attributes = ∅
     else getAttributes rootNode = Ok attributes) /\
    updates = insert_update backendNodeID "" "" elementType attributes text :: rest.
Proof.
  unfold GenerateInitialDOM. intros Hrun Hb Hnew Hs.
  rewrite generateInitialDOMHelper_unfold in Hrun.
  unfold mbind at 1 in Hrun. unfold lift at 1 in Hrun. rewrite Hb in Hrun.
  unfold mbind at 1 in Hrun. unfold lift at 1 in Hrun.
  destruct (getNodeIDStr rootNode NodeID) as [n| |]; [|done..].
  unfold mbind at 1 in Hrun.
  assert (visit rootNode backendNodeID "" "" (d, [])
          = match createNodeInsertUpdate backendNodeID "" "" rootNode
                    (set_backendNodeIDs (union {[backendNodeID]}) d) with
            | Ret d1 u => Ret (d1, [u]) tt
            | Fail d1 e => Fail (d1, []) e
            | Crash p => Crash p
            end) as Hv.
  { unfold visit, mbind, mget, mret, on_dom, mmodify, append_result. simpl.
    rewrite decide_False by done. simpl.
    unfold kind_of in *. simpl. rewrite Hs.
    by destruct (createNodeInsertUpdate _ _ _ _ _). }
  rewrite Hv in Hrun.
  pose proof (createNodeInsertUpdate_cases backendNodeID "" "" rootNode
                (set_backendNodeIDs (union {[backendNodeID]}) d)) as Hc.
  destruct (createNodeInsertUpdate _ _ _ _ _) as [d1 u|d1 e|p]; [|done..].
  destruct Hc as (elementType & attributes & text & Hname & Hval & Hattr & -> & _).
  match type of Hrun with
  | match ?m ?w with _ => _ end = _ =>
      assert (respects (appends (fun _ => True)) m) as Hr;
        [|specialize (Hr w); destruct (m w) as [[d2 res] r|[d2 res] e|p]]
  end; [|
    injection Hrun as -> ->; destruct Hr as (new & Hres & _); simpl in Hres;
    exists elementType, attributes, text, new; by rewrite Hres
  |done..].
  apply helper_rest_respects; try apply _.
  - intros. by apply visit_appends.
  - intros. apply record_appends.
Qed.

Lemma GenerateInitialDOM_root_first_witness :
  exists elementType attributes text rest d',
    inputs.tree_of_test !! NodeName = Some (JStr elementType) /\
    inputs.tree_of_test !! NodeValue = Some (JStr text) /\
    (if is_script elementType then attributes = ∅
     else getAttributes inputs.tree_of_test = Ok attributes) /\
    GenerateInitialDOM inputs.tree_of_test NewDOMModel
    = Ret d' (insert_update "1" "" "" elementType attributes text :: rest).
Proof.
  assert (exists d' updates,
            GenerateInitialDOM inputs.tree_of_test NewDOMModel = Ret d' updates)
    as (d' & updates & H) by (eexists _, _; vm_compute; reflexivity).
  destruct (GenerateInitialDOM_root_first _ _ _ _ "1" H)
    as (elementType & attributes & text & rest & Hn & Hv & Ha & ->).
  - reflexivity.
  - apply not_elem_of_empty.
  - reflexivity.
  - by exists elementType, attributes, text, rest, d'.
Defined.

(** ** The kinds the walk records *)

Global Instance recorded_inserts_reflexive : Reflexive recorded_inserts.
Proof.
  intros w. split; [done|]. split; [done|]. exists []. rewrite app_nil_r.
  split; [done|]. intros u Hin. by apply elem_of_nil in Hin.
Qed.

Global Instance recorded_inserts_transitive : Transitive recorded_inserts.
Proof.
  intros w1 w2 w3 (Hs1 & Hf1 & n1 & H1 & Hn1) (Hs2 & Hf2 & n2 & H2 & Hn2).
  split; [by trans (backendNodeIDs w2.1)|]. split.
  - intros id Hin. rewrite Hf2 by (by apply Hs1). by apply Hf1.
  - exists (n1 ++ n2). split; [by rewrite H2, H1, app_assoc|].
    intros u [Hin|Hin]%elem_of_app.
    + destruct (Hn1 u Hin) as (Ha & Hnew & Hk & Ht).
      split; [done|]. split; [done|]. split; [by apply Hs2|].
      by rewrite Hf2.
    + destruct (Hn2 u Hin) as (Ha & Hnew & Hk & Ht).
      split; [done|]. split; [|done]. intros Hk1. apply Hnew. by apply Hs1.
Qed.

Lemma recorded_inserts_same_slice (d d' : DOM) (res : list domjson.DOMUpdate) :
  backendNodeIDs d ⊆ backendNodeIDs d' ->
  nodeTypeMapping d' = nodeTypeMapping d ->
  recorded_inserts (d, res) (d', res).
Proof.
  intros Hs Ht. split; [done|]. split; [intros; simpl; by rewrite Ht|].
  exists []. simpl. rewrite app_nil_r. split; [done|].
  intros u Hin. by apply elem_of_nil in Hin.
Qed.

Lemma recorded_inserts_frame (d d' : DOM) (sub result : list domjson.DOMUpdate) :
  recorded_inserts (d, []) (d', sub) ->
  recorded_inserts (d, result) (d', result ++ sub).
Proof.
  intros (Hs & Hf & new & Hsub & Hn). simpl in *. subst sub.
  split; [done|]. split; [done|]. by exists new.
Qed.

Lemma visit_recorded_inserts (curNode : Node)
    (backendNodeID parentNodeID prevNodeID : string) :
  respects recorded_inserts (visit curNode backendNodeID parentNodeID prevNodeID).
Proof.
  intros [d res]. unfold visit, mbind, mget, mret, on_dom, mmodify, append_result.
  simpl. destruct (decide (backendNodeID ∈ backendNodeIDs d)) as [|Hnew];
    [reflexivity|].
  assert (backendNodeIDs d ⊆ {[backendNodeID]} ∪ backendNodeIDs d) as Hsub
    by apply union_subseteq_r.
  simpl. destruct (is_script _);
    [by apply recorded_inserts_same_slice|].
  pose proof (createNodeInsertUpdate_cases backendNodeID parentNodeID prevNodeID
                curNode (set_backendNodeIDs (union {[backendNodeID]}) d)) as Hc.
  destruct (createNodeInsertUpdate _ _ _ _ _) as [d' u|d' e|p]; simpl; [|done..].
  destruct Hc as (elementType & attributes & text & _ & _ & _ & -> & ->).
  split; simpl; [done|]. split.
  - intros id Hin. apply lookup_insert_ne. by intros ->.
  - eexists [_]. split; [done|]. intros u Hin.
    apply list_elem_of_singleton in Hin as ->. simpl.
    split; [done|]. split; [done|]. split; [|apply lookup_insert_eq].
    apply elem_of_union_l. by apply elem_of_singleton.
Qed.

Lemma record_recorded_inserts (nodeID backendNodeID : string) :
  respects recorded_inserts
    (on_dom (mmodify (set_nodeIDMapping (<[nodeID := backendNodeID]>)))).
Proof. intros [d res]. simpl. by apply recorded_inserts_same_slice. Qed.

Lemma generateInitialDOMHelper_recorded_inserts (curNode : Node)
    (parentNodeID prevNodeID : string) :
  respects recorded_inserts
    (generateInitialDOMHelper curNode parentNodeID prevNodeID).
Proof.
  apply generateInitialDOMHelper_respects; try apply _.
  - apply visit_recorded_inserts.
  - apply record_recorded_inserts.
Qed.

Lemma setChildNodes_loop_recorded_inserts (nodes : list jvalue)
    (parentBackendID prevNodeID : string) (result : list domjson.DOMUpdate)
    (d0 d : DOM) :
  recorded_inserts (d0, []) (d, result) ->
  match setChildNodes_loop nodes parentBackendID prevNodeID result d with
  | Ret d' updates => recorded_inserts (d0, []) (d', updates)
  | _ => True
  end.
Proof.
  revert prevNodeID result d.
  induction nodes as [|c nodes IH]; intros q result d Hres; simpl; [done|].
  unfold mbind, lift. destruct c as [| | | | |curNode]; simpl; try done.
  pose proof (generateInitialDOMHelper_recorded_inserts curNode parentBackendID q
                (d, [])) as H.
  destruct (generateInitialDOMHelper curNode parentBackendID q (d, []))
    as [[d' sub] b|[d' sub] e|p]; [| |done];
    apply IH; (etrans; [exact Hres|]); by apply recorded_inserts_frame.
Qed.

Lemma process_walk_recorded_inserts (ev : event) (d : DOM) :
  walk_event ev ->
  match process ev d with
  | Ret d' updates => recorded_inserts (d, []) (d', updates)
  | _ => True
  end.
Proof.
  destruct ev as [rootNode|params|params|params|params]; simpl; try done; intros _.
  - unfold GenerateInitialDOM.
    pose proof (generateInitialDOMHelper_recorded_inserts rootNode "" "" (d, [])) as H.
    by destruct (generateInitialDOMHelper rootNode "" "" (d, []))
      as [[d' res] b|[d' res] e|p].
  - unfold ProcessSetChildNodes, mbind, lift, getBackendNodeID.
    destruct (getNodeIDStr params ParentID) as [pid| |]; [|done..].
    destruct (nodeIDMapping d !! pid) as [pb|]; [|done].
    destruct (assert_slice (params !! Nodes)) as [nodes| |]; [|done..].
    apply setChildNodes_loop_recorded_inserts. reflexivity.
Qed.

(** X7: every update returned by [GenerateInitialDOM] or
    [ProcessSetChildNodes] is an insert for a stable ID that the model did
    not know before the call and knows after it, and the kind the model
    records for that ID after the call is the element type of the insert.
    The call does not forget a known stable ID and does not change the kind
    recorded for one. *)
Theorem walk_records_what_it_inserts (ev : event) (d d' : DOM)
    (updates : list domjson.DOMUpdate) :
  walk_event ev ->
  process ev d = Ret d' updates ->
  (forall u, u ∈ updates ->
     domjson.action u = domjson.Insert /\
     (domjson.NodeID (domjson.node u) ∉ backendNodeIDs d) /\
     (domjson.NodeID (domjson.node u) ∈ backendNodeIDs d') /\
     kind_of d' (domjson.NodeID (domjson.node u))
     = domjson.ElementType (domjson.node u)) /\
  backendNodeIDs d ⊆ backendNodeIDs d' /\
  (forall id, id ∈ backendNodeIDs d -> kind_of d' id = kind_of d id).
Proof.
  intros Hev Hrun. pose proof (process_walk_recorded_inserts ev d Hev) as H.
  rewrite Hrun in H. destruct H as (Hs & Hf & new & Hnew & Hn).
  simpl in *. subst new. split; [|split; [done|]].
  - intros u Hin. destruct (Hn u Hin) as (Ha & Hnk & Hk & Ht).
    unfold kind_of. by rewrite Ht.
  - intros id Hin. unfold kind_of. by rewrite Hf.
Qed.

Lemma walk_records_what_it_inserts_witness :
  exists d' updates,
    process (DocumentUpdated inputs.tree_of_test) NewDOMModel = Ret d' updates /\
    forall u, u ∈ updates ->
      domjson.action u = domjson.Insert /\
      (domjson.NodeID (domjson.node u) ∉ backendNodeIDs NewDOMModel) /\
      (domjson.NodeID (domjson.node u) ∈ backendNodeIDs d') /\
      kind_of d' (domjson.NodeID (domjson.node u))
      = domjson.ElementType (domjson.node u).
Proof.
  assert (exists d' updates,
            process (DocumentUpdated inputs.tree_of_test) NewDOMModel
            = Ret d' updates)
    as (d' & updates & H) by (eexists _, _; vm_compute; reflexivity).
  exists d', updates. split; [done|].
  exact (proj1 (walk_records_what_it_inserts
                  (DocumentUpdated inputs.tree_of_test) NewDOMModel d' updates I H)).
Defined.

(** ** Kinds are of known stable IDs *)

Global Instance keeps_kinds_known_reflexive : Reflexive keeps_kinds_known.
Proof. by intros w H. Qed.

Global Instance keeps_kinds_known_transitive : Transitive keeps_kinds_known.
Proof. intros w1 w2 w3 H1 H2 H. by apply H2, H1. Qed.

Lemma visit_keeps_kinds_known (curNode : Node)
    (backendNodeID parentNodeID prevNodeID : string) :
  respects keeps_kinds_known (visit curNode backendNodeID parentNodeID prevNodeID).
Proof.
  intros [d res]. unfold visit, mbind, mget, mret, on_dom, mmodify, append_result.
  simpl. destruct (decide (backendNodeID ∈ backendNodeIDs d)) as [|Hnew];
    [reflexivity|].
  assert (keeps_kinds_known (d, res)
            (set_backendNodeIDs (union {[backendNodeID]}) d, res)) as Hmark.
  { intros Hk id Hid. simpl in *. apply elem_of_union_r. by apply Hk. }
  simpl. destruct (is_script _); [done|].
  pose proof (createNodeInsertUpdate_cases backendNodeID parentNodeID prevNodeID
                curNode (set_backendNodeIDs (union {[backendNodeID]}) d)) as Hc.
  destruct (createNodeInsertUpdate _ _ _ _ _) as [d' u|d' e|p]; simpl; [|done..].
  destruct Hc as (elementType & attributes & text & _ & _ & _ & _ & ->).
  intros Hk id. simpl. destruct (decide (id = backendNodeID)) as [->|Hne].
  - intros _. apply elem_of_union_l. by apply elem_of_singleton.
  - rewrite lookup_insert_ne by done. intros Hid.
    apply elem_of_union_r. by apply Hk.
Qed.

Lemma record_keeps_kinds_known (nodeID backendNodeID : string) :
  respects keeps_kinds_known
    (on_dom (mmodify (set_nodeIDMapping (<[nodeID := backendNodeID]>)))).
Proof. by intros [d res] H. Qed.

Lemma generateInitialDOMHelper_keeps_kinds_known (curNode : Node)
    (parentNodeID prevNodeID : string) :
  respects keeps_kinds_known
    (generateInitialDOMHelper curNode parentNodeID prevNodeID).
Proof.
  apply generateInitialDOMHelper_respects; try apply _.
  - apply visit_keeps_kinds_known.
  - apply record_keeps_kinds_known.
Qed.

Lemma setChildNodes_loop_keeps_kinds_known (nodes : list jvalue)
    (parentBackendID prevNodeID : string) (result : list domjson.DOMUpdate)
    (d : DOM) :
  kinds_known d ->
  match setChildNodes_loop nodes parentBackendID prevNodeID result d with
  | Ret d' _ | Fail d' _ => kinds_known d'
  | Crash _ => True
  end.
Proof.
  revert prevNodeID result d.
  induction nodes as [|c nodes IH]; intros q result d Hk; simpl; [done|].
  unfold mbind, lift. destruct c as [| | | | |curNode]; simpl; try done.
  pose proof (generateInitialDOMHelper_keeps_kinds_known curNode parentBackendID q
                (d, [])) as H.
  destruct (generateInitialDOMHelper curNode parentBackendID q (d, []))
    as [[d' sub] b|[d' sub] e|p]; [| |done]; apply IH; by apply H.
Qed.

Lemma process_keeps_kinds_known (ev : event) (d : DOM) :
  not_insertion ev -> kinds_known d ->
  match process ev d with
  | Ret d' _ | Fail d' _ => kinds_known d'
  | Crash _ => True
  end.
Proof.
  destruct ev as [rootNode|params|params|params|params]; simpl; try done;
    intros _ Hk.
  - unfold GenerateInitialDOM.
    pose proof (generateInitialDOMHelper_keeps_kinds_known rootNode "" "" (d, [])) as H.
    destruct (generateInitialDOMHelper rootNode "" "" (d, []))
      as [[d' res] b|[d' res] e|p]; [by apply H|by apply H|done].
  - pose proof (ProcessSetChildNodes_cases params d) as Hc.
    unfold ProcessSetChildNodes, mbind, lift, getBackendNodeID in *.
    destruct (getNodeIDStr params ParentID) as [pid| |]; [|done..].
    destruct (nodeIDMapping d !! pid) as [pb|]; [|done].
    destruct (assert_slice (params !! Nodes)) as [nodes| |]; [|done..].
    by apply setChildNodes_loop_keeps_kinds_known.
  - unfold single, mbind, mret.
    pose proof (ProcessNodeRemoval_cases params d) as H.
    destruct (ProcessNodeRemoval params d) as [d' u|d' e|p]; [| |done].
    + destruct H as (_ & pid & pb & nid & nb & _ & _ & _ & _ & _ & ->).
      intros id. simpl. intros Hid.
      destruct (decide (id = nid)) as [->|Hne].
      * rewrite lookup_delete_eq in Hid. by destruct Hid.
      * rewrite lookup_delete_ne in Hid by done.
        apply elem_of_difference. split; [by apply Hk|].
        by rewrite elem_of_singleton.
    + by destruct H as [-> _].
  - unfold single, mbind, mret.
    pose proof (ProcessNodeAttributeModification_cases params d) as H.
    destruct (ProcessNodeAttributeModification params d) as [d' u|d' e|p];
      [by destruct H as [-> _]|by destruct H as [-> _]|done].
Qed.

(** X8: on a model in which every stable ID with a recorded kind is a known
    stable ID, that remains so after any sequence of events other than
    [DOM.childNodeInserted] (tree walks, removals, attribute
    modifications), whether the calls succeed or return errors. *)
Theorem kinds_stay_known (evs : list event) (d d' : DOM) :
  Forall not_insertion evs ->
  kinds_known d ->
  model_after evs d = Some d' ->
  kinds_known d'.
Proof.
  intros Hevs. revert d.
  induction Hevs as [|ev evs Hev _ IH]; intros d Hk; simpl.
  - by intros [= <-].
  - pose proof (process_keeps_kinds_known ev d Hev Hk) as H.
    destruct (process ev d) as [d1 us|d1 e|p]; [by apply IH|by apply IH|done].
Qed.

Lemma kinds_stay_known_witness :
  exists d',
    model_after [DocumentUpdated inputs.body_div;
                 ChildNodeRemoved (inputs.removed 1 2)] NewDOMModel = Some d' /\
    kinds_known d'.
Proof.
  assert (exists d',
            model_after [DocumentUpdated inputs.body_div;
                         ChildNodeRemoved (inputs.removed 1 2)] NewDOMModel
            = Some d') as [d' H] by (eexists; vm_compute; reflexivity).
  exists d'. split; [done|].
  apply (kinds_stay_known
           [DocumentUpdated inputs.body_div; ChildNodeRemoved (inputs.removed 1 2)]
           NewDOMModel d'); [repeat constructor| |done].
  intros id. simpl. rewrite lookup_empty. by intros [? ?].
Defined.

(** ** What [ProcessNodeInsertion] returns *)

Lemma translate_if_present_stable_of (id : string) (err : error) (d : DOM) :
  match translate_if_present id err d with
  | Ret d' b => d' = d /\ stable_of d id = Some b
  | Fail d' _ => d' = d /\ stable_of d id = None
  | Crash _ => False
  end.
Proof.
  unfold translate_if_present, stable_of.
  destruct (decide (id = "")) as [->|]; [done|].
  by destruct (nodeIDMapping d !! id).
Qed.

Lemma ProcessNodeInsertion_returns (node : Node) (d d' : DOM)
    (u : domjson.DOMUpdate) :
  ProcessNodeInsertion node d = Ret d' u ->
  exists nodeDetails parentNodeID prevNodeID nodeID backendNodeID
         parentBackendID prevBackendID elementType attributes text,
    node !! NodeField = Some (JObj nodeDetails) /\
    getNodeIDStr node ParentNodeID = Ok parentNodeID /\
    stable_of d parentNodeID = Some parentBackendID /\
    getNodeIDStr node PreviousNodeID = Ok prevNodeID /\
    stable_of d prevNodeID = Some prevBackendID /\
    getNodeIDStr nodeDetails NodeID = Ok nodeID /\
    getNodeIDStr nodeDetails BackendNodeID = Ok backendNodeID /\
    nodeDetails !! NodeName = Some (JStr elementType) /\
    nodeDetails !! NodeValue = Some (JStr text) /\
    (if is_script elementType then attributes = ∅
     else getAttributes nodeDetails = Ok attributes) /\
    u = domjson.mkDOMUpdate domjson.Insert
          (domjson.mkNode backendNodeID parentBackendID prevBackendID
             elementType attributes text) /\
    d' = mkDOM (<[nodeID := backendNodeID]> (nodeIDMapping d))
               (backendNodeIDs d)
               (<[backendNodeID := elementType]> (nodeTypeMapping d)).
Proof.
  unfold ProcessNodeInsertion, mbind, lift.
  destruct (node !! NodeField) as [[| | | | |nodeDetails]|] eqn:Hnode; simpl;
    try done.
  destruct (getNodeIDStr node ParentNodeID) as [pid|e|p]; [|done..].
  pose proof (translate_if_present_stable_of pid ErrParentMissing d) as Hp.
  destruct (translate_if_present pid ErrParentMissing d) as [d1 pb|d1 e|p];
    [|done..].
  destruct Hp as [-> Hp].
  destruct (getNodeIDStr node PreviousNodeID) as [qid|e|p]; [|done..].
  pose proof (translate_if_present_stable_of qid ErrPreviousMissing d) as Hq.
  destruct (translate_if_present qid ErrPreviousMissing d) as [d1 qb|d1 e|p];
    [|done..].
  destruct Hq as [-> Hq].
  destruct (getNodeIDStr nodeDetails NodeID) as [nodeID|e|p] eqn:Hn; [|done..].
  destruct (getNodeIDStr nodeDetails BackendNodeID) as [backendNodeID|e|p] eqn:Hb;
    [|done..].
  pose proof (createNodeInsertUpdate_cases backendNodeID pb qb nodeDetails d) as Hc.
  destruct (createNodeInsertUpdate backendNodeID pb qb nodeDetails d)
    as [d2 u2|d2 e|p]; simpl; [|done..].
  destruct Hc as (elementType & attributes & text & Hname & Hval & Hattr & -> & ->).
  intros [= <- <-].
  by exists nodeDetails, pid, qid, nodeID, backendNodeID, pb, qb,
    elementType, attributes, text.
Qed.

(** X9: when [ProcessNodeInsertion] returns an update, it is the insert
    that names the node's [backendNodeId], the stable IDs that
    [nodeIDMapping] holds for [parentNodeId] and [previousNodeId] (the empty
    string for 0), the node's name and value, and its paired attributes
    (none for a script).  The model afterwards differs from the model before
    in two entries only: [nodeIDMapping] maps the node's [nodeId] to its
    [backendNodeId], and [nodeTypeMapping] maps the [backendNodeId] to the
    node's name; the set of known stable IDs is not touched. *)
Theorem ProcessNodeInsertion_update (node : Node) (d d' : DOM)
    (u : domjson.DOMUpdate) :
  ProcessNodeInsertion node d = Ret d' u ->
  exists nodeDetails parentNodeID prevNodeID nodeID backendNodeID
         parentBackendID prevBackendID elementType attributes text,
    node !! NodeField = Some (JObj nodeDetails) /\
    getNodeIDStr node ParentNodeID = Ok parentNodeID /\
    stable_of d parentNodeID = Some parentBackendID /\
    getNodeIDStr node PreviousNodeID = Ok prevNodeID /\
    stable_of d prevNodeID = Some prevBackendID /\
    getNodeIDStr nodeDetails NodeID = Ok nodeID /\
    getNodeIDStr nodeDetails BackendNodeID = Ok backendNodeID /\
    nodeDetails !! NodeName = Some (JStr elementType) /\
    nodeDetails !! NodeValue = Some (JStr text) /\
    (if is_script elementType then attributes = ∅
     else getAttributes nodeDetails = Ok attributes) /\
    u = domjson.mkDOMUpdate domjson.Insert
          (domjson.mkNode backendNodeID parentBackendID prevBackendID
             elementType attributes text) /\
    d' = mkDOM (<[nodeID := backendNodeID]> (nodeIDMapping d))
               (backendNodeIDs d)
               (<[backendNodeID := elementType]> (nodeTypeMapping d)).
Proof. apply ProcessNodeInsertion_returns. Qed.

Lemma ProcessNodeInsertion_update_witness :
  exists d' u,
    ProcessNodeInsertion (inputs.inserted 0 0 inputs.first_node) NewDOMModel
    = Ret d' u /\
    domjson.action u = domjson.Insert /\
    backendNodeIDs d' = backendNodeIDs NewDOMModel.
Proof.
  assert (exists d' u,
            ProcessNodeInsertion (inputs.inserted 0 0 inputs.first_node) NewDOMModel
            = Ret d' u) as (d' & u & H) by (eexists _, _; vm_compute; reflexivity).
  exists d', u. split; [done|].
  destruct (ProcessNodeInsertion_update
              (inputs.inserted 0 0 inputs.first_node) NewDOMModel d' u H)
    as (nd & pid & qid & nid & b & pb & qb & ty & at' & tx & _ & _ & _ & _ & _
        & _ & _ & _ & _ & _ & -> & ->).
  done.
Defined.

(** ** Inserting a node and removing it *)

(** X10: a node that [ProcessNodeInsertion] has inserted under a parent
    other than 0 (and other than the node itself) can be removed: for a
    removal payload with the same [parentNodeId] and [nodeId],
    [ProcessNodeRemoval] on the model the insertion left returns the remove
    update with the stable IDs of the insert, the protocol-to-stable mapping
    is then the earlier one without the node, and removing once more
    returns an error. *)
Theorem inserted_node_is_removable (node removal nodeDetails : Node)
    (d d1 : DOM) (u : domjson.DOMUpdate) (nodeID parentNodeID : string) :
  ProcessNodeInsertion node d = Ret d1 u ->
  node !! NodeField = Some (JObj nodeDetails) ->
  getNodeIDStr nodeDetails NodeID = Ok nodeID ->
  getNodeIDStr node ParentNodeID = Ok parentNodeID ->
  parentNodeID ≠ "" ->
  parentNodeID ≠ nodeID ->
  getNodeIDStr removal ParentNodeID = Ok parentNodeID ->
  getNodeIDStr removal NodeID = Ok nodeID ->
  exists d2,
    ProcessNodeRemoval removal d1
    = Ret d2 (createNodeRemovalUpdate (domjson.NodeID (domjson.node u))
                (domjson.ParentNodeID (domjson.node u))) /\
    nodeIDMapping d2 = delete nodeID (nodeIDMapping d) /\
    ProcessNodeRemoval removal d2 = Fail d2 (ErrNoBackendNode nodeID).
Proof.
  intros Hins Hnode Hn Hp Hp0 Hpn Hrp Hrn.
  destruct (ProcessNodeInsertion_returns node d d1 u Hins)
    as (nd & pid & qid & nid & b & pb & qb & ty & at' & tx & Hnd & Hpid & Hpb & _
        & _ & Hnid & _ & _ & _ & _ & -> & ->).
  rewrite Hnode in Hnd. injection Hnd as <-.
  rewrite Hn in Hnid. injection Hnid as <-.
  rewrite Hp in Hpid. injection Hpid as <-.
  unfold stable_of in Hpb. rewrite decide_False in Hpb by done.
  unfold ProcessNodeRemoval, mbind, lift, mret, mmodify, getBackendNodeID.
  rewrite Hrp, Hrn. simpl.
  rewrite lookup_insert_ne by done. rewrite Hpb. simpl.
  rewrite lookup_insert_eq. simpl.
  eexists. split; [reflexivity|]. simpl. split; [apply delete_insert_eq|].
  rewrite lookup_delete_ne by done.
  rewrite lookup_insert_ne by done. rewrite Hpb. simpl.
  by rewrite lookup_delete_eq.
Qed.

Lemma inserted_node_is_removable_witness :
  exists d1 u d2,
    ProcessNodeInsertion
      (inputs.inserted 4 0 (inputs.protocol_node 5 15 "div" "" [] []))
      (mkDOM {[ "4" := "14" ]} ∅ ∅) = Ret d1 u /\
    ProcessNodeRemoval (inputs.removed 4 5) d1
    = Ret d2 (createNodeRemovalUpdate "15" "14") /\
    ProcessNodeRemoval (inputs.removed 4 5) d2 = Fail d2 (ErrNoBackendNode "5").
Proof.
  assert (exists d1 u,
            ProcessNodeInsertion
              (inputs.inserted 4 0 (inputs.protocol_node 5 15 "div" "" [] []))
              (mkDOM {[ "4" := "14" ]} ∅ ∅) = Ret d1 u /\
            domjson.NodeID (domjson.node u) = "15" /\
            domjson.ParentNodeID (domjson.node u) = "14")
    as (d1 & u & H & Hn & Hp) by (eexists _, _; vm_compute; done).
  destruct (inserted_node_is_removable
              (inputs.inserted 4 0 (inputs.protocol_node 5 15 "div" "" [] []))
              (inputs.removed 4 5)
              (inputs.protocol_node 5 15 "div" "" [] [])
              (mkDOM {[ "4" := "14" ]} ∅ ∅) d1 u "5" "4" H)
    as (d2 & Hr & _ & Hr2); try (vm_compute; reflexivity); try done.
  rewrite Hn, Hp in Hr. by exists d1, u, d2.
Defined.

(** ** The parents of the inserts of a walk *)

Global Instance parents_not_script_reflexive (p : string) :
  Reflexive (parents_not_script p).
Proof.
  intros w. split; [done|]. split; [done|]. exists []. rewrite app_nil_r.
  split; [done|]. intros u Hin. by apply elem_of_nil in Hin.
Qed.

Global Instance parents_not_script_transitive (p : string) :
  Transitive (parents_not_script p).
Proof.
  intros w1 w2 w3 (Hs1 & Hf1 & n1 & H1 & Hn1) (Hs2 & Hf2 & n2 & H2 & Hn2).
  split; [by trans (backendNodeIDs w2.1)|]. split.
  - intros id Hin. rewrite Hf2 by (by apply Hs1). by apply Hf1.
  - exists (n1 ++ n2). split; [by rewrite H2, H1, app_assoc|].
    intros u [Hin|Hin]%elem_of_app.
    + destruct (Hn1 u Hin) as [Hl|[Hk Hns]]; [by left|right].
      split; [by apply Hs2|]. unfold kind_of in *. by rewrite Hf2.
    + destruct (Hn2 u Hin) as [[Hp Hnk]|Hr]; [left|by right].
      split; [done|]. intros Hk. by apply Hnk, Hs1.
Qed.

(** When the parent the walk starts with is known, every update has a
    known, non-script parent, whatever parent the relation is read for. *)
Lemma parents_not_script_known (p p' : string) (w w' : walk_state) :
  p ∈ backendNodeIDs (fst w) ->
  parents_not_script p w w' -> parents_not_script p' w w'.
Proof.
  intros Hk (Hs & Hf & new & Hnew & Hn).
  split; [done|]. split; [done|]. exists new. split; [done|].
  intros u Hin. destruct (Hn u Hin) as [[_ Hnk]|Hr]; [done|by right].
Qed.

Lemma parents_not_script_same_slice (p : string) (d d' : DOM)
    (res : list domjson.DOMUpdate) :
  backendNodeIDs d ⊆ backendNodeIDs d' ->
  nodeTypeMapping d' = nodeTypeMapping d ->
  parents_not_script p (d, res) (d', res).
Proof.
  intros Hs Ht. split; [done|]. split; [intros; simpl; by rewrite Ht|].
  exists []. simpl. rewrite app_nil_r. split; [done|].
  intros u Hin. by apply elem_of_nil in Hin.
Qed.

Lemma parents_not_script_frame (p : string) (d d' : DOM)
    (sub result : list domjson.DOMUpdate) :
  parents_not_script p (d, []) (d', sub) ->
  parents_not_script p (d, result) (d', result ++ sub).
Proof.
  intros (Hs & Hf & new & Hsub & Hn). simpl in *. subst sub.
  split; [done|]. split; [done|]. by exists new.
Qed.

Lemma visit_parents_not_script (curNode : Node) (b p q : string) :
  respects (parents_not_script p) (visit curNode b p q).
Proof.
  intros [d res]. unfold visit, mbind, mget, mret, on_dom, mmodify, append_result.
  simpl. destruct (decide (b ∈ backendNodeIDs d)) as [|Hnew]; [reflexivity|].
  assert (backendNodeIDs d ⊆ {[b]} ∪ backendNodeIDs d) as Hsub
    by apply union_subseteq_r.
  simpl. destruct (is_script _) eqn:Hscript;
    [by apply parents_not_script_same_slice|].
  pose proof (createNodeInsertUpdate_cases b p q curNode
                (set_backendNodeIDs (union {[b]}) d)) as Hc.
  destruct (createNodeInsertUpdate _ _ _ _ _) as [d' u|d' e|pa]; simpl; [|done..].
  destruct Hc as (elementType & attributes & text & _ & _ & _ & -> & ->).
  split; simpl; [done|]. split.
  - intros id Hin. apply lookup_insert_ne. by intros ->.
  - eexists [_]. split; [done|]. intros u Hin.
    apply list_elem_of_singleton in Hin as ->. simpl.
    destruct (decide (p ∈ backendNodeIDs d)) as [Hk|Hnk]; [right|by left].
    split; [by apply elem_of_union_r|].
    unfold kind_of in *. simpl in *.
    rewrite lookup_insert_ne by (by intros ->). done.
Qed.

Lemma record_parents_not_script (p nodeID backendNodeID : string) :
  respects (parents_not_script p)
    (on_dom (mmodify (set_nodeIDMapping (<[nodeID := backendNodeID]>)))).
Proof. intros [d res]. simpl. by apply parents_not_script_same_slice. Qed.

Lemma walk_children_parents_not_script (cs : list jvalue) :
  Forall (fun c => forall p q,
            respects (parents_not_script p) (walk_value c p q)) cs ->
  forall p q,
    respects (parents_not_script p) (walk_children (map walk_value cs) p q).
Proof.
  induction 1 as [|c cs Hc _ IH]; intros p q; simpl.
  - apply respects_mret. apply _.
  - apply respects_mbind; [apply _..|apply Hc|]. intros a. apply IH.
Qed.

Lemma walk_value_parents_not_script (c : jvalue) (p q : string) :
  respects (parents_not_script p) (walk_value c p q).
Proof.
  revert p q. induction c as [c IH] using jvalue_tree_ind. intros p q.
  destruct c as [| | | | |curNode]; try (intros ?; exact I).
  rewrite walk_value_object, generateInitialDOMHelper_unfold.
  apply respects_mbind; [apply _..|apply respects_lift; apply _|]. intros b.
  apply respects_mbind; [apply _..|apply respects_lift; apply _|]. intros n.
  intros w. unfold mbind at 1.
  pose proof (visit_parents_not_script curNode b p q w) as Hv.
  pose proof (visit_cases curNode b p q w) as Hk.
  destruct (visit curNode b p q w) as [wv []|wv e|pa]; [|done..].
  destruct Hk as (Hbin & _ & _).
  match goal with
  | |- match ?m ?x with _ => _ end =>
      assert (respects (parents_not_script b) m) as Hrest;
      [|specialize (Hrest x); destruct (m x) as [w' r|w' e|pa']; [| |done];
        (etrans; [exact Hv|]; by apply (parents_not_script_known b))]
  end.
  apply respects_mbind; [apply _..| |].
  - destruct (curNode !! Children) as [[| | | |children|]|] eqn:Hc;
      try (apply respects_mret; apply _); try (apply respects_lift; apply _).
    apply respects_mbind; [apply _..| |intros; apply respects_mret; apply _].
    apply walk_children_parents_not_script. apply Forall_forall.
    intros c Hin p' q'. by eapply IH.
  - intros _. apply respects_mbind; [apply _..|apply record_parents_not_script|].
    intros _. apply respects_mret. apply _.
Qed.

Lemma setChildNodes_loop_parents_not_script (nodes : list jvalue)
    (parentBackendID prevNodeID : string) (result : list domjson.DOMUpdate)
    (d0 d : DOM) :
  parents_not_script parentBackendID (d0, []) (d, result) ->
  match setChildNodes_loop nodes parentBackendID prevNodeID result d with
  | Ret d' updates => parents_not_script parentBackendID (d0, []) (d', updates)
  | _ => True
  end.
Proof.
  revert prevNodeID result d.
  induction nodes as [|c nodes IH]; intros q result d Hres; simpl; [done|].
  unfold mbind, lift. destruct c as [| | | | |curNode]; simpl; try done.
  pose proof (walk_value_parents_not_script (JObj curNode) parentBackendID q
                (d, [])) as H.
  rewrite walk_value_object in H.
  destruct (generateInitialDOMHelper curNode parentBackendID q (d, []))
    as [[d' sub] b|[d' sub] e|p]; [| |done];
    apply IH; (etrans; [exact Hres|]); by apply parents_not_script_frame.
Qed.

(** X11: every insert that [GenerateInitialDOM] returns below the top level
    (its parent ID is not empty) names a parent that the model left by the
    call knows and whose recorded kind, in that model, is not script: the
    walk emits no direct child of an element it has inserted as a script. *)
Theorem GenerateInitialDOM_parents_not_script (rootNode : Node) (d d' : DOM)
    (updates : list domjson.DOMUpdate) (u : domjson.DOMUpdate) :
  GenerateInitialDOM rootNode d = Ret d' updates ->
  u ∈ updates ->
  domjson.ParentNodeID (domjson.node u) ≠ "" ->
  domjson.ParentNodeID (domjson.node u) ∈ backendNodeIDs d' /\
  is_script (kind_of d' (domjson.ParentNodeID (domjson.node u))) = false.
Proof.
  unfold GenerateInitialDOM. intros Hrun Hin Hp.
  pose proof (walk_value_parents_not_script (JObj rootNode) "" "" (d, [])) as H.
  rewrite walk_value_object in H.
  destruct (generateInitialDOMHelper rootNode "" "" (d, []))
    as [[d1 res] b|[d1 res] e|p]; [|done..].
  injection Hrun as -> ->.
  destruct H as (_ & _ & new & Hnew & Hn). simpl in *. subst new.
  by destruct (Hn u Hin) as [[? _]|?].
Qed.

Lemma GenerateInitialDOM_parents_not_script_witness :
  exists d' updates u,
    GenerateInitialDOM inputs.script_span_text NewDOMModel = Ret d' updates /\
    u ∈ updates /\
    domjson.ParentNodeID (domjson.node u) = "2" /\
    is_script (kind_of d' "2") = false.
Proof.
  assert (exists d' updates u rest,
            GenerateInitialDOM inputs.script_span_text NewDOMModel = Ret d' updates /\
            updates = rest ++ [u] /\
            domjson.ParentNodeID (domjson.node u) = "2")
    as (d' & updates & u & rest & H & Hu & Hp)
    by (eexists _, _, _, [_]; vm_compute; done).
  exists d', updates, u. split; [done|].
  assert (u ∈ updates) as Hin
    by (rewrite Hu; apply elem_of_app; right; by apply list_elem_of_singleton).
  split; [done|]. split; [done|]. rewrite <- Hp.
  apply (GenerateInitialDOM_parents_not_script inputs.script_span_text
           NewDOMModel d' updates u H Hin).
  by rewrite Hp.
Defined.

(** X12: when the stable ID of the parent that [ProcessSetChildNodes] is
    called for is a known stable ID, every insert the call returns names a
    parent that the model left by the call knows and whose recorded kind, in
    that model, is not script; without that condition this holds for the
    inserts whose parent is not the parent of the call. *)
Theorem ProcessSetChildNodes_parents_not_script (node : Node) (d d' : DOM)
    (updates : list domjson.DOMUpdate) (u : domjson.DOMUpdate)
    (parentNodeID parentBackendID : string) :
  ProcessSetChildNodes node d = Ret d' updates ->
  getNodeIDStr node ParentID = Ok parentNodeID ->
  nodeIDMapping d !! parentNodeID = Some parentBackendID ->
  u ∈ updates ->
  parentBackendID ∈ backendNodeIDs d \/
  domjson.ParentNodeID (domjson.node u) ≠ parentBackendID ->
  domjson.ParentNodeID (domjson.node u) ∈ backendNodeIDs d' /\
  is_script (kind_of d' (domjson.ParentNodeID (domjson.node u))) = false.
Proof.
  unfold ProcessSetChildNodes, mbind, lift, getBackendNodeID.
  intros Hrun Hg Hm Hin Hp. rewrite Hg in Hrun. simpl in Hrun.
  rewrite Hm in Hrun.
  destruct (assert_slice (node !! Nodes)) as [nodes| |]; [|done..].
  pose proof (setChildNodes_loop_parents_not_script nodes parentBackendID ""
                [] d d) as H.
  rewrite Hrun in H.
  destruct H as (_ & _ & new & Hnew & Hn); [reflexivity|].
  simpl in *. subst new.
  destruct (Hn u Hin) as [[? ?]|?]; [|done]. by destruct Hp.
Qed.

Lemma ProcessSetChildNodes_parents_not_script_witness :
  exists d' updates u,
    ProcessSetChildNodes
      (<[ParentID := inputs.num 1]>
         (<[Nodes := JArr [JObj (inputs.protocol_node 2 12 "div" "" [] [])]]> ∅))
      (mkDOM {[ "1" := "11" ]} {[ "11" ]} {[ "11" := "body" ]})
    = Ret d' updates /\
    u ∈ updates /\
    domjson.ParentNodeID (domjson.node u) = "11" /\
    is_script (kind_of d' "11") = false.
Proof.
  assert (exists d' updates u,
            ProcessSetChildNodes
              (<[ParentID := inputs.num 1]>
                 (<[Nodes := JArr [JObj (inputs.protocol_node 2 12 "div" "" [] [])]]> ∅))
              (mkDOM {[ "1" := "11" ]} {[ "11" ]} {[ "11" := "body" ]})
            = Ret d' updates /\
            updates = [u] /\
            domjson.ParentNodeID (domjson.node u) = "11")
    as (d' & updates & u & H & Hu & Hp)
    by (eexists _, _, _; vm_compute; done).
  exists d', updates, u. split; [done|].
  assert (u ∈ updates) as Hin by (rewrite Hu; by apply list_elem_of_singleton).
  split; [done|]. split; [done|]. rewrite <- Hp.
  apply (ProcessSetChildNodes_parents_not_script
           (<[ParentID := inputs.num 1]>
              (<[Nodes := JArr [JObj (inputs.protocol_node 2 12 "div" "" [] [])]]> ∅))
           (mkDOM {[ "1" := "11" ]} {[ "11" ]} {[ "11" := "body" ]})
           d' updates u "1" "11" H); [vm_compute; reflexivity|done|done|].
  left. simpl. by apply elem_of_singleton.
Defined.

(** ** Children delivered for a script *)

Lemma setChildNodes_loop_leaves_under_script (nodes : list jvalue)
    (parentBackendID prevNodeID : string) (result : list domjson.DOMUpdate)
    (d : DOM) :
  Forall leaf_node nodes ->
  is_script (kind_of d parentBackendID) = true ->
  exists d',
    setChildNodes_loop nodes parentBackendID prevNodeID result d = Ret d' result /\
    nodeTypeMapping d' = nodeTypeMapping d.
Proof.
  intros Hleaves. revert prevNodeID d.
  induction Hleaves as [|c nodes Hc _ IH]; intros q d Hs; simpl; [by exists d|].
  destruct Hc as (cn & b & n & -> & Hb & Hn & Hch).
  unfold mbind, lift. simpl.
  destruct (generateInitialDOMHelper_leaf_under_script cn parentBackendID q b n
              d [] Hb Hn Hch Hs) as (d1 & -> & Hk & _).
  rewrite Hb, app_nil_r.
  destruct (IH b d1) as (d' & Hrun & Hk').
  { unfold kind_of in *. by rewrite Hk. }
  exists d'. split; [done|]. by rewrite Hk'.
Qed.

(** X13: when the kind recorded for the parent's stable ID is script
    (however the script came into the model, a walk or
    [ProcessNodeInsertion]) and the delivered children have no children of
    their own, [ProcessSetChildNodes] returns no update at all and changes no
    recorded kind. *)
Theorem ProcessSetChildNodes_under_script (node : Node) (d : DOM)
    (parentNodeID parentBackendID : string) (nodes : list jvalue) :
  getNodeIDStr node ParentID = Ok parentNodeID ->
  nodeIDMapping d !! parentNodeID = Some parentBackendID ->
  is_script (kind_of d parentBackendID) = true ->
  node !! Nodes = Some (JArr nodes) ->
  Forall leaf_node nodes ->
  exists d',
    ProcessSetChildNodes node d = Ret d' [] /\
    nodeTypeMapping d' = nodeTypeMapping d.
Proof.
  intros Hp Hm Hs Hnodes Hleaves.
  unfold ProcessSetChildNodes, mbind, lift, getBackendNodeID.
  rewrite Hp. simpl. rewrite Hm, Hnodes. simpl.
  by apply setChildNodes_loop_leaves_under_script.
Qed.

Lemma ProcessSetChildNodes_under_script_witness :
  exists d1 u d2,
    ProcessNodeInsertion (inputs.inserted 0 0 inputs.empty_script) NewDOMModel
    = Ret d1 u /\
    ProcessSetChildNodes
      (<[ParentID := inputs.num 1]>
         (<[Nodes := JArr [JObj inputs.script_text]]> ∅)) d1 = Ret d2 [].
Proof.
  assert (exists d1 u,
            ProcessNodeInsertion (inputs.inserted 0 0 inputs.empty_script)
              NewDOMModel = Ret d1 u /\
            nodeIDMapping d1 !! "1" = Some "1" /\
            is_script (kind_of d1 "1") = true)
    as (d1 & u & H & Hm & Hs) by (eexists _, _; vm_compute; done).
  destruct (ProcessSetChildNodes_under_script
              (<[ParentID := inputs.num 1]>
                 (<[Nodes := JArr [JObj inputs.script_text]]> ∅))
              d1 "1" "1" [JObj inputs.script_text])
    as (d2 & Hrun & _); [vm_compute; reflexivity|done|done|reflexivity| |].
  - constructor; [|constructor].
    exists inputs.script_text, "2", "2".
    split; [done|]. split; [vm_compute; reflexivity|].
    split; [vm_compute; reflexivity|]. right. vm_compute. reflexivity.
  - by exists d1, u, d2.
Defined.

(** ** New childless nodes delivered for a parent *)

Lemma generateInitialDOMHelper_new_leaf (curNode : Node)
    (parentNodeID prevNodeID backendNodeID nodeID : string) (d : DOM) :
  getNodeIDStr curNode BackendNodeID = Ok backendNodeID ->
  getNodeIDStr curNode NodeID = Ok nodeID ->
  curNode !! Children = None \/ curNode !! Children = Some (JArr []) ->
  insertable curNode ->
  backendNodeID ∉ backendNodeIDs d ->
  is_script (kind_of d parentNodeID) = false ->
  exists elementType attributes text,
    generateInitialDOMHelper curNode parentNodeID prevNodeID (d, [])
    = Ret (mkDOM (<[nodeID := backendNodeID]> (nodeIDMapping d))
                 ({[ backendNodeID ]} ∪ backendNodeIDs d)
                 (<[backendNodeID := elementType]> (nodeTypeMapping d)),
           [insert_update backendNodeID parentNodeID prevNodeID
              elementType attributes text])
          backendNodeID.
Proof.
  intros Hb Hn Hc Hi Hnew Hs. rewrite generateInitialDOMHelper_unfold.
  unfold mbind at 1. rewrite Hb. simpl.
  unfold mbind at 1. rewrite Hn. simpl.
  assert (exists elementType attributes text,
            visit curNode backendNodeID parentNodeID prevNodeID (d, [])
            = Ret (mkDOM (nodeIDMapping d) ({[ backendNodeID ]} ∪ backendNodeIDs d)
                         (<[backendNodeID := elementType]> (nodeTypeMapping d)),
                   [insert_update backendNodeID parentNodeID prevNodeID
                      elementType attributes text]) tt)
    as (elementType & attributes & text & Hv).
  { unfold visit, mbind, mget, mret, on_dom, mmodify, append_result. simpl.
    rewrite decide_False by done. simpl.
    unfold kind_of in *. simpl. rewrite Hs.
    pose proof (createNodeInsertUpdate_cases backendNodeID parentNodeID
                  prevNodeID curNode
                  (set_backendNodeIDs (union {[backendNodeID]}) d)) as Hcase.
    destruct (createNodeInsertUpdate _ _ _ _ _) as [d' u|d' e|p]; simpl;
      [|done..].
    destruct Hcase as (elementType & attributes & text & _ & _ & _ & -> & ->).
    by exists elementType, attributes, text. }
  exists elementType, attributes, text.
  unfold mbind at 1. rewrite Hv.
  by destruct Hc as [Hc|Hc]; rewrite Hc.
Qed.

Lemma setChildNodes_loop_new_leaves (nodes : list jvalue) (bs : list string)
    (parentBackendID : string) :
  Forall2 new_leaf nodes bs ->
  forall (prevNodeID : string) (result : list domjson.DOMUpdate) (d : DOM),
    NoDup bs ->
    (forall b, b ∈ bs -> b ∉ backendNodeIDs d) ->
    parentBackendID ∈ backendNodeIDs d ->
    is_script (kind_of d parentBackendID) = false ->
    exists d' new,
      setChildNodes_loop nodes parentBackendID prevNodeID result d
      = Ret d' (result ++ new) /\
      Forall (fun u => domjson.action u = domjson.Insert /\
                       domjson.ParentNodeID (domjson.node u) = parentBackendID)
        new /\
      map (fun u => domjson.NodeID (domjson.node u)) new = bs /\
      map (fun u => domjson.PreviousNodeID (domjson.node u)) new
      = take (length bs) (prevNodeID :: bs).
Proof.
  induction 1 as [|c b nodes bs Hc _ IH]; intros q result d Hnd Hfresh Hp Hs.
  { exists d, []. simpl. by rewrite app_nil_r. }
  destruct Hc as (curNode & nodeID & -> & Hb & Hn & Hch & Hi).
  apply NoDup_cons in Hnd as [Hnin Hnd].
  assert (b ∉ backendNodeIDs d) as Hnew by (apply Hfresh, list_elem_of_here).
  destruct (generateInitialDOMHelper_new_leaf curNode parentBackendID q b nodeID d
              Hb Hn Hch Hi Hnew Hs) as (elementType & attributes & text & Hrun).
  simpl. unfold mbind, lift. simpl. rewrite Hrun, Hb.
  destruct (IH b
              (result ++ [insert_update b parentBackendID q elementType attributes text])
              (mkDOM (<[nodeID := b]> (nodeIDMapping d))
                     ({[ b ]} ∪ backendNodeIDs d)
                     (<[b := elementType]> (nodeTypeMapping d))))
    as (d' & new & Hloop & Hall & Hids & Hprevs); simpl.
  - done.
  - intros b' Hin [->%elem_of_singleton|Hk]%elem_of_union; [done|].
    by apply (Hfresh b'); [apply list_elem_of_further|].
  - by apply elem_of_union_r.
  - unfold kind_of in *. simpl. rewrite lookup_insert_ne; [done|].
    by intros ->.
  - exists d', (insert_update b parentBackendID q elementType attributes text :: new).
    split; [by rewrite Hloop, <- app_assoc|].
    split; [by constructor|]. simpl. by rewrite Hids, Hprevs.
Qed.

(** X21: when the children delivered to [ProcessSetChildNodes] are new
    childless nodes (their stable IDs are pairwise different and not yet
    known) that have a string name and value and pairable attributes, and
    the parent's stable ID is known with a recorded kind that is not script,
    the call returns exactly one insert per child, in the order of the
    children: each names the parent's stable ID, and each names as previous
    sibling the stable ID of the child before it, the first one the empty
    ID. *)
Theorem ProcessSetChildNodes_new_leaves (node : Node) (d : DOM)
    (parentNodeID parentBackendID : string) (nodes : list jvalue)
    (bs : list string) :
  getNodeIDStr node ParentID = Ok parentNodeID ->
  nodeIDMapping d !! parentNodeID = Some parentBackendID ->
  parentBackendID ∈ backendNodeIDs d ->
  is_script (kind_of d parentBackendID) = false ->
  node !! Nodes = Some (JArr nodes) ->
  Forall2 new_leaf nodes bs ->
  NoDup bs ->
  (forall b, b ∈ bs -> b ∉ backendNodeIDs d) ->
  exists d' updates,
    ProcessSetChildNodes node d = Ret d' updates /\
    Forall (fun u => domjson.action u = domjson.Insert /\
                     domjson.ParentNodeID (domjson.node u) = parentBackendID)
      updates /\
    map (fun u => domjson.NodeID (domjson.node u)) updates = bs /\
    map (fun u => domjson.PreviousNodeID (domjson.node u)) updates
    = take (length bs) ("" :: bs).
Proof.
  intros Hp Hm Hk Hs Hnodes Hleaves Hnd Hfresh.
  unfold ProcessSetChildNodes, mbind, lift, getBackendNodeID.
  rewrite Hp. simpl. rewrite Hm, Hnodes. simpl.
  destruct (setChildNodes_loop_new_leaves nodes bs parentBackendID Hleaves
              "" [] d Hnd Hfresh Hk Hs) as (d' & new & Hloop & H).
  by exists d', new.
Qed.

Lemma ProcessSetChildNodes_new_leaves_witness :
  exists d' updates,
    ProcessSetChildNodes
      (<[ParentID := inputs.num 1]>
         (<[Nodes := JArr [JObj (inputs.protocol_node 2 12 "div" "" [] []);
                           JObj (inputs.protocol_node 3 13 "p" "" [] [])]]> ∅))
      (mkDOM {[ "1" := "11" ]} {[ "11" ]} {[ "11" := "body" ]})
    = Ret d' updates /\
    map (fun u => domjson.NodeID (domjson.node u)) updates = ["12"; "13"] /\
    map (fun u => domjson.PreviousNodeID (domjson.node u)) updates = [""; "12"].
Proof.
  destruct (ProcessSetChildNodes_new_leaves
              (<[ParentID := inputs.num 1]>
                 (<[Nodes := JArr [JObj (inputs.protocol_node 2 12 "div" "" [] []);
                                   JObj (inputs.protocol_node 3 13 "p" "" [] [])]]> ∅))
              (mkDOM {[ "1" := "11" ]} {[ "11" ]} {[ "11" := "body" ]})
              "1" "11"
              [JObj (inputs.protocol_node 2 12 "div" "" [] []);
               JObj (inputs.protocol_node 3 13 "p" "" [] [])]
              ["12"; "13"])
    as (d' & updates & Hrun & _ & Hids & Hprevs).
  - vm_compute. reflexivity.
  - reflexivity.
  - simpl. by apply elem_of_singleton.
  - reflexivity.
  - reflexivity.
  - repeat constructor;
      (eexists _, _; split; [reflexivity|]; split; [vm_compute; reflexivity|];
       split; [vm_compute; reflexivity|]; split; [right; reflexivity|];
       eexists _, _; split; [reflexivity|]; split; [reflexivity|];
       intros _; by eexists).
  - apply (bool_decide_unpack _). vm_compute. exact I.
  - intros b Hin Hk. simpl in Hk. apply elem_of_singleton in Hk as ->.
    revert Hin. apply (bool_decide_unpack _). vm_compute. exact I.
  - by exists d', updates.
Defined.

(** ** The walk reaches every node *)

Global Instance mapping_grows_reflexive : Reflexive mapping_grows.
Proof. by intros w. Qed.

Global Instance mapping_grows_transitive : Transitive mapping_grows.
Proof.
  intros w1 w2 w3 [Hm1 Hk1] [Hm2 Hk2]. split.
  - intros nodeID H. by apply Hm2, Hm1.
  - by trans (backendNodeIDs w2.1).
Qed.

Lemma visit_mapping_grows (curNode : Node) (b p q : string) :
  respects mapping_grows (visit curNode b p q).
Proof.
  intros w. pose proof (visit_cases curNode b p q w) as H.
  destruct (visit curNode b p q w) as [w' []|w' e|pa]; [|done..].
  destruct H as (_ & Hk & Hm). split.
  - intros nodeID. by rewrite Hm.
  - rewrite Hk. apply union_subseteq_r.
Qed.

Lemma record_mapping_grows (nodeID backendNodeID : string) :
  respects mapping_grows
    (on_dom (mmodify (set_nodeIDMapping (<[nodeID := backendNodeID]>)))).
Proof.
  intros [d res]. simpl. split; [|done]. simpl. intros n Hn.
  destruct (decide (n = nodeID)) as [->|Hne].
  - by rewrite lookup_insert_eq.
  - by rewrite lookup_insert_ne.
Qed.

Lemma walk_value_mapping_grows (c : jvalue) (p q : string) :
  respects mapping_grows (walk_value c p q).
Proof.
  apply walk_value_respects; try apply _.
  - apply visit_mapping_grows.
  - apply record_mapping_grows.
Qed.

Lemma walk_children_mapping_grows (cs : list jvalue) (p q : string) :
  respects mapping_grows (walk_children (map walk_value cs) p q).
Proof.
  apply walk_children_respects; try apply _.
  apply Forall_fmap, Forall_forall. intros c _ p' q'.
  apply walk_value_mapping_grows.
Qed.

Lemma resolved_mono (w w' : walk_state) (x : Node) :
  mapping_grows w w' -> resolved (fst w) x -> resolved (fst w') x.
Proof.
  intros [Hm Hk] (n & b & Hn & Hs & Hb & Hin).
  exists n, b. split; [done|]. split; [by apply Hm|]. split; [done|by apply Hk].
Qed.

Lemma walk_children_covers (cs : list jvalue) :
  Forall (fun c =>
    forall p q w w' b, walk_value c p q w = Ret w' b ->
    forall x, node_of x c -> resolved (fst w') x) cs ->
  forall p q w w' r, walk_children (map walk_value cs) p q w = Ret w' r ->
  forall c x, c ∈ cs -> node_of x c -> resolved (fst w') x.
Proof.
  induction 1 as [|c0 cs Hc0 _ IH]; intros p q w w' r Hrun c x Hin Hx.
  { by apply elem_of_nil in Hin. }
  simpl in Hrun. unfold mbind in Hrun.
  destruct (walk_value c0 p q w) as [w1 r1|?|?] eqn:H0; [|done..].
  apply elem_of_cons in Hin as [->|Hin].
  - pose proof (walk_children_mapping_grows cs p r1 w1) as Hg.
    rewrite Hrun in Hg. eapply resolved_mono; [exact Hg|]. by eapply Hc0.
  - by eapply IH.
Qed.

Lemma walk_value_covers (c : jvalue) :
  forall p q w w' b, walk_value c p q w = Ret w' b ->
  forall x, node_of x c -> resolved (fst w') x.
Proof.
  induction c as [c IH] using jvalue_tree_ind.
  intros p q w w' b Hrun x Hx.
  destruct c as [| | | | |curNode]; try done.
  rewrite walk_value_object, generateInitialDOMHelper_unfold in Hrun.
  unfold mbind at 1 in Hrun.
  destruct (lift (getNodeIDStr curNode BackendNodeID) w) as [w0 b0|?|?] eqn:Hb;
    [|done..].
  assert (w0 = w /\ getNodeIDStr curNode BackendNodeID = Ok b0) as [-> Hb0].
  { unfold lift in Hb. destruct (getNodeIDStr curNode BackendNodeID); by inversion Hb. }
  unfold mbind at 1 in Hrun.
  destruct (lift (getNodeIDStr curNode NodeID) w) as [w0 n0|?|?] eqn:Hn;
    [|done..].
  assert (w0 = w /\ getNodeIDStr curNode NodeID = Ok n0) as [-> Hn0].
  { unfold lift in Hn. destruct (getNodeIDStr curNode NodeID); by inversion Hn. }
  unfold mbind at 1 in Hrun.
  pose proof (visit_cases curNode b0 p q w) as Hv.
  destruct (visit curNode b0 p q w) as [wv []|?|?] eqn:Hvis; [|done..].
  destruct Hv as (Hbin & _ & _).
  unfold mbind at 1 in Hrun.
  match type of Hrun with
  | match ?m wv with _ => _ end = _ =>
      destruct (m wv) as [wc []|?|?] eqn:Hch; [|done..]
  end.
  unfold mbind at 1 in Hrun. simpl in Hrun. unfold mret in Hrun.
  injection Hrun as <- <-.
  assert (mapping_grows wv wc) as Hg.
  { destruct (curNode !! Children) as [[| | | |children|]|] eqn:Hc;
      try (unfold mret in Hch; by injection Hch as <-); try done.
    pose proof (walk_children_mapping_grows children b0 "" wv) as Hg.
    unfold mbind in Hch.
    destruct (walk_children (map walk_value children) b0 "" wv)
      as [wc' r|?|?] eqn:Hwc; [|done..].
    unfold mret in Hch. injection Hch as Heq. by subst wc'. }
  assert (mapping_grows wc (set_nodeIDMapping <[n0:=b0]> wc.1, wc.2)) as Hrec.
  { pose proof (record_mapping_grows n0 b0 wc) as H. by destruct wc. }
  inversion Hx as [Heq|m children c Hc Hin Hxc Heq]; subst.
  - exists n0, b0. simpl. rewrite lookup_insert_eq.
    split; [done|]. split; [done|]. split; [done|]. by apply Hg.
  - apply (resolved_mono wc (set_nodeIDMapping <[n0:=b0]> wc.1, wc.2)); [done|].
    rewrite Hc in Hch. unfold mbind in Hch.
    destruct (walk_children (map walk_value children) b0 "" wv)
      as [wc' r|?|?] eqn:Hwc; [|done..].
    unfold mret in Hch. injection Hch as Heq. subst wc'.
    eapply (walk_children_covers children); [|exact Hwc|exact Hin|exact Hxc].
    apply Forall_forall. intros c' Hin'. by eapply IH.
Qed.

(** X14: when [GenerateInitialDOM] returns for a tree, the model it leaves
    can resolve every node of the tree, the root and all that lies below it
    through the [children] lists: the node's protocol ID has an entry in
    [nodeIDMapping] and its stable ID is a known stable ID, also for the
    nodes for which no insert was emitted. *)
Theorem GenerateInitialDOM_resolves_tree (rootNode x : Node) (d d' : DOM)
    (updates : list domjson.DOMUpdate) :
  GenerateInitialDOM rootNode d = Ret d' updates ->
  node_of x (JObj rootNode) ->
  resolved d' x.
Proof.
  unfold GenerateInitialDOM. intros Hrun Hx.
  destruct (generateInitialDOMHelper rootNode "" "" (d, []))
    as [[d1 res] b|[??] ?|?] eqn:Hh; [|done..].
  injection Hrun as -> ->.
  by apply (walk_value_covers (JObj rootNode) "" "" (d, []) (d', updates) b Hh x).
Qed.

Lemma GenerateInitialDOM_resolves_tree_witness :
  exists d' updates,
    GenerateInitialDOM inputs.body_div NewDOMModel = Ret d' updates /\
    resolved d' (inputs.protocol_node 2 12 "div" "" [] []).
Proof.
  assert (exists d' updates,
            GenerateInitialDOM inputs.body_div NewDOMModel = Ret d' updates)
    as (d' & updates & H) by (eexists _, _; vm_compute; reflexivity).
  exists d', updates. split; [done|].
  apply (GenerateInitialDOM_resolves_tree inputs.body_div
           (inputs.protocol_node 2 12 "div" "" [] []) NewDOMModel d' updates H).
  apply (node_of_child _ inputs.body_div
           [JObj (inputs.protocol_node 2 12 "div" "" [] [])]
           (JObj (inputs.protocol_node 2 12 "div" "" [] []))).
  - reflexivity.
  - by apply list_elem_of_singleton.
  - constructor.
Defined.

(** ** What the batch sanitizer appends *)

Lemma append_assoc (a b c : string) : (a +:+ b) +:+ c = a +:+ (b +:+ c).
Proof.
  induction a as [|x a IH]; [done|].
  change (String x ((a +:+ b) +:+ c) = String x (a +:+ (b +:+ c))).
  by rewrite IH.
Qed.

Lemma append_empty_r (a : string) : a +:+ "" = a.
Proof.
  induction a as [|x a IH]; [done|].
  change (String x (a +:+ "") = String x a). by rewrite IH.
Qed.

Lemma strip_event_handlers_no_event_handler (tk : html.Token) :
  no_event_handler (hdpreviews.strip_event_handlers tk).
Proof.
  unfold no_event_handler, hdpreviews.strip_event_handlers. simpl.
  apply Forall_forall. intros attr Hin.
  apply list_elem_of_filter in Hin as [Hk _].
  by destruct (handlerutils.IsEventHandler (html.Key attr)).
Qed.

Section sanitizer_pieces.
Variable token_String : html.Token -> string.
Variable UnescapeString : string -> string.

Lemma removeScriptTags_loop_response (tokens : list html.Token) (response : string)
    (firstToken lastTokenWasScript lastTokenWasStyle : bool) :
  hdpreviews.removeScriptTags_loop token_String UnescapeString tokens response
    firstToken lastTokenWasScript lastTokenWasStyle
  = response +:+
    hdpreviews.removeScriptTags_loop token_String UnescapeString tokens ""
      firstToken lastTokenWasScript lastTokenWasStyle.
Proof.
  revert response firstToken lastTokenWasScript lastTokenWasStyle.
  induction tokens as [|tk tokens IH]; intros r f s st; simpl.
  - by rewrite append_empty_r.
  - repeat case_match; try apply IH;
      match goal with
      | |- context [hdpreviews.removeScriptTags_loop _ _ _ (r +:+ ?x) ?f' ?s' ?st'] =>
          change ("" +:+ x) with x;
          rewrite (IH (r +:+ x) f' s' st'), (IH x f' s' st')
      end; by rewrite append_assoc.
Qed.

Lemma removeScriptTags_loop_pieces (tokens : list html.Token) (response : string)
    (firstToken lastTokenWasScript lastTokenWasStyle : bool) :
  exists pieces,
    hdpreviews.removeScriptTags_loop token_String UnescapeString tokens response
      firstToken lastTokenWasScript lastTokenWasStyle
    = response +:+ concat_all (map (rendered token_String UnescapeString) pieces) /\
    sublist (map fst pieces) (map hdpreviews.strip_event_handlers tokens) /\
    Forall sanitized_piece pieces.
Proof.
  revert response firstToken lastTokenWasScript lastTokenWasStyle.
  induction tokens as [|tk tokens IH]; intros r f s st; simpl.
  { exists []. simpl. by rewrite append_empty_r. }
  pose proof (strip_event_handlers_no_event_handler tk) as Hno.
  destruct (f && html.is_text (html.Type_ tk)) eqn:Hfirst.
  { destruct (IH (r +:+ UnescapeString (token_String (hdpreviews.strip_event_handlers tk)))
                f s st) as (pieces & Hout & Hsub & Hall).
    exists ((hdpreviews.strip_event_handlers tk, true) :: pieces).
    split; [by rewrite Hout, append_assoc|].
    split; [by apply sublist_skip|].
    apply andb_true_iff in Hfirst as [_ Htext].
    constructor; [|done]. split; [done|]. split; [by left|done]. }
  destruct (s && html.is_text (html.Type_ tk)) eqn:Hskip.
  { destruct (IH r false s st) as (pieces & Hout & Hsub & Hall).
    exists pieces. split; [done|]. split; [by apply sublist_cons|done]. }
  destruct (html.is_script_atom (html.DataAtom tk)) eqn:Hscript.
  { destruct (IH r false (html.is_start_tag (html.Type_ tk) && true)
                (html.is_start_tag (html.Type_ tk) &&
                 html.is_style_atom (html.DataAtom tk)))
      as (pieces & Hout & Hsub & Hall).
    exists pieces. split; [done|]. split; [by apply sublist_cons|done]. }
  match goal with
  | |- context [hdpreviews.removeScriptTags_loop _ _ tokens (r +:+ ?x) ?f' ?s' ?st'] =>
      destruct (IH (r +:+ x) f' s' st') as (pieces & Hout & Hsub & Hall)
  end.
  exists ((hdpreviews.strip_event_handlers tk,
           st && html.is_text (html.Type_ tk)) :: pieces).
  split; [|split; [by apply sublist_skip|]].
  - rewrite Hout, append_assoc. simpl. unfold rendered at 2. simpl.
    by destruct (st && html.is_text (html.Type_ tk)).
  - constructor; [|done]. split; [done|]. split; [by right|].
    simpl. by intros [_ ?]%andb_true_iff.
Qed.

End sanitizer_pieces.

(** X15: when [removeScriptTags] returns a string, that string is made of
    tokens of the document, in their order, each with its event-handler
    attributes (keys beginning with "on") stripped and rendered by
    [Token.String]: no token that is appended has such an attribute, none is
    a tag whose atom is [atom.Script], and only text tokens are passed
    through [html.UnescapeString]. *)
Theorem removeScriptTags_pieces
    (tokenize : string -> list html.Token * html.tokenizer_end)
    (token_String : html.Token -> string) (UnescapeString : string -> string)
    (dom out : string) :
  hdpreviews.removeScriptTags tokenize token_String UnescapeString dom = Ok out ->
  exists pieces,
    out = concat_all (map (rendered token_String UnescapeString) pieces) /\
    sublist (map fst pieces)
      (map hdpreviews.strip_event_handlers (fst (tokenize dom))) /\
    Forall sanitized_piece pieces.
Proof.
  unfold hdpreviews.removeScriptTags.
  destruct (tokenize dom) as [tokens [|msg]]; [|done]. intros [= <-].
  destruct (removeScriptTags_loop_pieces token_String UnescapeString tokens ""
              true false false) as (pieces & Hout & Hsub & Hall).
  by exists pieces.
Qed.

Lemma removeScriptTags_pieces_witness :
  exists pieces,
    "</script>"
    = concat_all (map (rendered inputs.String_escaped_script
                         inputs.Unescape_escaped_script) pieces) /\
    Forall sanitized_piece pieces.
Proof.
  destruct (removeScriptTags_pieces inputs.tokenize_escaped_script
              inputs.String_escaped_script inputs.Unescape_escaped_script
              "&lt;/script&gt;" "</script>") as (pieces & Hout & _ & Hall);
    [vm_compute; reflexivity|].
  by exists pieces.
Defined.

(** ** The sanitizer that adds a snippet *)

Section snippet.
Variable token_String : html.Token -> string.
Variable UnescapeString : string -> string.
Variable Body : N.

Lemma removeScriptTagsAndAddSnippet_loop_response (tokens : list html.Token)
    (toAdd response : string)
    (firstToken lastTokenWasScript lastTokenWasStyle : bool) :
  streaminghdpreviews.removeScriptTagsAndAddSnippet_loop token_String
    UnescapeString Body tokens toAdd response
    firstToken lastTokenWasScript lastTokenWasStyle
  = response +:+
    streaminghdpreviews.removeScriptTagsAndAddSnippet_loop token_String
      UnescapeString Body tokens toAdd ""
      firstToken lastTokenWasScript lastTokenWasStyle.
Proof.
  revert response firstToken lastTokenWasScript lastTokenWasStyle.
  induction tokens as [|tk tokens IH]; intros r f s st; simpl.
  - by rewrite append_empty_r.
  - repeat case_match; try apply IH;
      match goal with
      | |- context [streaminghdpreviews.removeScriptTagsAndAddSnippet_loop
                      _ _ _ _ _ (r +:+ ?x) ?f' ?s' ?st'] =>
          change ("" +:+ x) with x;
          rewrite (IH (r +:+ x) f' s' st'), (IH x f' s' st')
      end; by rewrite append_assoc.
Qed.

Lemma removeScriptTagsAndAddSnippet_loop_no_body (tokens : list html.Token)
    (toAdd response : string)
    (firstToken lastTokenWasScript lastTokenWasStyle : bool) :
  Forall (fun tk => streaminghdpreviews.is_body_start_tag Body tk = false) tokens ->
  streaminghdpreviews.removeScriptTagsAndAddSnippet_loop token_String
    UnescapeString Body tokens toAdd response
    firstToken lastTokenWasScript lastTokenWasStyle
  = hdpreviews.removeScriptTags_loop token_String UnescapeString tokens response
      firstToken lastTokenWasScript lastTokenWasStyle.
Proof.
  intros Hno. revert response firstToken lastTokenWasScript lastTokenWasStyle.
  induction Hno as [|tk tokens Htk _ IH]; intros r f s st; simpl; [done|].
  unfold streaminghdpreviews.is_body_start_tag in Htk. rewrite Htk.
  repeat case_match; apply IH.
Qed.

Lemma removeScriptTagsAndAddSnippet_loop_body (pre post : list html.Token)
    (body : html.Token) (toAdd response : string)
    (firstToken lastTokenWasScript lastTokenWasStyle : bool) :
  Forall (fun tk => streaminghdpreviews.is_body_start_tag Body tk = false) pre ->
  streaminghdpreviews.is_body_start_tag Body body = true ->
  exists tail,
    streaminghdpreviews.removeScriptTagsAndAddSnippet_loop token_String
      UnescapeString Body (pre ++ body :: post) toAdd response
      firstToken lastTokenWasScript lastTokenWasStyle
    = hdpreviews.removeScriptTags_loop token_String UnescapeString pre response
        firstToken lastTokenWasScript lastTokenWasStyle
      +:+ (UnescapeString (token_String (hdpreviews.strip_event_handlers body))
           +:+ (toAdd +:+ tail)).
Proof.
  intros Hno Hbody.
  revert response firstToken lastTokenWasScript lastTokenWasStyle.
  induction Hno as [|tk pre Htk _ IH]; intros r f s st; simpl.
  - unfold streaminghdpreviews.is_body_start_tag in Hbody. rewrite Hbody.
    assert (html.is_text (html.Type_ body) = false) as ->.
    { apply andb_true_iff in Hbody as [Hstart _].
      by destruct (html.Type_ body). }
    rewrite andb_false_r.
    rewrite removeScriptTagsAndAddSnippet_loop_response.
    eexists. by rewrite !append_assoc.
  - unfold streaminghdpreviews.is_body_start_tag in Htk. rewrite Htk.
    repeat case_match; apply IH.
Qed.

End snippet.

(** X16: on a document whose tokens include no start tag with the atom
    [atom.Body], [removeScriptTagsAndAddSnippet] gives what [removeScriptTags]
    gives, the same string or the same error, and the snippet is not
    added. *)
Theorem removeScriptTagsAndAddSnippet_without_body
    (tokenize : string -> list html.Token * html.tokenizer_end)
    (token_String : html.Token -> string) (UnescapeString : string -> string)
    (Body : N) (dom toAdd : string) :
  Forall (fun tk => streaminghdpreviews.is_body_start_tag Body tk = false)
    (fst (tokenize dom)) ->
  streaminghdpreviews.removeScriptTagsAndAddSnippet tokenize token_String
    UnescapeString Body dom toAdd
  = hdpreviews.removeScriptTags tokenize token_String UnescapeString dom.
Proof.
  unfold streaminghdpreviews.removeScriptTagsAndAddSnippet,
    hdpreviews.removeScriptTags.
  destruct (tokenize dom) as [tokens [|msg]]; [|done]. simpl. intros Hno.
  by rewrite removeScriptTagsAndAddSnippet_loop_no_body.
Qed.

Lemma removeScriptTagsAndAddSnippet_without_body_witness :
  streaminghdpreviews.removeScriptTagsAndAddSnippet inputs.tokenize_escaped_script
    inputs.String_escaped_script inputs.Unescape_escaped_script 12036
    "&lt;/script&gt;" "<script src=client.js></script>"
  = Ok "</script>".
Proof.
  rewrite (removeScriptTagsAndAddSnippet_without_body
             inputs.tokenize_escaped_script inputs.String_escaped_script
             inputs.Unescape_escaped_script 12036 "&lt;/script&gt;"
             "<script src=client.js></script>").
  - vm_compute. reflexivity.
  - vm_compute. by repeat constructor.
Defined.

(** X17: on a document whose first start tag with the atom [atom.Body] is
    the token [body], after the tokens [pre],
    [removeScriptTagsAndAddSnippet] returns a string that begins with what
    the loop of [removeScriptTags] makes of [pre], followed by the unescaped
    string of [body] with its event handlers stripped, followed by the
    snippet. *)
Theorem removeScriptTagsAndAddSnippet_after_body
    (tokenize : string -> list html.Token * html.tokenizer_end)
    (token_String : html.Token -> string) (UnescapeString : string -> string)
    (Body : N) (dom toAdd : string) (pre post : list html.Token)
    (body : html.Token) :
  tokenize dom = (pre ++ body :: post, html.EOF) ->
  Forall (fun tk => streaminghdpreviews.is_body_start_tag Body tk = false) pre ->
  streaminghdpreviews.is_body_start_tag Body body = true ->
  exists tail,
    streaminghdpreviews.removeScriptTagsAndAddSnippet tokenize token_String
      UnescapeString Body dom toAdd
    = Ok (hdpreviews.removeScriptTags_loop token_String UnescapeString pre ""
            true false false
          +:+ (UnescapeString (token_String (hdpreviews.strip_event_handlers body))
               +:+ (toAdd +:+ tail))).
Proof.
  intros Htok Hno Hbody.
  unfold streaminghdpreviews.removeScriptTagsAndAddSnippet. rewrite Htok.
  destruct (removeScriptTagsAndAddSnippet_loop_body token_String UnescapeString
              Body pre post body toAdd "" true false false Hno Hbody)
    as [tail ->].
  by exists tail.
Qed.

Lemma removeScriptTagsAndAddSnippet_after_body_witness :
  exists tail,
    streaminghdpreviews.removeScriptTagsAndAddSnippet
      (fun _ =>
         ([html.mkToken html.StartTagToken (html.OtherAtom 12036) "body"
             [html.mkAttribute "" "onload" "boot()"];
           inputs.text_token "hello"], html.EOF))
      html.Data (fun s => s) 12036 "<body onload=boot()>hello" "<!-- snippet -->"
    = Ok ("" +:+ ("body" +:+ ("<!-- snippet -->" +:+ tail))).
Proof.
  apply (removeScriptTagsAndAddSnippet_after_body
           (fun _ =>
              ([html.mkToken html.StartTagToken (html.OtherAtom 12036) "body"
                  [html.mkAttribute "" "onload" "boot()"];
                inputs.text_token "hello"], html.EOF))
           html.Data (fun s => s) 12036 "<body onload=boot()>hello"
           "<!-- snippet -->" []
           [inputs.text_token "hello"]
           (html.mkToken html.StartTagToken (html.OtherAtom 12036) "body"
              [html.mkAttribute "" "onload" "boot()"])).
  - reflexivity.
  - constructor.
  - reflexivity.
Defined.

(** ** The event loop of the stream handler *)

Section stream_facts.
Variable Marshal : list domjson.DOMUpdate -> string.







End stream_facts.



(** ** The instance manager and its queue *)

Lemma remove_first_Permutation (id : Z) (l : list Z) :
  id ∈ l -> l ≡ₚ id :: pool.remove_first id l.
Proof.
  induction l as [|x l IH]; intros Hin; [by apply elem_of_nil in Hin|].
  simpl. destruct (decide (x = id)) as [->|Hne]; [done|].
  apply elem_of_cons in Hin as [->|Hin]; [done|].
  rewrite (IH Hin) at 1. apply Permutation_swap.
Qed.

Lemma NoDup_submseteq_inv (l k : list Z) : l ⊆+ k -> NoDup k -> NoDup l.
Proof.
  intros [k' Hk]%submseteq_Permutation. rewrite Hk.
  by intros [? _]%NoDup_app.
Qed.

Lemma ledger_next (k : nat) (finished finished' : list Z) (m m' : pool.Manager) :
  pool.ledger k finished m ->
  chrome.nextInstanceID (pool.im m') = chrome.nextInstanceID (pool.im m) ->
  pool.adder_ids (pool.adder m') ++ pool.instanceQueue m' ++ pool.receivers m'
    ++ finished'
  ⊆+ pool.adder_ids (pool.adder m) ++ pool.instanceQueue m ++ pool.receivers m
    ++ finished ->
  pool.ledger k finished' m'.
Proof.
  intros (Hk & Hnd & Hlt) Hnext Hsub. split; [congruence|]. split.
  - by eapply NoDup_submseteq_inv.
  - intros id Hin. apply Hlt. by eapply elem_of_submseteq.
Qed.

Lemma step_ledger (a : pool.action) (m m' : pool.Manager) (o : pool.observation)
    (k : nat) (finished : list Z) :
  pool.ledger k finished m ->
  Z.of_nat k < int_max ->
  pool.step a m = Some (m', o) ->
  exists k',
    (k <= k' <= S k)%nat /\
    pool.ledger k' (finished ++ pool.completed a) m' /\
    (forall id, id ∈ pool.receivers m ++ finished ->
       id ∈ pool.receivers m' ++ finished ++ pool.completed a) /\
    (forall id, o = pool.Received id ->
       (id ∉ pool.receivers m ++ finished) /\ id ∈ pool.receivers m').
Proof.
  intros Hl Hk Hstep. destruct a; simpl in Hstep.
  - (* TakeID *)
    destruct (pool.adder m) eqn:Ha; try done. injection Hstep as <- <-.
    exists (S k). split; [lia|]. rewrite app_nil_r.
    destruct Hl as (Hnext & Hnd & Hlt). rewrite Ha in *. simpl in *.
    split; [|split; [done|done]].
    split; [|split]; simpl.
    + rewrite Hnext. unfold pool.int_succ. rewrite decide_False by lia. lia.
    + rewrite Hnext. apply NoDup_cons. split; [|done].
      intros Hin. apply Hlt in Hin. lia.
    + rewrite Hnext. intros id [->|Hin]%elem_of_cons; [lia|].
      apply Hlt in Hin. lia.
  - (* GiveUp *)
    exists k. split; [lia|]. rewrite app_nil_r.
    destruct (pool.adder m) eqn:Ha; try done; injection Hstep as <- <-;
      (split; [|split; [done|done]]);
      (eapply ledger_next; [done|done|]); rewrite Ha; simpl;
      by apply submseteq_cons.
  - (* Register *)
    destruct (pool.adder m) eqn:Ha; try done.
    destruct (chrome.heap (pool.im m) !! chromeInstance); try done.
    injection Hstep as <- <-.
    exists k. split; [lia|]. rewrite app_nil_r.
    split; [|split; [done|done]].
    eapply ledger_next; [done|done|]. by rewrite Ha.
  - (* Publish *)
    destruct (pool.adder m) eqn:Ha; try done.
    destruct (decide _); [|done]. injection Hstep as <- <-.
    exists k. split; [lia|]. rewrite app_nil_r.
    split; [|split; [done|done]].
    eapply ledger_next; [done|done|]. rewrite Ha. simpl.
    apply Permutation_submseteq. rewrite <- app_assoc. simpl.
    by rewrite <- Permutation_middle.
  - (* Receive *)
    destruct (pool.instanceQueue m) as [|id rest] eqn:Hq; [done|].
    injection Hstep as <- <-.
    exists k. split; [lia|]. rewrite app_nil_r.
    split; [|split].
    + eapply ledger_next; [done|done|]. rewrite Hq. simpl.
      apply Permutation_submseteq.
      apply Permutation_app_head. symmetry. apply Permutation_middle.
    + simpl. intros id' Hin. by apply list_elem_of_further.
    + intros id' [= <-]. simpl. split; [|by apply list_elem_of_here].
      destruct Hl as (_ & Hnd & _). rewrite Hq in Hnd.
      apply NoDup_app in Hnd as (_ & _ & Hnd). simpl in Hnd.
      by apply NoDup_cons in Hnd as [Hnin _]; intros Hin; apply Hnin;
        apply elem_of_app; right.
  - (* Arm *)
    destruct (decide (id ∈ pool.receivers m)) as [Hin|]; [|done].
    pose proof (remove_first_Permutation id _ Hin) as Hperm.
    assert (forall i' h,
              pool.ledger k (finished ++ [id])
                (pool.mkManager
                   (chrome.mkInstanceManager (chrome.nextInstanceID (pool.im m))
                      (chrome.instances (pool.im m)) i' (chrome.useFullChrome (pool.im m)) h)
                   (pool.instanceQueue m) (pool.adder m)
                   (pool.remove_first id (pool.receivers m)))) as Hled.
    { intros i' h. eapply ledger_next; [done|done|]. simpl.
      apply Permutation_submseteq. do 2 apply Permutation_app_head.
      rewrite Hperm at 2. simpl. rewrite app_assoc.
      by rewrite <- Permutation_cons_append. }
    assert (forall id', id' ∈ pool.receivers m ++ finished ->
              id' ∈ pool.remove_first id (pool.receivers m) ++ finished ++ [id])
      as Hmono.
    { intros id'. rewrite Hperm at 1. rewrite !elem_of_app, elem_of_cons.
      rewrite list_elem_of_singleton. tauto. }
    destruct (chrome.instances (pool.im m) !! id) as [c|].
    + destruct (chrome.heap (pool.im m) !! c) as [inst|]; [|done].
      destruct (chrome.timerArmed inst); injection Hstep as <- <-;
        (exists k; split; [lia|]; split; [apply Hled|]; split; [apply Hmono|done]).
    + injection Hstep as <- <-.
      exists k. split; [lia|]. split; [apply Hled|]. split; [apply Hmono|done].
  - (* Remove *)
    unfold chrome.RemoveInstance in Hstep.
    destruct (chrome.instances (pool.im m) !! instanceID);
      injection Hstep as <- <-; (exists k; split; [lia|]; rewrite app_nil_r;
        split; [|split; [done|done]]); by eapply ledger_next.
  - (* Terminate *)
    destruct (chrome.heap (pool.im m) !! c); [|done]. injection Hstep as <- <-.
    exists k. split; [lia|]. rewrite app_nil_r.
    split; [|split; [done|done]]. by eapply ledger_next.
Qed.

Lemma run_cons (a : pool.action) (rest : list pool.action)
    (m m' : pool.Manager) (os : list pool.observation) :
  pool.run (a :: rest) m = Some (m', os) ->
  exists m1 o os',
    pool.step a m = Some (m1, o) /\ os = o :: os' /\
    ((exists id, o = pool.Fatal id) /\ rest = [] /\ os' = [] /\ m' = m1 \/
     (forall id, o ≠ pool.Fatal id) /\ pool.run rest m1 = Some (m', os')).
Proof.
  simpl. destruct (pool.step a m) as [[m1 o]|]; [|done].
  destruct o;
    try (destruct (pool.run rest m1) as [[m2 os']|] eqn:Hr; [|done];
         intros [= <- <-]; eexists _, _, _; split; [done|]; split; [done|];
         right; by split).
  destruct rest; [|done]. intros [= <- <-].
  eexists _, _, _. split; [done|]. split; [done|]. left. eauto.
Qed.

Lemma run_received (actions : list pool.action) :
  forall (m m' : pool.Manager) (os : list pool.observation) (k : nat)
         (finished : list Z),
    pool.ledger k finished m ->
    Z.of_nat (k + length actions) <= int_max ->
    pool.run actions m = Some (m', os) ->
    NoDup (pool.received os) /\
    forall id, id ∈ pool.received os -> id ∉ pool.receivers m ++ finished.
Proof.
  induction actions as [|a rest IH]; intros m m' os k finished Hl Hk Hrun.
  { injection Hrun as <- <-. split; [constructor|].
    intros id Hin. by apply elem_of_nil in Hin. }
  apply run_cons in Hrun as (m1 & o & os' & Hstep & -> & Hrest).
  simpl in Hk.
  destruct (step_ledger a m m1 o k finished Hl ltac:(lia) Hstep)
    as (k' & Hk' & Hl' & Hmono & Hrecv).
  destruct Hrest as [([id ->] & -> & -> & ->)|[Hnf Hrun]].
  { split; [constructor|]. intros id' Hin. by apply elem_of_nil in Hin. }
  destruct (IH m1 m' os' k' _ Hl' ltac:(lia) Hrun) as [Hnd Hfresh].
  assert (forall id, id ∈ pool.received os' -> id ∉ pool.receivers m ++ finished)
    as Hfresh'.
  { intros id Hin Hold. by apply (Hfresh id Hin), Hmono. }
  destruct o as [|id|id|id|id]; simpl; try done.
  destruct (Hrecv id eq_refl) as [Hnew Hin1]. split.
  - apply NoDup_cons. split; [|done]. intros Hin.
    apply (Hfresh id Hin). apply elem_of_app. by left.
  - intros id' [->|Hin]%elem_of_cons; [done|by apply Hfresh'].
Qed.

Lemma ledger_NewInstanceManager (useFullChrome : bool) :
  pool.ledger 0 [] (pool.NewInstanceManager useFullChrome).
Proof.
  split; [done|]. split; [constructor|].
  intros id Hin. by apply elem_of_nil in Hin.
Qed.

(** X19: in every run of the manager that [NewInstanceManager] creates, of
    fewer than 2^63 steps (the counter of IDs is an [int] and would wrap),
    whatever the interleaving of [addInstance], [GetNewInstance],
    [RemoveInstance] and the instances' shutdowns, and whichever browsers
    fail to start, the IDs that calls of [GetNewInstance] receive from the
    queue are pairwise different: no two callers are handed the same
    instance ID. *)
Theorem GetNewInstance_ids_distinct (useFullChrome : bool)
    (actions : list pool.action) (m : pool.Manager)
    (os : list pool.observation) :
  pool.run actions (pool.NewInstanceManager useFullChrome) = Some (m, os) ->
  Z.of_nat (length actions) <= int_max ->
  NoDup (pool.received os).
Proof.
  intros Hrun Hlen.
  by destruct (run_received actions (pool.NewInstanceManager useFullChrome)
                 m os 0%nat []
                 (ledger_NewInstanceManager useFullChrome) Hlen Hrun).
Qed.

Lemma remove_first_elem_of (id id' : Z) (l : list Z) :
  NoDup l -> id' ∈ pool.remove_first id l -> id' ∈ l /\ id' ≠ id.
Proof.
  induction 1 as [|x l Hx Hnd IH]; simpl; [by intros ?%elem_of_nil|].
  destruct (decide (x = id)) as [->|Hne].
  - intros Hin. split; [by apply list_elem_of_further|]. by intros ->.
  - intros [->|Hin]%elem_of_cons; [split; [apply list_elem_of_here|done]|].
    destruct (IH Hin). split; [by apply list_elem_of_further|done].
Qed.

Lemma step_Returned (a : pool.action) (m m' : pool.Manager) (id : Z) :
  pool.step a m = Some (m', pool.Returned id) -> pool.completed a = [id].
Proof.
  destruct a; simpl; repeat case_match; try done. by intros [= _ <-].
Qed.

Lemma step_served (a : pool.action) (m m' : pool.Manager) (o : pool.observation)
    (k : nat) (finished : list Z) :
  pool.ledger k finished m ->
  pool.served m ->
  (forall id, a = pool.Remove id -> id ∈ finished) ->
  pool.step a m = Some (m', o) ->
  pool.served m' /\
  (forall id, o ≠ pool.NilDereference id) /\ (forall id, o ≠ pool.Fatal id).
Proof.
  intros (_ & Hnd & _) (Hheap & Hinj & Hpend) Hrem Hstep.
  destruct a; simpl in Hstep.
  - (* TakeID *)
    destruct (pool.adder m) eqn:Ha; try done. injection Hstep as <- <-.
    split; [|done]. try rewrite Ha in Hpend. by repeat split.
  - (* GiveUp *)
    destruct (pool.adder m) eqn:Ha; try done; injection Hstep as <- <-;
      (split; [|done]); try rewrite Ha in Hpend; (split; [done|split; [done|]]);
      simpl in *; intros id' Hin; apply Hpend; [done|].
    by apply list_elem_of_further.
  - (* Register *)
    destruct (pool.adder m) as [|id|] eqn:Ha; try done.
    destruct (chrome.heap (pool.im m) !! chromeInstance) eqn:Hfresh; try done.
    injection Hstep as <- <-. split; [|done].
    try try rewrite Ha in Hpend; try rewrite Ha in Hnd. simpl in *.
    split; [|split]; simpl.
    + intros id' c. rewrite lookup_insert_Some.
      intros [[_ <-]|[_ Hl]]; [by rewrite lookup_insert_eq|].
      destruct (Hheap _ _ Hl) as [inst Hi].
      rewrite lookup_insert_ne by congruence. by eexists.
    + intros id1 id2 c. rewrite !lookup_insert_Some.
      intros [[<- <-]|[Hn1 Hl1]] [[<- Hc]|[Hn2 Hl2]]; try done.
      * destruct (Hheap _ _ Hl2) as [? ?]. congruence.
      * subst c. destruct (Hheap _ _ Hl1) as [? ?]. congruence.
      * by eapply Hinj.
    + intros id' [->|Hin]%elem_of_cons.
      * eexists _, _. rewrite !lookup_insert_eq. done.
      * apply NoDup_cons in Hnd as [Hnin _].
        assert (id' ≠ id) as Hne.
        { intros ->. apply Hnin. rewrite app_assoc. apply elem_of_app. by left. }
        destruct (Hpend id' Hin) as (c & inst & Hl & Hh & Ht).
        exists c, inst. rewrite lookup_insert_ne by done.
        rewrite lookup_insert_ne by congruence. done.
  - (* Publish *)
    destruct (pool.adder m) as [| |id] eqn:Ha; try done.
    destruct (decide _); [|done]. injection Hstep as <- <-. split; [|done].
    try rewrite Ha in Hpend. split; [done|split; [done|]]. simpl in *.
    intros id' Hin. apply Hpend.
    rewrite <- app_assoc in Hin. simpl in Hin.
    by rewrite <- Permutation_middle in Hin.
  - (* Receive *)
    destruct (pool.instanceQueue m) as [|id rest] eqn:Hq; [done|].
    injection Hstep as <- <-. split; [|done].
    split; [done|split; [done|]]. simpl in *.
    intros id' Hin. apply Hpend.
    by rewrite <- Permutation_middle in Hin.
  - (* Arm *)
    destruct (decide (id ∈ pool.receivers m)) as [Hin|]; [|done].
    destruct (Hpend id) as (c & inst & Hl & Hh & Ht).
    { rewrite !elem_of_app. by right; right. }
    rewrite Hl, Hh, Ht in Hstep. injection Hstep as <- <-. split; [|done].
    split; [|split]; simpl.
    + intros id' c' Hl'. destruct (decide (c' = c)) as [->|Hne].
      * by rewrite lookup_insert_eq.
      * rewrite lookup_insert_ne by done. by eapply Hheap.
    + done.
    + intros id' Hin'.
      assert (id' ∈ pool.registered_ids (pool.adder m) ++ pool.instanceQueue m
                     ++ pool.receivers m /\ id' ≠ id) as [Hold Hne].
      { assert (NoDup (pool.instanceQueue m ++ pool.receivers m)) as Hnd'.
        { apply NoDup_app in Hnd as (_ & _ & Hnd). rewrite app_assoc in Hnd.
          by apply NoDup_app in Hnd as (Hnd & _). }
        rewrite !elem_of_app in Hin'. rewrite !elem_of_app.
        destruct Hin' as [Hr|[Hq|Hr]].
        - split; [by left|]. intros ->.
          destruct (pool.adder m) as [| |x]; simpl in *;
            try (by apply elem_of_nil in Hr).
          apply list_elem_of_singleton in Hr as ->.
          apply NoDup_cons in Hnd as [Hnin _]. apply Hnin.
          rewrite !elem_of_app. by right; left.
        - split; [by right; left|]. intros ->.
          apply NoDup_app in Hnd' as (_ & Hdis & _). by apply (Hdis id).
        - apply NoDup_app in Hnd' as (_ & _ & Hndr).
          destruct (remove_first_elem_of _ _ _ Hndr Hr). split; [|done].
          by right; right. }
      destruct (Hpend id' Hold) as (c' & inst' & Hl' & Hh' & Ht').
      exists c', inst'. split; [done|]. split; [|done].
      rewrite lookup_insert_ne; [done|]. intros <-. apply Hne. by eapply Hinj.
  - (* Remove *)
    specialize (Hrem instanceID eq_refl).
    unfold chrome.RemoveInstance in Hstep.
    destruct (chrome.instances (pool.im m) !! instanceID) eqn:Hl;
      injection Hstep as <- <-; (split; [|done]); [|by repeat split].
    split; [|split]; simpl.
    + intros id' c'. rewrite lookup_delete_Some. intros [_ ?]. by eapply Hheap.
    + intros id1 id2 c'. rewrite !lookup_delete_Some.
      intros [_ ?] [_ ?]. by eapply Hinj.
    + intros id' Hin.
      assert (id' ≠ instanceID) as Hne.
      { intros ->.
        assert (NoDup ((pool.instanceQueue m ++ pool.receivers m) ++ finished))
          as Hnd2.
        { apply NoDup_app in Hnd as (_ & _ & Hnd). by rewrite <- app_assoc. }
        rewrite !elem_of_app in Hin. destruct Hin as [Hr|Hqr].
        - destruct (pool.adder m) as [| |x]; simpl in *;
            try (by apply elem_of_nil in Hr).
          apply list_elem_of_singleton in Hr as ->.
          apply NoDup_cons in Hnd as [Hnin _]. apply Hnin.
          rewrite !elem_of_app. by right; right.
        - apply NoDup_app in Hnd2 as (_ & Hdis & _).
          apply (Hdis instanceID); [|done]. by rewrite elem_of_app. }
      destruct (Hpend id' Hin) as (c' & inst' & Hl' & Hh' & Ht').
      exists c', inst'. by rewrite lookup_delete_ne.
  - (* Terminate *)
    destruct (chrome.heap (pool.im m) !! c) as [inst|] eqn:Hc; [|done].
    injection Hstep as <- <-. split; [|done].
    split; [|split]; simpl.
    + intros id' c' Hl'. destruct (decide (c' = c)) as [->|Hne].
      * by rewrite lookup_insert_eq.
      * rewrite lookup_insert_ne by done. by eapply Hheap.
    + done.
    + intros id' Hin. destruct (Hpend id' Hin) as (c' & inst' & Hl' & Hh' & Ht').
      destruct (decide (c' = c)) as [->|Hne].
      * eexists _, _. split; [done|]. rewrite lookup_insert_eq.
        split; [done|]. simpl. congruence.
      * exists c', inst'. by rewrite lookup_insert_ne.
Qed.

Lemma run_served (actions : list pool.action) :
  forall (m m' : pool.Manager) (os : list pool.observation) (k : nat)
         (finished : list Z),
    pool.ledger k finished m ->
    pool.served m ->
    Z.of_nat (k + length actions) <= int_max ->
    pool.removes_returned finished actions os ->
    pool.run actions m = Some (m', os) ->
    forall id, (pool.NilDereference id ∉ os) /\ (pool.Fatal id ∉ os).
Proof.
  induction actions as [|a rest IH]; intros m m' os k finished Hl Hs Hk Hrem Hrun.
  { injection Hrun as <- <-. intros id. split; by intros ?%elem_of_nil. }
  apply run_cons in Hrun as (m1 & o & os' & Hstep & -> & Hrest).
  simpl in Hk.
  destruct (step_ledger a m m1 o k finished Hl ltac:(lia) Hstep)
    as (k' & Hk' & Hl' & _ & _).
  destruct (step_served a m m1 o k finished Hl Hs) as (Hs' & Hnil & Hfatal);
    [|done|].
  { intros id ->. destruct (Hrem 0%nat id eq_refl) as [?|(j & Hj & _)]; [done|lia]. }
  destruct Hrest as [([id ->] & _)|[_ Hrun]]; [by destruct (Hfatal id)|].
  assert (pool.removes_returned (finished ++ pool.completed a) rest os') as Hrem'.
  { intros n id Hn. destruct (Hrem (S n) id Hn) as [Hin|(j & Hj & Hret)].
    - left. apply elem_of_app. by left.
    - destruct j as [|j]; simpl in Hret.
      + injection Hret as ->. left.
        rewrite (step_Returned _ _ _ _ Hstep).
        apply elem_of_app. right. by apply list_elem_of_singleton.
      + right. exists j. split; [lia|done]. }
  intros id. destruct (IH m1 m' os' k' _ Hl' Hs' ltac:(lia) Hrem' Hrun id)
    as [Hn Hf].
  split; intros [Heq|Hin]%elem_of_cons; try done.
  - by destruct (Hnil id).
  - by destruct (Hfatal id).
Qed.

Lemma served_NewInstanceManager (useFullChrome : bool) :
  pool.served (pool.NewInstanceManager useFullChrome).
Proof.
  split; [|split]; simpl.
  - intros id c. by rewrite lookup_empty.
  - intros id1 id2 c. by rewrite lookup_empty.
  - intros id Hin. by apply elem_of_nil in Hin.
Qed.

(** X20: in every run of the manager that [NewInstanceManager] creates, of
    fewer than 2^63 steps, in which [RemoveInstance] is called only for IDs
    that [GetNewInstance] has returned before, [GetNewInstance] finds an
    instance for each ID it receives and finds its timer not yet armed: it
    never dereferences a nil [*Instance], and [InitializeTimeout] never ends
    the process with [InitializeTimeout was already called]. *)
Theorem GetNewInstance_finds_instance (useFullChrome : bool)
    (actions : list pool.action) (m : pool.Manager)
    (os : list pool.observation) (id : Z) :
  pool.run actions (pool.NewInstanceManager useFullChrome) = Some (m, os) ->
  Z.of_nat (length actions) <= int_max ->
  (forall (n : nat) (id : Z),
     actions !! n = Some (pool.Remove id) ->
     exists j, (j < n)%nat /\ os !! j = Some (pool.Returned id)) ->
  (pool.NilDereference id ∉ os) /\ (pool.Fatal id ∉ os).
Proof.
  intros Hrun Hlen Hrem.
  apply (run_served actions (pool.NewInstanceManager useFullChrome) m os
           0%nat [] (ledger_NewInstanceManager useFullChrome)
           (served_NewInstanceManager useFullChrome) Hlen); [|done].
  intros n id' Hn. right. by apply Hrem.
Qed.

Lemma GetNewInstance_ids_distinct_witness :
  exists m os,
    pool.run [pool.TakeID; pool.Register 1%positive; pool.Publish;
              pool.TakeID; pool.Receive; pool.Register 2%positive;
              pool.Publish; pool.Receive]
      (pool.NewInstanceManager false) = Some (m, os) /\
    pool.received os = [0; 1] /\
    NoDup (pool.received os).
Proof.
  assert (exists m os,
            pool.run [pool.TakeID; pool.Register 1%positive; pool.Publish;
                      pool.TakeID; pool.Receive; pool.Register 2%positive;
                      pool.Publish; pool.Receive]
              (pool.NewInstanceManager false) = Some (m, os) /\
            pool.received os = [0; 1])
    as (m & os & H & Hr) by (eexists _, _; vm_compute; done).
  exists m, os. split; [done|]. split; [done|].
  apply (GetNewInstance_ids_distinct false
           [pool.TakeID; pool.Register 1%positive; pool.Publish;
            pool.TakeID; pool.Receive; pool.Register 2%positive;
            pool.Publish; pool.Receive] m os H).
  vm_compute. by intros [=].
Defined.

Lemma GetNewInstance_finds_instance_witness :
  exists m os,
    pool.run [pool.TakeID; pool.Register 1%positive; pool.Publish;
              pool.Receive; pool.Arm 0 "https://example.org/"; pool.Remove 0]
      (pool.NewInstanceManager false) = Some (m, os) /\
    (pool.NilDereference 0 ∉ os) /\ (pool.Fatal 0 ∉ os).
Proof.
  assert (exists m os,
            pool.run [pool.TakeID; pool.Register 1%positive; pool.Publish;
                      pool.Receive; pool.Arm 0 "https://example.org/";
                      pool.Remove 0]
              (pool.NewInstanceManager false) = Some (m, os) /\
            os !! 4%nat = Some (pool.Returned 0))
    as (m & os & H & Hr) by (eexists _, _; vm_compute; done).
  exists m, os. split; [done|].
  apply (GetNewInstance_finds_instance false
           [pool.TakeID; pool.Register 1%positive; pool.Publish;
            pool.Receive; pool.Arm 0 "https://example.org/"; pool.Remove 0]
           m os 0 H).
  - vm_compute. by intros [=].
  - intros n id Hn.
    do 6 (destruct n as [|n]; [try done|]); [|by destruct n].
    injection Hn as <-. exists 4%nat. split; [lia|done].
Defined.
